(** * Afterglow: the lamp matrix firmware of [afterglow_arduino.ino]

    A shallow embedding of the realtime core (timer interrupt, input
    validation, brightness integration, PWM output) and of the configuration
    handling (defaults, EEPROM, serial transfer), followed by the properties
    the specification states about them.

    Conventions.  Unsigned C integers are [Z] values kept in range by the
    casts [u8], [u16], [u32], written where the C code truncates.  The C
    arrays [sMatrixState], [sGlowSteps], [sMaxSubcycle] ([NUM_COL] x
    [NUM_ROW]) are flat lists in memory order, lamp (col,row) at index
    [col * NUM_ROW + row], which is how the code walks them by pointer. *)

From Stdlib Require Import ZArith Lia List Bool String.
From stdpp Require Import base numbers list.

Local Open Scope Z_scope.

(* ------------------------------------------------------------------ *)
(** ** Fixed-width integers *)

Definition u8 (x : Z) : Z := x mod 256.
Definition u16 (x : Z) : Z := x mod 65536.
Definition u32 (x : Z) : Z := x mod 4294967296.

(** C truth value of an integer expression. *)
Definition nonzero (x : Z) : bool := negb (x =? 0).

(** [a[i]] for an array held as a list; the code never reads out of range. *)
Definition rd (a : list Z) (i : Z) : Z := a !!! Z.to_nat i.

(** [a[i] = v]. *)
Definition wr (a : list Z) (i : Z) (v : Z) : list Z := <[Z.to_nat i := v]> a.

(* ------------------------------------------------------------------ *)
(** ** Compile-time constants *)

Definition AFTERGLOW_VERSION : Z := 108.
Definition AFTERGLOW_CFG_VERSION : Z := 1.
Definition SINGLE_UPDATE_CONS : Z := 2.
Definition ORIG_INT : Z := 2000.
Definition TTAG_INT_A : Z := 250.
Definition ORIG_CYCLES_A : Z := ORIG_INT / TTAG_INT_A.
Definition TTAG_INT_B : Z := 500.
Definition ORIG_CYCLES_B : Z := ORIG_INT / TTAG_INT_B.
Definition NUM_COL : Z := 8.
Definition NUM_ROW : Z := 8.
Definition DEFAULT_GLOWDUR : Z := 140.
Definition GLOWDUR_CFG_SCALE : Z := 10.
Definition DEFAULT_BRIGHTNESS : Z := 7.
Definition TEST_MODE_NUMMODES : Z := 7.
Definition TEST_MODE_DUR : Z := 8.
Definition TESTMODE_INT : Z := 500.
Definition TESTMODE_CYCLES_A : Z := u32 TESTMODE_INT * 1000 / u32 TTAG_INT_A.
Definition TESTMODE_CYCLES_B : Z := u32 TESTMODE_INT * 1000 / u32 TTAG_INT_B.
Definition AG_CMD_WRITE_BUF : Z := 32.
Definition AG_CMD_CFG_DATA_READY : string := "AGDR".
Definition AG_CMD_ACK : string := "AGCACK".
Definition AG_CMD_NACK : string := "AGCNACK".

(** Index of lamp (col,row) in the flat arrays. *)
Definition lamp (col row : Z) : Z := col * NUM_ROW + row.

(* ------------------------------------------------------------------ *)
(** ** Brightness integrator *)

(** [updateMx(pMx, on, step)], as a function of the counter [*pMx].
    Counter and step are [uint16_t]; the comparison against [65535 - step]
    is done in a wider type, the assignments wrap to 16 bits. *)
Definition updateMx (mx : Z) (on : bool) (step : Z) : Z :=
  if on then
    if mx <? 65535 - step then u16 (mx + step) else 65535
  else
    if mx >? step then u16 (mx - step) else 0.

(** The row loop of [updateCol]: [n] iterations left, [r] the loop counter,
    [pMx] and [pkStep] point at [base + r]. *)
Fixpoint updateCol_rows (n : nat) (base r : Z) (steps : list Z)
    (rowMask : Z) (mx : list Z) : list Z :=
  match n with
  | O => mx
  | S n' =>
      let mx' := wr mx (base + r)
                   (updateMx (rd mx (base + r))
                             (nonzero (Z.land rowMask 1))
                             (rd steps (base + r))) in
      updateCol_rows n' base (r + 1) steps (Z.shiftr rowMask 1) mx'
  end.

(** [updateCol(col, rowMask)] on the matrix, given the glow steps. *)
Definition updateCol (steps : list Z) (col rowMask : Z) (mx : list Z)
    : list Z :=
  if col >=? NUM_COL then mx
  else updateCol_rows (Z.to_nat NUM_ROW) (lamp col 0) 0 steps rowMask mx.

(* ------------------------------------------------------------------ *)
(** ** Global variables

    The statics of the sketch, the function-local statics of [updateValid]
    and [driveLampMatrixPassThrough], and the peripherals the code talks to:
    the EEPROM cells and the serial port (what was printed, and the bytes
    waiting in the receive buffer).  [sCfg] is the byte image of
    [AFTERGLOW_CFG_t], which the code reads and writes through
    [uint8_t*]: version (2 bytes), reserved (2), [lampGlowDur] (64),
    [lampBrightness] (64), crc (4), little endian as on the AVR. *)

Record State : Type := mkState {
  sMatrixState : list Z;
  sTtag : Z;
  sLastColMask : Z;
  sLastRowMask : Z;
  sConsistentSamples : Z;
  sLastUpdColMask : Z;
  sLastPassThroughColMask : Z;
  sLastPassThroughRowMask : Z;
  sCfg : list Z;
  sGlowSteps : list Z;
  sMaxSubcycle : list Z;
  sLastPINB : Z;
  eeprom : list Z;
  serialOut : list string;
  serialIn : list Z
}.

Definition set_matrix (mx : list Z) (st : State) : State :=
  mkState mx (sTtag st) (sLastColMask st) (sLastRowMask st)
    (sConsistentSamples st) (sLastUpdColMask st)
    (sLastPassThroughColMask st) (sLastPassThroughRowMask st)
    (sCfg st) (sGlowSteps st) (sMaxSubcycle st) (sLastPINB st)
    (eeprom st) (serialOut st) (serialIn st).

Definition set_ttag (t : Z) (st : State) : State :=
  mkState (sMatrixState st) t (sLastColMask st) (sLastRowMask st)
    (sConsistentSamples st) (sLastUpdColMask st)
    (sLastPassThroughColMask st) (sLastPassThroughRowMask st)
    (sCfg st) (sGlowSteps st) (sMaxSubcycle st) (sLastPINB st)
    (eeprom st) (serialOut st) (serialIn st).

Definition set_last (colMask rowMask : Z) (st : State) : State :=
  mkState (sMatrixState st) (sTtag st) colMask rowMask
    (sConsistentSamples st) (sLastUpdColMask st)
    (sLastPassThroughColMask st) (sLastPassThroughRowMask st)
    (sCfg st) (sGlowSteps st) (sMaxSubcycle st) (sLastPINB st)
    (eeprom st) (serialOut st) (serialIn st).

Definition set_valid (cons upd : Z) (st : State) : State :=
  mkState (sMatrixState st) (sTtag st) (sLastColMask st) (sLastRowMask st)
    cons upd
    (sLastPassThroughColMask st) (sLastPassThroughRowMask st)
    (sCfg st) (sGlowSteps st) (sMaxSubcycle st) (sLastPINB st)
    (eeprom st) (serialOut st) (serialIn st).

Definition set_passthrough (colMask rowMask : Z) (st : State) : State :=
  mkState (sMatrixState st) (sTtag st) (sLastColMask st) (sLastRowMask st)
    (sConsistentSamples st) (sLastUpdColMask st)
    colMask rowMask
    (sCfg st) (sGlowSteps st) (sMaxSubcycle st) (sLastPINB st)
    (eeprom st) (serialOut st) (serialIn st).

Definition set_cfg (cfg : list Z) (st : State) : State :=
  mkState (sMatrixState st) (sTtag st) (sLastColMask st) (sLastRowMask st)
    (sConsistentSamples st) (sLastUpdColMask st)
    (sLastPassThroughColMask st) (sLastPassThroughRowMask st)
    cfg (sGlowSteps st) (sMaxSubcycle st) (sLastPINB st)
    (eeprom st) (serialOut st) (serialIn st).

Definition set_tables (steps maxSub : list Z) (st : State) : State :=
  mkState (sMatrixState st) (sTtag st) (sLastColMask st) (sLastRowMask st)
    (sConsistentSamples st) (sLastUpdColMask st)
    (sLastPassThroughColMask st) (sLastPassThroughRowMask st)
    (sCfg st) steps maxSub (sLastPINB st)
    (eeprom st) (serialOut st) (serialIn st).

Definition set_lastPINB (pinb : Z) (st : State) : State :=
  mkState (sMatrixState st) (sTtag st) (sLastColMask st) (sLastRowMask st)
    (sConsistentSamples st) (sLastUpdColMask st)
    (sLastPassThroughColMask st) (sLastPassThroughRowMask st)
    (sCfg st) (sGlowSteps st) (sMaxSubcycle st) pinb
    (eeprom st) (serialOut st) (serialIn st).

Definition set_eeprom (ee : list Z) (st : State) : State :=
  mkState (sMatrixState st) (sTtag st) (sLastColMask st) (sLastRowMask st)
    (sConsistentSamples st) (sLastUpdColMask st)
    (sLastPassThroughColMask st) (sLastPassThroughRowMask st)
    (sCfg st) (sGlowSteps st) (sMaxSubcycle st) (sLastPINB st)
    ee (serialOut st) (serialIn st).

Definition set_serialIn (rx : list Z) (st : State) : State :=
  mkState (sMatrixState st) (sTtag st) (sLastColMask st) (sLastRowMask st)
    (sConsistentSamples st) (sLastUpdColMask st)
    (sLastPassThroughColMask st) (sLastPassThroughRowMask st)
    (sCfg st) (sGlowSteps st) (sMaxSubcycle st) (sLastPINB st)
    (eeprom st) (serialOut st) rx.

(** [Serial.print(s)]: one entry of the transcript per call. *)
Definition Serial_print (s : string) (st : State) : State :=
  mkState (sMatrixState st) (sTtag st) (sLastColMask st) (sLastRowMask st)
    (sConsistentSamples st) (sLastUpdColMask st)
    (sLastPassThroughColMask st) (sLastPassThroughRowMask st)
    (sCfg st) (sGlowSteps st) (sMaxSubcycle st) (sLastPINB st)
    (eeprom st) (serialOut st ++ [s]) (serialIn st).

(** [Serial.println(s)]. *)
Definition CRLF : string :=
  String (Ascii.ascii_of_nat 13) (String (Ascii.ascii_of_nat 10) EmptyString).

Definition Serial_println (s : string) (st : State) : State :=
  Serial_print (s ++ CRLF)%string st.

(** The statics as the C runtime zero-initialises them, over a given EEPROM
    content. *)
Definition boot (ee : list Z) : State :=
  mkState (replicate 64 0) 0 0 0 0 0 0 0
    (replicate 136 0) (replicate 64 0) (replicate 64 0) 0 ee [] [].

(* ------------------------------------------------------------------ *)
(** ** Column validator *)

(** The [switch (inColMask)] of the interrupt handler: the column index
    [inCol] and the value [validInput] has after it. *)
Definition decodeCol (inColMask : Z) : Z * bool :=
  match inColMask with
  | 0x01 => (0, true)
  | 0x02 => (1, true)
  | 0x04 => (2, true)
  | 0x08 => (3, true)
  | 0x10 => (4, true)
  | 0x20 => (5, true)
  | 0x40 => (6, true)
  | 0x80 => (7, true)
  | _ => (NUM_COL, false)
  end.

(** [updateValid(inColMask, inRowMask)]: the returned flag and the statics
    [sConsistentSamples], [sLastUpdColMask] it leaves behind. *)
Definition updateValid (inColMask inRowMask : Z) (st : State) : bool * State :=
  if negb (inColMask =? sLastUpdColMask st) then
    let cons :=
      if negb (inColMask =? sLastColMask st)
         || negb (inRowMask =? sLastRowMask st)
      then 0
      else if sConsistentSamples st <? 255
           then u8 (sConsistentSamples st + 1)
           else sConsistentSamples st in
    if cons >=? SINGLE_UPDATE_CONS - 1
    then (true, set_valid cons inColMask st)
    else (false, set_valid cons (sLastUpdColMask st) st)
  else (false, st).

(* ------------------------------------------------------------------ *)
(** ** Output driver *)

(** A frame handed to [dataOutput(colData, rowData)]. *)
Definition Frame : Type := (Z * Z)%type.

(** [driveLampMatrixPassThrough()]. *)
Definition driveLampMatrixPassThrough (st : State) : list Frame * State :=
  if negb (sLastColMask st =? sLastPassThroughColMask st)
     || negb (sLastRowMask st =? sLastPassThroughRowMask st)
  then ([(sLastColMask st, sLastRowMask st)],
        set_passthrough (sLastColMask st) (sLastRowMask st) st)
  else ([], st).

(** The sub cycle a brightness value reaches, [*pMx / (65536 / ORIG_CYCLES)]
    stored in a [uint16_t]. *)
Definition subCycleOf (pinb v : Z) : Z :=
  u16 (if nonzero (Z.land pinb 0x04)
       then v / (65536 / ORIG_CYCLES_A)
       else v / (65536 / ORIG_CYCLES_B)).

(** The row loop of [driveLampMatrix]: [rowData] is shifted right and the
    lamp's bit enters at the top. *)
Fixpoint driveLampMatrix_rows (n : nat) (base r : Z) (pinb colCycle : Z)
    (mx maxSub : list Z) (rowData : Z) : Z :=
  match n with
  | O => rowData
  | S n' =>
      let rowData := Z.shiftr rowData 1 in
      let rowData :=
        if nonzero (rd mx (base + r)) then
          let subCycle := subCycleOf pinb (rd mx (base + r)) in
          let subCycle :=
            if subCycle >? rd maxSub (base + r)
            then rd maxSub (base + r) else subCycle in
          if subCycle >=? colCycle then u8 (Z.lor rowData 0x80) else rowData
        else rowData in
      driveLampMatrix_rows n' base (r + 1) pinb colCycle mx maxSub rowData
  end.

(** The column selected by the tick counter and its sub cycle. *)
Definition outColOf (st : State) : Z := sTtag st mod NUM_COL.

Definition colCycleOf (pinb : Z) (st : State) : Z :=
  if nonzero (Z.land pinb 0x04)
  then (sTtag st / NUM_COL) mod ORIG_CYCLES_A
  else (sTtag st / NUM_COL) mod ORIG_CYCLES_B.

(** The frame [driveLampMatrix] computes: [(colData, rowData)]. *)
Definition lampFrame (pinb : Z) (st : State) : Frame :=
  let outCol := outColOf st in
  let colCycle := colCycleOf pinb st in
  let colData := u8 (Z.shiftl 1 outCol) in
  let rowData :=
    driveLampMatrix_rows (Z.to_nat NUM_ROW) (lamp outCol 0) 0 pinb colCycle
      (sMatrixState st) (sMaxSubcycle st) 0 in
  (colData, rowData).

(** [driveLampMatrix()]: the blanking frame, then the lamp frame. *)
Definition driveLampMatrix (pinb : Z) (st : State) : list Frame :=
  [(0x00, 0x00); lampFrame pinb st].

(* ------------------------------------------------------------------ *)
(** ** Test mode input *)

(** [testModeInput()], with [REPLAY_ENABLED] undefined as in the sketch. *)
Definition testModeInput (pinb : Z) (st : State) : Z :=
  let col :=
    u8 (if nonzero (Z.land pinb 0x04)
        then (sTtag st / ORIG_CYCLES_A) mod NUM_COL
        else (sTtag st / ORIG_CYCLES_B) mod NUM_COL) in
  let colMask := u8 (Z.shiftl 1 col) in
  let rowMask := 0 in
  let rowMask :=
    if nonzero (Z.land pinb 0x02) then
      let m :=
        u8 (if nonzero (Z.land pinb 0x04)
            then sTtag st / (TEST_MODE_DUR * 1000000 / TTAG_INT_A)
            else sTtag st / (TEST_MODE_DUR * 1000000 / TTAG_INT_B)) in
      let tmp :=
        if nonzero (Z.land pinb 0x04)
        then sTtag st / TESTMODE_CYCLES_A
        else sTtag st / TESTMODE_CYCLES_B in
      match m mod TEST_MODE_NUMMODES with
      | 0 =>
          let c := u8 (tmp mod NUM_COL) in
          if c =? col then 0xff else rowMask
      | 1 =>
          let r := u8 (tmp mod NUM_ROW) in
          u8 (Z.lor rowMask (Z.shiftl 1 r))
      | 2 =>
          let c := u8 (tmp mod NUM_COL) in
          if negb (c =? col) then 0xff else rowMask
      | 3 =>
          let r := u8 (tmp mod NUM_ROW) in
          u8 (Z.lnot (Z.shiftl 1 r))
      | 4 => if nonzero (tmp mod 2) then 0xff else rowMask
      | 5 =>
          if col mod 2 =? tmp mod 2 then
            let rowMask := 0x55 in
            if nonzero (tmp mod 3) then u8 (Z.shiftl rowMask 1) else rowMask
          else rowMask
      | 6 =>
          let l := u8 (u32 (tmp * 4) mod (NUM_COL * NUM_ROW)) in
          let c := u8 (l / NUM_ROW) in
          let r := u8 (l mod NUM_COL) in
          if c =? col then u8 (Z.shiftl 1 r) else rowMask
      | _ => rowMask
      end
    else rowMask in
  let rowMask := u8 (Z.lnot rowMask) in
  u16 (Z.lor (Z.shiftl colMask 8) rowMask).

(* ------------------------------------------------------------------ *)
(** ** The timer interrupt *)

(** What one run of the handler does: the state it leaves, the frames it
    sent to the output register, and the call of [updateCol] it made, if
    any. *)
Record Tick : Type := mkTick {
  tick_state : State;
  tick_frames : list Frame;
  tick_update : option (Z * Z)
}.

(** The value of [inData] once the test mode substitution is done;
    [sampled] is what [sampleInput()] returned. *)
Definition inDataOf (pinb sampled : Z) (st : State) : Z :=
  if Z.land pinb 0x01 =? 0 then testModeInput pinb st else sampled.

Definition inColMaskOf (inData : Z) : Z := u8 (Z.shiftr inData 8).
Definition inRowMaskOf (inData : Z) : Z := u8 (Z.lnot (u8 inData)).

(** [ISR(TIMER1_COMPA_vect)].  [pinb] is the value of the jumper port
    during the tick.  The runtime measurement at the end of the handler
    reads the hardware timer and touches nothing modelled here. *)
Definition ISR (pinb sampled : Z) (st : State) : Tick :=
  let st := set_ttag (u32 (sTtag st + 1)) st in
  let '(frames, st) :=
    if Z.land pinb 0x08 =? 0
    then driveLampMatrixPassThrough st
    else (driveLampMatrix pinb st, st) in
  let inData := inDataOf pinb sampled st in
  let inColMask := inColMaskOf inData in
  let inRowMask := inRowMaskOf inData in
  let '(inCol, validInput) := decodeCol inColMask in
  let '(valid, st) := updateValid inColMask inRowMask st in
  let validInput := validInput && valid in
  let st :=
    if validInput
    then set_matrix
           (updateCol (sGlowSteps st) inCol inRowMask (sMatrixState st)) st
    else st in
  let st := set_last inColMask inRowMask st in
  mkTick st frames (if validInput then Some (inCol, inRowMask) else None).

(** The handler run over a sequence of ticks; input [n] is the jumper port
    and the sampled word of tick [n]. *)
Fixpoint run (inp : nat -> Z * Z) (st : State) (n : nat) : State :=
  match n with
  | O => st
  | S n' => tick_state (ISR (fst (inp n')) (snd (inp n')) (run inp st n'))
  end.

(** Tick [n] of a run. *)
Definition tickAt (inp : nat -> Z * Z) (st : State) (n : nat) : Tick :=
  ISR (fst (inp n)) (snd (inp n)) (run inp st n).

(** The (column mask, row mask) sample seen by tick [n]; the handler stores
    it in [sLastColMask], [sLastRowMask]. *)
Definition sampleAt (inp : nat -> Z * Z) (st : State) (n : nat) : Z * Z :=
  let st' := tick_state (tickAt inp st n) in
  (sLastColMask st', sLastRowMask st').

(* ------------------------------------------------------------------ *)
(** ** Configuration *)

Definition CFG_SIZE : Z := 136.
Definition CFG_OFF_GLOWDUR : Z := 4.
Definition CFG_OFF_BRIGHTNESS : Z := 68.
Definition CFG_OFF_CRC : Z := 132.

Definition get16 (b : list Z) (off : Z) : Z :=
  rd b off + 256 * rd b (off + 1).

Definition get32 (b : list Z) (off : Z) : Z :=
  rd b off + 256 * rd b (off + 1) + 65536 * rd b (off + 2)
  + 16777216 * rd b (off + 3).

Definition put16 (b : list Z) (off v : Z) : list Z :=
  wr (wr b off (u8 v)) (off + 1) (u8 (Z.shiftr v 8)).

Definition put32 (b : list Z) (off v : Z) : list Z :=
  wr (wr (wr (wr b off (u8 v)) (off + 1) (u8 (Z.shiftr v 8)))
         (off + 2) (u8 (Z.shiftr v 16)))
     (off + 3) (u8 (Z.shiftr v 24)).

Definition cfg_version (cfg : list Z) : Z := get16 cfg 0.
Definition cfg_lampGlowDur (cfg : list Z) (p : Z) : Z :=
  rd cfg (CFG_OFF_GLOWDUR + p).
Definition cfg_lampBrightness (cfg : list Z) (p : Z) : Z :=
  rd cfg (CFG_OFF_BRIGHTNESS + p).
Definition cfg_crc (cfg : list Z) : Z := get32 cfg CFG_OFF_CRC.

(** The bit loop of [calculateCRC32] for one byte [c]; [i] runs through
    0x80, 0x40, ..., 0x01. *)
Fixpoint crc_bits (n : nat) (i c crc : Z) : Z :=
  match n with
  | O => crc
  | S n' =>
      let bit := nonzero (Z.land crc 0x80000000) in
      let bit := if nonzero (Z.land c i) then negb bit else bit in
      let crc := u32 (Z.shiftl crc 1) in
      let crc := if bit then Z.lxor crc 0x04c11db7 else crc in
      crc_bits n' (Z.shiftr i 1) c crc
  end.

(** [calculateCRC32(data, length)]. *)
Definition calculateCRC32 (data : list Z) (length : Z) : Z :=
  fold_left (fun crc c => crc_bits 8 0x80 c crc)
            (take (Z.to_nat length) data) 0xffffffff.

(** The glow step [applyCfg] computes from a glow duration byte. *)
Definition glowStepOf (dur : Z) : Z :=
  let glowDur := u32 (dur * GLOWDUR_CFG_SCALE) in
  if glowDur >? 0
  then u16 (u16 (65535 / (u32 (glowDur * 1000) / ORIG_INT)) * NUM_COL)
  else 0xffff.

(** The maximum sub cycle [applyCfg] computes from a brightness byte. *)
Definition maxSubcycleOf (pinb brightness : Z) : Z :=
  if nonzero (Z.land pinb 0x04)
  then Z.shiftr brightness (8 / ORIG_CYCLES_A - 1)
  else Z.shiftr brightness (8 / ORIG_CYCLES_B - 1).

(** [applyCfg()].  The two nested loops advance the four pointers in step,
    so entry [p] of each table comes from entry [p] of the configuration. *)
Definition applyCfg (pinb : Z) (st : State) : State :=
  let lamps := seqZ 0 (NUM_COL * NUM_COL) in
  set_tables
    ((fun p => glowStepOf (cfg_lampGlowDur (sCfg st) p)) <$> lamps)
    ((fun p => maxSubcycleOf pinb (cfg_lampBrightness (sCfg st) p)) <$> lamps)
    st.

(** The fill loop of [setDefaultCfg]. *)
Fixpoint setDefaultCfg_fill (n : nat) (p : Z) (cfg : list Z) : list Z :=
  match n with
  | O => cfg
  | S n' =>
      let cfg := wr cfg (CFG_OFF_GLOWDUR + p)
                    (DEFAULT_GLOWDUR / GLOWDUR_CFG_SCALE) in
      let cfg := wr cfg (CFG_OFF_BRIGHTNESS + p) DEFAULT_BRIGHTNESS in
      setDefaultCfg_fill n' (p + 1) cfg
  end.

(** The record [setDefaultCfg] builds. *)
Definition defaultCfgBytes : list Z :=
  let cfg := replicate (Z.to_nat CFG_SIZE) 0 in
  let cfg := put16 cfg 0 AFTERGLOW_CFG_VERSION in
  let cfg := setDefaultCfg_fill (Z.to_nat (NUM_COL * NUM_ROW)) 0 cfg in
  put32 cfg CFG_OFF_CRC (calculateCRC32 cfg (CFG_SIZE - 4)).

(** [setDefaultCfg()]. *)
Definition setDefaultCfg (st : State) : State := set_cfg defaultCfgBytes st.

(** [defaultCfg()]. *)
Definition defaultCfg (st : State) : State :=
  Serial_print AG_CMD_ACK (setDefaultCfg st).

(** The first [sizeof(sCfg)] EEPROM cells, read one by one with
    [EEPROM.read(i)]. *)
Definition EEPROM_image (ee : list Z) : list Z :=
  (fun i => rd ee i) <$> seqZ 0 CFG_SIZE.

(** [loadCfg(&err)]: the flag, [*pErr] and the state with [sCfg] read from
    the EEPROM. *)
Definition loadCfg (st : State) : bool * Z * State :=
  let cfg := EEPROM_image (eeprom st) in
  let st := set_cfg cfg st in
  if cfg_version cfg =? AFTERGLOW_CFG_VERSION then
    let crc := calculateCRC32 cfg (CFG_SIZE - 4) in
    if crc =? cfg_crc cfg then (true, 0, st) else (false, 2, st)
  else (false, 1, st).

(** The write loop of [saveCfgToEEPROM]. *)
Fixpoint saveCfg_loop (n : nat) (i : Z) (cfg ee : list Z) : list Z :=
  match n with
  | O => ee
  | S n' => saveCfg_loop n' (i + 1) cfg (wr ee i (rd cfg i))
  end.

(** [saveCfgToEEPROM()]. *)
Definition saveCfgToEEPROM (st : State) : State :=
  let st :=
    set_eeprom (saveCfg_loop (Z.to_nat CFG_SIZE) 0 (sCfg st) (eeprom st)) st in
  let st := Serial_print "EEPROM write " st in
  Serial_println "136" st.

(** How far [receiveCfg] got: it returned, or it is still in its receive
    loop after the given number of rounds. *)
Inductive Outcome : Type :=
| Returned (st : State)
| Waiting (st : State).

(** The inner read loop of [receiveCfg]: [budget] is what is left of
    [AG_CMD_WRITE_BUF], [cfg] the bytes stored so far ([size] of them). *)
Fixpoint receiveCfg_read (budget : nat) (cfg : list Z) (st : State)
    : list Z * State :=
  match budget with
  | O => (cfg, st)
  | S budget' =>
      match serialIn st with
      | [] => (cfg, st)
      | b :: rx =>
          if Z.of_nat (length cfg) <? CFG_SIZE
          then receiveCfg_read budget' (cfg ++ [b]) (set_serialIn rx st)
          else (cfg, st)
      end
  end.

(** The outer loop of [receiveCfg], for at most [rounds] rounds.
    [arrivals] lists the bytes that reach the receive buffer during the
    [delay(200)] of each round; once it is used up nothing arrives any
    more.  [None] means the loop has not ended yet. *)
Fixpoint receiveCfg_loop (rounds : nat) (arrivals : list (list Z))
    (cfg : list Z) (st : State) : option (list Z) * State :=
  if Z.of_nat (length cfg) <? CFG_SIZE then
    match rounds with
    | O => (None, st)
    | S rounds' =>
        let st := Serial_print AG_CMD_CFG_DATA_READY st in
        let st := set_serialIn (serialIn st ++ hd [] arrivals) st in
        let '(cfg, st) := receiveCfg_read (Z.to_nat AG_CMD_WRITE_BUF) cfg st in
        receiveCfg_loop rounds' (tl arrivals) cfg st
    end
  else (Some cfg, st).

(** [receiveCfg()]. *)
Definition receiveCfg (rounds : nat) (pinb : Z) (arrivals : list (list Z))
    (st : State) : Outcome :=
  match receiveCfg_loop rounds arrivals [] st with
  | (None, st) => Waiting st
  | (Some cfg, st) =>
      let size := Z.of_nat (length cfg) in
      let '(res, st) :=
        if size =? CFG_SIZE then
          let crc := calculateCRC32 cfg (size - 4) in
          if crc =? cfg_crc cfg
          then (true, saveCfgToEEPROM (applyCfg pinb (set_cfg cfg st)))
          else (false, st)
        else (false, st) in
      Returned (Serial_print (if res then AG_CMD_ACK else AG_CMD_NACK) st)
  end.

(** The parts of [setup()] that touch the modelled state; [efuse] is the
    extended fuse byte. *)
Definition setup (pinb efuse : Z) (st : State) : State :=
  let st := set_matrix (replicate (Z.to_nat (NUM_COL * NUM_ROW)) 0) st in
  let '(cfgLoaded, err, st) := loadCfg st in
  let st :=
    if negb cfgLoaded then saveCfgToEEPROM (setDefaultCfg st) else st in
  let st := applyCfg pinb st in
  let st := Serial_print "afterglow v" st in
  let st := Serial_print "108" st in
  let st := Serial_println " (c) 2018 morbid cornflakes" st in
  let st :=
    Serial_println "-----------------------------------------------" st in
  let bodBits := Z.land efuse 0x7 in
  let st := Serial_print "efuse BOD " st in
  let st :=
    Serial_println
      (if bodBits =? 0x07 then "OFF"
       else if bodBits =? 0x04 then "4.3V"
       else if bodBits =? 0x05 then "2.7V" else "1.8V") st in
  set_lastPINB pinb st.

(* ------------------------------------------------------------------ *)
(** ** Notions used by the properties *)

(** The number of sub cycles of the active timing mode. *)
Definition ORIG_CYCLES (pinb : Z) : Z :=
  if nonzero (Z.land pinb 0x04) then ORIG_CYCLES_A else ORIG_CYCLES_B.

(** Whether the frame driven at tick counter [t] has the bit of [row] set. *)
Definition lampLit (pinb : Z) (st : State) (t row : Z) : bool :=
  Z.testbit (snd (lampFrame pinb (set_ttag t st))) row.

(** The tick counter at which column [col] is driven in sub cycle [k] of
    window [w]. *)
Definition windowTick (pinb col w k : Z) : Z :=
  NUM_COL * (ORIG_CYCLES pinb * w + k) + col.

(** In how many sub cycles of window [w] lamp (col,row) is driven on. *)
Definition onCount (pinb : Z) (st : State) (col row w : Z) : Z :=
  Z.of_nat
    (length
       (List.filter (fun k => lampLit pinb st (windowTick pinb col w k) row)
                    (seqZ 0 (ORIG_CYCLES pinb)))).

(** A counter driven by [n] updates in one direction. *)
Definition updateMx_n (n : nat) (on : bool) (step : Z) (mx : Z) : Z :=
  Nat.iter n (fun v => updateMx v on step) mx.

(** Column [col] updated [n] times with the same row mask. *)
Definition updateCol_n (n : nat) (steps : list Z) (col rowMask : Z)
    (mx : list Z) : list Z :=
  Nat.iter n (updateCol steps col rowMask) mx.

(** [ceil(a / b)] for positive [b]. *)
Definition ceil_div (a b : Z) : Z := (a + b - 1) / b.

(** The 8-bit masks with exactly one bit set. *)
Definition one_hot (m : Z) : Prop := exists k, 0 <= k < 8 /\ m = 2 ^ k.

(** The sample a tick works on, as a function of the state it starts in:
    the tick counter is incremented before the test mode reads it. *)
Definition tick_inData (pinb sampled : Z) (st : State) : Z :=
  inDataOf pinb sampled (set_ttag (u32 (sTtag st + 1)) st).

Definition tick_colMask (pinb sampled : Z) (st : State) : Z :=
  inColMaskOf (tick_inData pinb sampled st).

Definition tick_rowMask (pinb sampled : Z) (st : State) : Z :=
  inRowMaskOf (tick_inData pinb sampled st).

(** The value of [validInput] when the handler tests it. *)
Definition validInputOf (inColMask inRowMask : Z) (st : State) : bool :=
  snd (decodeCol inColMask) && fst (updateValid inColMask inRowMask st).

(** The reading of the debounce property that promises acceptance: in
    every run from power-up, a sample carried by two consecutive ticks is
    handed to the integrator by some tick. *)
Definition always_eventually_accepted : Prop :=
  forall (inp : nat -> Z * Z) (n : nat),
    sampleAt inp (boot []) n = sampleAt inp (boot []) (S n) ->
    exists n' : nat,
      tick_update (tickAt inp (boot []) n') <> None /\
      sampleAt inp (boot []) n' = sampleAt inp (boot []) n.

(** The active configuration, the tables derived from it and the stored
    copy are the same in two states. *)
Definition same_config (st st' : State) : Prop :=
  sCfg st' = sCfg st /\ sGlowSteps st' = sGlowSteps st /\
  sMaxSubcycle st' = sMaxSubcycle st /\ eeprom st' = eeprom st.

(** The bytes a call of [receiveCfg] will see: those waiting in the receive
    buffer, then those arriving round by round. *)
Definition rxStream (arrivals : list (list Z)) (st : State) : list Z :=
  serialIn st ++ concat arrivals.

(** The decision [driveLampMatrix] takes for one lamp in sub cycle
    [colCycle]: counter nonzero, and the sub cycle it reaches, limited to
    the lamp's maximum, not below [colCycle]. *)
Definition lampOn (pinb colCycle v maxSub : Z) : bool :=
  nonzero v &&
  ((if subCycleOf pinb v >? maxSub then maxSub else subCycleOf pinb v)
   >=? colCycle).

(** An input stream on which one column stays selected: all jumpers open,
    column mask 0x01 throughout; two ticks with all rows off, then row 0 on
    for ever.  (Row bits are sampled active low.) *)
Definition stuck_column (n : nat) : Z * Z :=
  (0x0f, if (n <? 2)%nat then 0x01ff else 0x01fe).

(** The state [setup] leaves on a blank EEPROM with all jumpers open: all
    counters 0, default configuration. *)
Definition blank_boot : State :=
  setup 0x0f 0x07 (boot (replicate 1024 0xff)).

(** The on-count the PWM property states: [min(V / (65536/N), M) + 1],
    clamped to [0, N]. *)
Definition statedOnCount (V M N : Z) : Z :=
  Z.max 0 (Z.min N (Z.min (V / (65536 / N)) M + 1)).

(* ------------------------------------------------------------------ *)
(** ** The two shift register buses

    [PORTD] carries both buses: IN_CLK on bit 3, IN_LOAD on bit 4, OUT_DATA
    on bit 5, OUT_CLK on bit 6, OUT_LOAD on bit 7; IN_DATA is read on bit 2
    of [PIND]; the output enable is bit 1 of [PORTC]. *)

(** The clock loop of [sampleInput]: [n] passes left, [i] the loop
    counter, [pind i] what [PIND] reads in pass [i].  Returns [data] and
    [PORTD]. *)
Fixpoint sampleInput_bits (n : nat) (i : Z) (pind : Z -> Z)
    (data portd : Z) : Z * Z :=
  match n with
  | O => (data, portd)
  | S n' =>
      let data := u16 (Z.shiftl data 1) in
      let portd := Z.land portd 0xf7 in
      let data := Z.lor data (Z.shiftr (Z.land (pind i) 0x04) 2) in
      let portd := Z.lor portd 0x08 in
      sampleInput_bits n' (i + 1) pind data portd
  end.

(** [sampleInput()]: the word returned and the value left in [PORTD]. *)
Definition sampleInput (pind : Z -> Z) (portd : Z) : Z * Z :=
  let portd := Z.land portd 0xe7 in
  let data := 0 in
  let data := u16 (data + 17) in
  let data := u16 (data - 3) in
  let portd := Z.lor portd 0x10 in
  sampleInput_bits 16 0 pind data portd.

(** The clock loop of [dataOutput]: the values it writes to [PORTD], in
    order; [bitMask] runs through 0x8000, 0x4000, ..., 0x0001. *)
Fixpoint dataOutput_bits (n : nat) (bitMask data portd : Z) : list Z :=
  match n with
  | O => []
  | S n' =>
      let p1 := Z.land portd 0xbf in
      let p2 :=
        if nonzero (Z.land data bitMask)
        then Z.lor p1 0x20 else Z.land p1 0xdf in
      let p3 := Z.lor p2 0x40 in
      p1 :: p2 :: p3 :: dataOutput_bits n' (Z.shiftr bitMask 1) data p3
  end.

(** [dataOutput(colData, rowData)]: every value written to [PORTD], in
    order, and the value left in [PORTC]. *)
Definition dataOutput (colData rowData portd portc : Z) : list Z * Z :=
  let p0 := Z.land portd 0x3f in
  let data := u16 (Z.lor (Z.shiftl rowData 8) colData) in
  let writes := p0 :: dataOutput_bits 16 0x8000 data p0 in
  let p1 := Z.land (List.last writes p0) 0xbf in
  let p2 := Z.lor p1 0x80 in
  (writes ++ [p1; p2], Z.land portc 0xfd).

(** A 16-bit register taking one bit in at the low end. *)
Definition shift_in (acc : Z) (b : bool) : Z :=
  Z.lor (u16 (Z.shiftl acc 1)) (Z.b2z b).

(** The output register chain as the board wires it: a 16-bit shift
    register that takes OUT_DATA in on a rising edge of OUT_CLK, and a
    storage register that copies it on a rising edge of OUT_LOAD. *)
Record HC595 : Type := mkHC595 {
  hc_shift : Z;
  hc_latch : Z;
  hc_portd : Z
}.

Definition hc595_step (h : HC595) (p : Z) : HC595 :=
  let shift :=
    if negb (Z.testbit (hc_portd h) 6) && Z.testbit p 6
    then shift_in (hc_shift h) (Z.testbit p 5) else hc_shift h in
  let latch :=
    if negb (Z.testbit (hc_portd h) 7) && Z.testbit p 7
    then shift else hc_latch h in
  mkHC595 shift latch p.

Definition hc595_run (h : HC595) (writes : list Z) : HC595 :=
  fold_left hc595_step writes h.

(** The five low lines of [PORTD] (serial port, IN_DATA, IN_CLK, IN_LOAD)
    have the same levels in [q] as in [portd]. *)
Definition low_lines (portd q : Z) : Prop :=
  forall k, 0 <= k < 5 -> Z.testbit q k = Z.testbit portd k.

(** The lamp matrix has its 64 counters, each a 16-bit value, and no glow
    step is negative. *)
Definition counters_ok (st : State) : Prop :=
  length (sMatrixState st) = 64%nat /\
  forall j, 0 <= j < 64 ->
    0 <= rd (sMatrixState st) j <= 65535 /\ 0 <= rd (sGlowSteps st) j.

(** What the validator's statics satisfy in every state the handler
    reaches: the counter of consistent samples is 0 or 1, and it is 0
    whenever the last sampled column is not the last accepted one. *)
Definition validator_inv (st : State) : Prop :=
  (sConsistentSamples st = 0 \/ sConsistentSamples st = 1) /\
  (sLastColMask st <> sLastUpdColMask st -> sConsistentSamples st = 0).

(** The handler leaves everything alone that belongs to the background
    loop. *)
Definition same_background (st st' : State) : Prop :=
  same_config st st' /\ serialOut st' = serialOut st /\
  serialIn st' = serialIn st /\ sLastPINB st' = sLastPINB st.
(** One step of the checksum register without data: shift left by one in
    32 bits and fold the polynomial in when a one is shifted out.  Every
    round of [crc_bits] is this step after the data bit was added to the
    top bit. *)
Definition crc_shift (x : Z) : Z :=
  let y := u32 (Z.shiftl x 1) in
  if Z.testbit x 31 then Z.lxor y 0x04c11db7 else y.

(** A list of byte values. *)
Definition bytes (l : list Z) : Prop := Forall (fun b => 0 <= b < 256) l.

(** A 32-bit value as the four bytes the AVR stores it in. *)
Definition le32 (v : Z) : list Z :=
  [u8 v; u8 (Z.shiftr v 8); u8 (Z.shiftr v 16); u8 (Z.shiftr v 24)].

(* ------------------------------------------------------------------ *)
(** ** Timer, watchdog and output enable *)

(** Bit numbers of the ATmega328P timer registers and the watchdog timeout
    code, as the AVR headers define them. *)
Definition WGM12 : Z := 3.
Definition CS10 : Z := 0.
Definition OCIE1A : Z := 1.
Definition WDTO_15MS : Z := 0.

(** The registers [timerSetup], [start] and [stop] write; [watchdog] is
    [None] while the watchdog is disabled. *)
Record Hw : Type := mkHw {
  TCCR1A : Z;
  TCCR1B : Z;
  OCR1A : Z;
  TIMSK1 : Z;
  watchdog : option Z;
  PORTC : Z
}.

(** [timerSetup()]. *)
Definition timerSetup (pinb : Z) (hw : Hw) : Hw :=
  let tccr1b := 0 in
  let tccr1b := Z.lor tccr1b (Z.shiftl 1 WGM12) in
  let tccr1b := Z.lor tccr1b (Z.shiftl 1 CS10) in
  let tccr1a := 0 in
  let ocr1a :=
    if nonzero (Z.land pinb 0x04) then TTAG_INT_A * 16 else TTAG_INT_B * 16 in
  mkHw tccr1a tccr1b ocr1a (Z.lor (TIMSK1 hw) (Z.shiftl 1 OCIE1A))
       (watchdog hw) (PORTC hw).

(** [start()]. *)
Definition start (hw : Hw) : Hw :=
  mkHw (TCCR1A hw) (TCCR1B hw) (OCR1A hw)
       (Z.lor (TIMSK1 hw) (Z.shiftl 1 OCIE1A)) (Some WDTO_15MS) (PORTC hw).

(** [stop()]. *)
Definition stop (hw : Hw) : Hw :=
  mkHw (TCCR1A hw) (TCCR1B hw) (OCR1A hw)
       (u8 (Z.land (TIMSK1 hw) (Z.lnot (Z.shiftl 1 OCIE1A)))) None
       (Z.lor (PORTC hw) 0x02).

(* ------------------------------------------------------------------ *)
(** ** Background loop *)

Definition AG_CMD_TERMINATOR : Z := 58.
Definition AG_CMD_VERSION_POLL : string := "AGV".
Definition AG_CMD_CFG_POLL : string := "AGCP".
Definition AG_CMD_CFG_SAVE : string := "AGCS".
Definition AG_CMD_CFG_DEFAULT : string := "AGCD".

(** The characters of a string literal as byte values, and back. *)
Fixpoint bytes_of_string (s : string) : list Z :=
  match s with
  | EmptyString => []
  | String a s' => Z.of_N (Ascii.N_of_ascii a) :: bytes_of_string s'
  end.

Fixpoint string_of_bytes (l : list Z) : string :=
  match l with
  | [] => EmptyString
  | b :: l' => String (Ascii.ascii_of_N (Z.to_N b)) (string_of_bytes l')
  end.

(** What [strcmp] sees of the buffer of an Arduino [String]: the characters
    before the first zero byte. *)
Fixpoint c_str (s : list Z) : list Z :=
  match s with
  | [] => []
  | c :: s' => if c =? 0 then [] else c :: c_str s'
  end.

(** [cmd == literal] for the [String] [cmd]: the AVR core compares with
    [strcmp]. *)
Definition String_equals (s : list Z) (lit : string) : bool :=
  bool_decide (c_str s = bytes_of_string lit).

(** [sendCfg()]: the 136 bytes of [sCfg] in one [Serial.write]. *)
Definition sendCfg (st : State) : State :=
  Serial_print
    (string_of_bytes ((fun i => rd (sCfg st) i) <$> seqZ 0 CFG_SIZE)) st.

(** The statics of [loop()] together with the rest of the state.  [cmd]
    holds the characters appended so far; [String::concat] is taken to
    find the memory it asks for. *)
Record Board : Type := mkBoard {
  b_st : State;
  b_hw : Hw;
  loopCounter : Z;
  cmd : list Z;
  complete : bool
}.

(** The read loop of [loop()]: the receive buffer, [cmd] and [complete]
    when it ends. *)
Fixpoint loop_read (rx : list Z) (cmd : list Z) (complete : bool)
    : list Z * list Z * bool :=
  match rx with
  | [] => (rx, cmd, complete)
  | character :: rx' =>
      if complete then (rx, cmd, complete)
      else if negb (character =? AG_CMD_TERMINATOR)
           then loop_read rx' (cmd ++ [character]) complete
           else loop_read rx' cmd true
  end.

(** The check for a change of the timing jumper at the end of [loop()]. *)
Definition loop_timing (pinb : Z) (st : State) (hw : Hw) : State * Hw :=
  if negb (Z.land pinb 0x04 =? Z.land (sLastPINB st) 0x04)
  then (set_lastPINB pinb (set_ttag 0 st), timerSetup pinb hw)
  else (st, hw).

(** How a call of [loop()] ends: it returned, or it is still inside
    [receiveCfg]. *)
Inductive LoopOutcome : Type :=
| LoopReturned (b : Board)
| LoopWaiting (b : Board).

(** [loop()], with [DEBUG_SERIAL] 0 as in the sketch.  [pinb] is the
    jumper port during the call; [rounds] and [arrivals] are those of
    [receiveCfg]. *)
Definition loop (rounds : nat) (pinb : Z) (arrivals : list (list Z))
    (b : Board) : LoopOutcome :=
  let counter := u32 (loopCounter b + 1) in
  let '(rx, cmd, complete) :=
    loop_read (serialIn (b_st b)) (cmd b) (complete b) in
  let st := set_serialIn rx (b_st b) in
  let hw := b_hw b in
  let finish (st : State) (hw : Hw) (cmd : list Z) (complete : bool) :=
    let '(st, hw) := loop_timing pinb st hw in
    LoopReturned (mkBoard st hw counter cmd complete) in
  if complete then
    if String_equals cmd AG_CMD_VERSION_POLL then
      let st := Serial_print AG_CMD_VERSION_POLL st in
      let st := Serial_print " " st in
      let st := Serial_print "108" st in
      let st := Serial_print " " st in
      let st := Serial_println "1" st in
      finish st hw [] false
    else if String_equals cmd AG_CMD_CFG_POLL then
      finish (sendCfg st) hw [] false
    else if String_equals cmd AG_CMD_CFG_DEFAULT then
      finish (defaultCfg st) hw [] false
    else if String_equals cmd AG_CMD_CFG_SAVE then
      let hw := stop hw in
      match receiveCfg rounds pinb arrivals st with
      | Waiting st => LoopWaiting (mkBoard st hw counter cmd complete)
      | Returned st => finish st (start hw) [] false
      end
    else finish st hw [] false
  else finish st hw cmd complete.

(** Bytes reaching the receive buffer between two calls of [loop()]. *)
Definition arrive (rx : list Z) (b : Board) : Board :=
  mkBoard (set_serialIn (serialIn (b_st b) ++ rx) (b_st b))
          (b_hw b) (loopCounter b) (cmd b) (complete b).

(** A board between two commands: nothing buffered, no command begun. *)
Definition idle (b : Board) : Prop :=
  serialIn (b_st b) = [] /\ cmd b = [] /\ complete b = false.

(** The state with everything replaced that only the background loop
    writes: record, EEPROM, serial port, remembered jumper port. *)
Definition set_background (cfg ee : list Z) (out : list string)
    (rx : list Z) (lastPINB : Z) (st : State) : State :=
  mkState (sMatrixState st) (sTtag st) (sLastColMask st) (sLastRowMask st)
    (sConsistentSamples st) (sLastUpdColMask st)
    (sLastPassThroughColMask st) (sLastPassThroughRowMask st)
    cfg (sGlowSteps st) (sMaxSubcycle st) lastPINB ee out rx.

(** [st'] differs from [st] in the serial buffers only. *)
Definition only_serial (st st' : State) : Prop :=
  st' = set_background (sCfg st) (eeprom st) (serialOut st') (serialIn st')
          (sLastPINB st) st.


(* ================================================================== *)
(** * Properties *)

(** Case analysis on an index known to lie in 0..7. *)
Ltac index_cases k :=
  let H := fresh "Hcases" in
  assert (H : k = 0 \/ k = 1 \/ k = 2 \/ k = 3 \/
              k = 4 \/ k = 5 \/ k = 6 \/ k = 7) by lia;
  destruct H as [-> | [-> | [-> | [-> | [-> | [-> | [-> | ->]]]]]]].

(** Decide the interval tests of a goal and close the arithmetic cases. *)
Ltac split_bounds :=
  repeat match goal with
         | |- context [?a <=? ?b] => destruct (Z.leb_spec a b)
         | |- context [?a <? ?b] => destruct (Z.ltb_spec a b)
         end;
  simpl; try reflexivity; try lia.

(* ------------------------------------------------------------------ *)
(** ** A single brightness counter *)

Lemma u16_small x : 0 <= x < 65536 -> u16 x = x.
Proof. intros H. unfold u16. apply Z.mod_small. exact H. Qed.

(** On 16-bit counters [updateMx] is saturating addition ... *)
Lemma updateMx_on mx step :
  0 <= mx <= 65535 -> 0 <= step ->
  updateMx mx true step = Z.min (mx + step) 65535.
Proof.
  intros Hmx Hs. unfold updateMx.
  destruct (Z.ltb_spec mx (65535 - step)).
  - rewrite u16_small by lia. lia.
  - lia.
Qed.

(** ... and saturating subtraction. *)
Lemma updateMx_off mx step :
  0 <= mx <= 65535 -> 0 <= step ->
  updateMx mx false step = Z.max (mx - step) 0.
Proof.
  intros Hmx Hs. unfold updateMx.
  destruct (Z.gtb_spec mx step).
  - rewrite u16_small by lia. lia.
  - lia.
Qed.

Lemma updateMx_range mx on step :
  0 <= mx <= 65535 -> 0 <= step -> 0 <= updateMx mx on step <= 65535.
Proof.
  intros Hmx Hs. destruct on.
  - rewrite updateMx_on by assumption. lia.
  - rewrite updateMx_off by assumption. lia.
Qed.

Lemma updateMx_n_S n on step mx :
  updateMx_n (S n) on step mx = updateMx (updateMx_n n on step mx) on step.
Proof. reflexivity. Qed.

(** [n] rising updates from 0 reach [n * step], capped at 65535. *)
Lemma updateMx_n_rise n step :
  0 <= step ->
  updateMx_n n true step 0 = Z.min (Z.of_nat n * step) 65535.
Proof.
  intros Hs. induction n as [|n IH].
  - reflexivity.
  - rewrite updateMx_n_S, IH, updateMx_on by lia. nia.
Qed.

(** [n] falling updates from 65535 reach [65535 - n * step], floored at 0. *)
Lemma updateMx_n_fall n step :
  0 <= step ->
  updateMx_n n false step 65535 = Z.max (65535 - Z.of_nat n * step) 0.
Proof.
  intros Hs. induction n as [|n IH].
  - reflexivity.
  - rewrite updateMx_n_S, IH, updateMx_off by lia. nia.
Qed.

Lemma ceil_div_reaches a b : 0 < b -> 0 <= a -> a <= ceil_div a b * b.
Proof.
  intros Hb Ha. unfold ceil_div.
  pose proof (Z.div_mod (a + b - 1) b ltac:(lia)) as Hdm.
  pose proof (Z.mod_pos_bound (a + b - 1) b Hb) as Hmod.
  nia.
Qed.

Lemma ceil_div_nonneg a b : 0 < b -> 0 <= a -> 0 <= ceil_div a b.
Proof. intros Hb Ha. unfold ceil_div. apply Z.div_pos; lia. Qed.

(** C4.  For every step [S >= 1]: from 0, [ceil(65535/S)] rising updates
    bring a counter to 65535 and any further rising updates keep it there;
    from 65535, as many falling updates bring it to 0 and further ones keep
    it there; and whatever the sequence of on/off updates, every update is a
    saturating step inside [0, 65535] that never wraps. *)
Theorem C4_counter_saturates (S : Z) :
  1 <= S ->
  let n := Z.to_nat (ceil_div 65535 S) in
  (forall m : nat, updateMx_n (n + m) true S 0 = 65535) /\
  (forall m : nat, updateMx_n (n + m) false S 65535 = 0) /\
  (forall (ups : list bool) (v : Z), 0 <= v <= 65535 ->
     0 <= fold_left (fun v on => updateMx v on S) ups v <= 65535) /\
  (forall v : Z, 0 <= v <= 65535 ->
     updateMx v true S = Z.min (v + S) 65535 /\
     updateMx v false S = Z.max (v - S) 0).
Proof.
  intros HS n.
  assert (Hn : 65535 <= Z.of_nat n * S).
  { unfold n. rewrite Z2Nat.id by (apply ceil_div_nonneg; lia).
    apply ceil_div_reaches; lia. }
  split; [| split; [| split]].
  - intros m. rewrite updateMx_n_rise by lia. nia.
  - intros m. rewrite updateMx_n_fall by lia. nia.
  - intros ups. induction ups as [|on ups IH]; intros v Hv; simpl.
    + exact Hv.
    + apply IH. apply updateMx_range; lia.
  - intros v Hv. split; [apply updateMx_on | apply updateMx_off]; lia.
Qed.

Lemma C4_counter_saturates_witness :
  1 <= 655 /\
  updateMx_n (Z.to_nat (ceil_div 65535 655) + 3) true 655 0 = 65535.
Proof.
  split; [lia |].
  exact (proj1 (C4_counter_saturates 655 ltac:(lia)) 3%nat).
Defined.

(* ------------------------------------------------------------------ *)
(** ** A column of counters *)

Lemma nonzero_land_1 x : nonzero (Z.land x 1) = Z.testbit x 0.
Proof.
  unfold nonzero. change 1 with (Z.ones 1). rewrite Z.land_ones by lia.
  change (2 ^ 1) with 2. rewrite <- Z.bit0_mod.
  destruct (Z.testbit x 0); reflexivity.
Qed.

Lemma rd_wr_eq a i v :
  0 <= i -> (Z.to_nat i < length a)%nat -> rd (wr a i v) i = v.
Proof.
  intros Hi Hlen. unfold rd, wr. apply list_lookup_total_insert_eq. exact Hlen.
Qed.

Lemma rd_wr_ne a i j v : 0 <= i -> 0 <= j -> i <> j -> rd (wr a i v) j = rd a j.
Proof.
  intros Hi Hj Hne. unfold rd, wr. apply list_lookup_total_insert_ne. lia.
Qed.

Lemma length_wr a i v : length (wr a i v) = length a.
Proof. unfold wr. apply length_insert. Qed.

Lemma length_updateCol_rows n base r steps rowMask mx :
  length (updateCol_rows n base r steps rowMask mx) = length mx.
Proof.
  revert r rowMask mx. induction n as [|n IH]; intros r rowMask mx; simpl.
  - reflexivity.
  - rewrite IH. apply length_wr.
Qed.

(** What the row loop leaves in cell [j]: the cells [base + r], ...,
    [base + r + n - 1] get one update each, steered by consecutive bits of
    [rowMask]; all other cells keep their value. *)
Lemma updateCol_rows_cell n base r steps rowMask mx j :
  0 <= base -> 0 <= r -> 0 <= j ->
  (Z.to_nat (base + r) + n <= length mx)%nat ->
  rd (updateCol_rows n base r steps rowMask mx) j =
    if (base + r <=? j) && (j <? base + r + Z.of_nat n)
    then updateMx (rd mx j) (Z.testbit rowMask (j - (base + r))) (rd steps j)
    else rd mx j.
Proof.
  intros Hb. revert r rowMask mx.
  induction n as [|n IH]; intros r rowMask mx Hr Hj Hlen.
  - simpl. split_bounds.
  - cbn [updateCol_rows]. rewrite IH; [| lia | lia | rewrite length_wr; lia].
    rewrite nonzero_land_1.
    destruct (Z.eq_dec j (base + r)) as [->|Hne].
    + rewrite rd_wr_eq by lia.
      replace (base + r - (base + r)) with 0 by lia.
      destruct (Z.leb_spec (base + (r + 1)) (base + r)); [lia |].
      destruct (Z.leb_spec (base + r) (base + r)); [| lia].
      destruct (Z.ltb_spec (base + r) (base + r + Z.of_nat (S n))); [| lia].
      reflexivity.
    + rewrite rd_wr_ne by lia.
      destruct (Z.leb_spec (base + (r + 1)) j),
               (Z.ltb_spec j (base + (r + 1) + Z.of_nat n)),
               (Z.leb_spec (base + r) j),
               (Z.ltb_spec j (base + r + Z.of_nat (S n))); simpl; try reflexivity; try lia.
      rewrite Z.shiftr_spec by lia. do 2 f_equal. lia.
Qed.

Lemma length_updateCol steps col rowMask mx :
  length (updateCol steps col rowMask mx) = length mx.
Proof.
  unfold updateCol. destruct (col >=? NUM_COL); [reflexivity |].
  apply length_updateCol_rows.
Qed.

(** [updateCol] applies [updateMx] to each lamp of the column, with the
    lamp's row bit and glow step ... *)
Lemma updateCol_lamp steps col rowMask mx row :
  length mx = 64%nat -> 0 <= col < 8 -> 0 <= row < 8 ->
  rd (updateCol steps col rowMask mx) (lamp col row) =
    updateMx (rd mx (lamp col row)) (Z.testbit rowMask row)
             (rd steps (lamp col row)).
Proof.
  intros Hlen Hc Hr. unfold updateCol, lamp, NUM_COL, NUM_ROW.
  destruct (Z.geb_spec col 8); [lia |].
  rewrite updateCol_rows_cell by (simpl; lia).
  change (Z.of_nat (Z.to_nat 8)) with 8.
  destruct (Z.leb_spec (col * 8 + 0 + 0) (col * 8 + row)); [| lia].
  destruct (Z.ltb_spec (col * 8 + row) (col * 8 + 0 + 0 + 8)); [| lia].
  simpl. do 2 f_equal. lia.
Qed.

(** ... and leaves the lamps of the other columns alone. *)
Lemma updateCol_other steps col rowMask mx col' row :
  length mx = 64%nat -> 0 <= col -> 0 <= col' -> 0 <= row < 8 -> col' <> col ->
  rd (updateCol steps col rowMask mx) (lamp col' row) = rd mx (lamp col' row).
Proof.
  intros Hlen Hc Hc' Hr Hne. unfold updateCol, lamp, NUM_COL, NUM_ROW.
  destruct (Z.geb_spec col 8); [reflexivity |].
  rewrite updateCol_rows_cell by (simpl; lia).
  change (Z.of_nat (Z.to_nat 8)) with 8.
  split_bounds.
Qed.

Lemma length_updateCol_n n steps col rowMask mx :
  length (updateCol_n n steps col rowMask mx) = length mx.
Proof.
  induction n as [|n IH]; [reflexivity |].
  unfold updateCol_n in *. simpl. rewrite length_updateCol. exact IH.
Qed.

(** Repeating the column update repeats the counter update of each lamp. *)
Lemma updateCol_n_lamp n steps col rowMask mx row :
  length mx = 64%nat -> 0 <= col < 8 -> 0 <= row < 8 ->
  rd (updateCol_n n steps col rowMask mx) (lamp col row) =
    updateMx_n n (Z.testbit rowMask row) (rd steps (lamp col row))
               (rd mx (lamp col row)).
Proof.
  intros Hlen Hc Hr. induction n as [|n IH]; [reflexivity |].
  rewrite updateMx_n_S, <- IH.
  change (updateCol_n (S n) steps col rowMask mx)
    with (updateCol steps col rowMask (updateCol_n n steps col rowMask mx)).
  apply updateCol_lamp; [| assumption | assumption].
  rewrite length_updateCol_n. exact Hlen.
Qed.

(** C9.  A lamp whose counter is already saturated in the direction of its
    row bit (65535 with the bit set, 0 with the bit clear) keeps its counter
    when the integrator update for the same column and row mask is applied
    again: the second application changes nothing, as the first did not. *)
Theorem C9_saturated_lamp_unchanged
    (steps : list Z) (col rowMask : Z) (mx : list Z) (row : Z) :
  length mx = 64%nat -> 0 <= col < 8 -> 0 <= row < 8 ->
  0 <= rd steps (lamp col row) ->
  (rd mx (lamp col row) = 65535 /\ Z.testbit rowMask row = true) \/
  (rd mx (lamp col row) = 0 /\ Z.testbit rowMask row = false) ->
  let once := updateCol steps col rowMask mx in
  let twice := updateCol steps col rowMask once in
  rd twice (lamp col row) = rd once (lamp col row) /\
  rd once (lamp col row) = rd mx (lamp col row).
Proof.
  intros Hlen Hc Hr Hs Hsat once twice.
  assert (Honce : rd once (lamp col row) = rd mx (lamp col row)).
  { unfold once. rewrite updateCol_lamp by assumption.
    destruct Hsat as [[-> ->] | [-> ->]].
    - rewrite updateMx_on by lia. lia.
    - rewrite updateMx_off by lia. lia. }
  split; [| exact Honce].
  unfold twice. rewrite updateCol_lamp; try assumption.
  - rewrite Honce.
    destruct Hsat as [[-> ->] | [-> ->]].
    + rewrite updateMx_on by lia. lia.
    + rewrite updateMx_off by lia. lia.
  - unfold once. rewrite length_updateCol. exact Hlen.
Qed.

Lemma C9_saturated_lamp_unchanged_witness :
  let steps := replicate 64 7488 in
  let mx := wr (replicate 64 0) (lamp 2 5) 65535 in
  rd (updateCol steps 2 0x20 (updateCol steps 2 0x20 mx)) (lamp 2 5)
  = rd (updateCol steps 2 0x20 mx) (lamp 2 5).
Proof.
  intros steps mx.
  refine (proj1 (C9_saturated_lamp_unchanged steps 2 0x20 mx 5 _ _ _ _ _)).
  - reflexivity.
  - lia.
  - lia.
  - vm_compute. discriminate.
  - left. split; reflexivity.
Defined.

(** C2 as stated fails: with step 655 a counter that starts at 0 stands at
    65500 after 100 accepted 'on' updates, not at 65535. *)
Lemma C2_hundred_updates_fall_short :
  updateMx_n 100 true 655 0 <> 65535 /\
  rd (updateCol_n 100 (replicate 64 655) 0 0x01 (replicate 64 0)) (lamp 0 0)
  <> 65535.
Proof. split; vm_compute; discriminate. Qed.

(** C2, amended.  With glow step 655 = 65535/100 for a lamp whose counter is
    0, 100 consecutive accepted updates of its column with the lamp's row
    bit set bring the counter to 65500 (one more update saturates it at
    65535), and 100 further updates with the row bit clear bring it from
    65500 back to exactly 0. *)
Theorem C2_rise_and_fall
    (steps : list Z) (col row rowOn rowOff : Z) (mx : list Z) :
  length mx = 64%nat -> 0 <= col < 8 -> 0 <= row < 8 ->
  rd steps (lamp col row) = 655 ->
  rd mx (lamp col row) = 0 ->
  Z.testbit rowOn row = true -> Z.testbit rowOff row = false ->
  let up := updateCol_n 100 steps col rowOn mx in
  rd up (lamp col row) = 65500 /\
  rd (updateCol steps col rowOn up) (lamp col row) = 65535 /\
  rd (updateCol_n 100 steps col rowOff up) (lamp col row) = 0.
Proof.
  intros Hlen Hc Hr Hstep Hzero Hon Hoff up.
  assert (Hup : rd up (lamp col row) = 65500).
  { unfold up. rewrite updateCol_n_lamp, Hstep, Hzero, Hon by assumption.
    reflexivity. }
  assert (Hlen' : length up = 64%nat).
  { unfold up. rewrite length_updateCol_n. exact Hlen. }
  split; [exact Hup |]. split.
  - rewrite updateCol_lamp, Hup, Hstep, Hon by assumption. reflexivity.
  - rewrite updateCol_n_lamp, Hup, Hstep, Hoff by assumption. reflexivity.
Qed.

Lemma C2_rise_and_fall_witness :
  let steps := replicate 64 655 in
  let mx := replicate 64 0 in
  let up := updateCol_n 100 steps 3 0xff mx in
  rd up (lamp 3 4) = 65500 /\
  rd (updateCol steps 3 0xff up) (lamp 3 4) = 65535 /\
  rd (updateCol_n 100 steps 3 0x00 up) (lamp 3 4) = 0.
Proof.
  intros steps mx.
  apply (C2_rise_and_fall steps 3 4 0xff 0x00 mx); try reflexivity; lia.
Defined.

(* ------------------------------------------------------------------ *)
(** ** One run of the interrupt handler *)

(** What a tick leaves behind, in terms of the state it started in. *)
Lemma ISR_spec pinb sampled st :
  let c := tick_colMask pinb sampled st in
  let r := tick_rowMask pinb sampled st in
  let ok := validInputOf c r st in
  let t := ISR pinb sampled st in
  sLastColMask (tick_state t) = c /\
  sLastRowMask (tick_state t) = r /\
  tick_update t = (if ok then Some (fst (decodeCol c), r) else None) /\
  sMatrixState (tick_state t) =
    (if ok
     then updateCol (sGlowSteps st) (fst (decodeCol c)) r (sMatrixState st)
     else sMatrixState st) /\
  sLastUpdColMask (tick_state t) = sLastUpdColMask (snd (updateValid c r st)) /\
  sConsistentSamples (tick_state t)
  = sConsistentSamples (snd (updateValid c r st)) /\
  sGlowSteps (tick_state t) = sGlowSteps st /\
  sMaxSubcycle (tick_state t) = sMaxSubcycle st.
Proof.
  intros c r ok t. unfold t, ISR.
  set (st0 := set_ttag (u32 (sTtag st + 1)) st).
  assert (Hdrive : exists frames st1,
    (if Z.land pinb 8 =? 0 then driveLampMatrixPassThrough st0
     else (driveLampMatrix pinb st0, st0)) = (frames, st1) /\
    sTtag st1 = sTtag st0 /\ sMatrixState st1 = sMatrixState st /\
    sLastColMask st1 = sLastColMask st /\ sLastRowMask st1 = sLastRowMask st /\
    sConsistentSamples st1 = sConsistentSamples st /\
    sLastUpdColMask st1 = sLastUpdColMask st /\
    sGlowSteps st1 = sGlowSteps st /\ sMaxSubcycle st1 = sMaxSubcycle st).
  { destruct (Z.land pinb 8 =? 0).
    - unfold driveLampMatrixPassThrough.
      destruct (negb _ || negb _); eexists _, _; (split; [reflexivity |]);
        repeat split.
    - eexists _, _. split; [reflexivity |]. repeat split. }
  destruct Hdrive
    as (frames & st1 & -> & Ht & Hm & Hc & Hr & Hcs & Hu & Hg & Hms).
  assert (Hin : inDataOf pinb sampled st1 = tick_inData pinb sampled st).
  { unfold tick_inData, inDataOf, testModeInput. rewrite Ht. reflexivity. }
  rewrite Hin. fold (tick_colMask pinb sampled st) (tick_rowMask pinb sampled st).
  fold c r.
  assert (Hfst : fst (updateValid c r st1) = fst (updateValid c r st)).
  { unfold updateValid. rewrite Hc, Hr, Hcs, Hu.
    repeat match goal with
           | |- context [if ?b then _ else _] => destruct b
           end; reflexivity. }
  assert (Hsnd :
    sLastUpdColMask (snd (updateValid c r st1))
    = sLastUpdColMask (snd (updateValid c r st)) /\
    sConsistentSamples (snd (updateValid c r st1))
    = sConsistentSamples (snd (updateValid c r st)) /\
    sMatrixState (snd (updateValid c r st1)) = sMatrixState st /\
    sGlowSteps (snd (updateValid c r st1)) = sGlowSteps st /\
    sMaxSubcycle (snd (updateValid c r st1)) = sMaxSubcycle st).
  { unfold updateValid. rewrite Hc, Hr, Hcs, Hu.
    repeat match goal with
           | |- context [if ?b then _ else _] => destruct b
           end; simpl; auto. }
  destruct Hsnd as (Hu2 & Hcs2 & Hm2 & Hg2 & Hms2).
  unfold ok, validInputOf. rewrite <- Hfst.
  destruct (decodeCol c) as [inCol v].
  destruct (updateValid c r st1) as [valid st2]. simpl in *.
  destruct (v && valid); simpl; rewrite ?Hg2, ?Hm2; auto 10.
Qed.

Lemma decodeCol_one_hot k : 0 <= k < 8 -> decodeCol (2 ^ k) = (k, true).
Proof.
  intros Hk. index_cases k; reflexivity.
Qed.

Lemma decodeCol_not_one_hot m : ~ one_hot m -> decodeCol m = (NUM_COL, false).
Proof.
  intros Hno.
  assert (Hpow : forall k, 0 <= k < 8 -> m <> 2 ^ k).
  { intros k Hk ->. apply Hno. exists k. split; [exact Hk | reflexivity]. }
  pose proof (Hpow 0 ltac:(lia)). pose proof (Hpow 1 ltac:(lia)).
  pose proof (Hpow 2 ltac:(lia)). pose proof (Hpow 3 ltac:(lia)).
  pose proof (Hpow 4 ltac:(lia)). pose proof (Hpow 5 ltac:(lia)).
  pose proof (Hpow 6 ltac:(lia)). pose proof (Hpow 7 ltac:(lia)).
  clear Hpow Hno. unfold decodeCol.
  destruct m as [|p|p]; try reflexivity.
  do 8 (destruct p as [p|p|]; try reflexivity; try (exfalso; lia)).
Qed.

(** C5.  A column mask with exactly bit [k] set (k in 0..7) decodes to
    column index [k] and the decode leaves the sample valid; every other
    mask (0x00, two or more bits set, anything else) decodes to no column,
    the decode marks the sample invalid, and the tick that sampled it hands
    nothing to the integrator. *)
Theorem C5_column_decode (m : Z) :
  (forall k, 0 <= k < 8 -> m = 2 ^ k -> decodeCol m = (k, true)) /\
  (~ one_hot m -> decodeCol m = (NUM_COL, false)) /\
  (forall pinb sampled st,
     tick_colMask pinb sampled st = m -> ~ one_hot m ->
     tick_update (ISR pinb sampled st) = None).
Proof.
  split; [| split].
  - intros k Hk ->. apply decodeCol_one_hot. exact Hk.
  - apply decodeCol_not_one_hot.
  - intros pinb sampled st Hm Hno.
    destruct (ISR_spec pinb sampled st) as (_ & _ & Hupd & _).
    rewrite Hupd. unfold validInputOf. rewrite Hm.
    rewrite (decodeCol_not_one_hot m Hno). reflexivity.
Qed.

Lemma C5_column_decode_witness :
  decodeCol 0x20 = (5, true) /\
  tick_update (ISR 0x0f 0x03ff (boot [])) = None.
Proof.
  assert (Hno : ~ one_hot 3).
  { intros (k & Hk & Heq). index_cases k; discriminate. }
  split.
  - apply (proj1 (C5_column_decode 0x20) 5); [lia | reflexivity].
  - apply (proj2 (proj2 (C5_column_decode 3)) 0x0f 0x03ff (boot []));
      [reflexivity | exact Hno].
Defined.

(** C6.  A tick whose frame is judged invalid, because the column mask does
    not decode or because [updateValid] rejects the sample, leaves the whole
    lamp matrix as it was and calls no integrator update; and the matrix
    changes in a tick only through the one [updateCol] call made under
    [validInput]. *)
Theorem C6_invalid_tick_keeps_matrix (pinb sampled : Z) (st : State) :
  let c := tick_colMask pinb sampled st in
  let r := tick_rowMask pinb sampled st in
  let t := ISR pinb sampled st in
  (snd (decodeCol c) = false \/ fst (updateValid c r st) = false ->
   sMatrixState (tick_state t) = sMatrixState st /\ tick_update t = None) /\
  (tick_update t = None -> sMatrixState (tick_state t) = sMatrixState st) /\
  (forall col rowMask, tick_update t = Some (col, rowMask) ->
     validInputOf c r st = true /\
     sMatrixState (tick_state t)
     = updateCol (sGlowSteps st) col rowMask (sMatrixState st)).
Proof.
  intros c r t.
  destruct (ISR_spec pinb sampled st) as (_ & _ & Hupd & Hmx & _).
  fold c r t in Hupd, Hmx.
  split; [| split].
  - intros Hbad.
    assert (Hok : validInputOf c r st = false).
    { unfold validInputOf. destruct Hbad as [-> | ->].
      - reflexivity.
      - apply andb_false_r. }
    rewrite Hupd, Hmx, Hok. split; reflexivity.
  - intros Hnone. rewrite Hmx. rewrite Hupd in Hnone.
    destruct (validInputOf c r st); [discriminate | reflexivity].
  - intros col rowMask Hsome. rewrite Hmx. rewrite Hupd in Hsome.
    destruct (validInputOf c r st); [| discriminate].
    injection Hsome as <- <-. split; reflexivity.
Qed.

Lemma C6_invalid_tick_keeps_matrix_witness :
  let st := set_matrix (replicate 64 1000) (boot []) in
  sMatrixState (tick_state (ISR 0x0f 0x00fe st)) = sMatrixState st.
Proof.
  intros st.
  refine (proj1 (proj1 (C6_invalid_tick_keeps_matrix 0x0f 0x00fe st) _)).
  left. reflexivity.
Defined.

(* ------------------------------------------------------------------ *)
(** ** Debouncing *)

(** A sample that differs from the one of the tick before is rejected. *)
Lemma updateValid_changed c r st :
  (c, r) <> (sLastColMask st, sLastRowMask st) ->
  fst (updateValid c r st) = false.
Proof.
  intros Hne. unfold updateValid.
  destruct (c =? sLastUpdColMask st); [reflexivity |]. simpl.
  destruct (Z.eqb_spec c (sLastColMask st)) as [Hc|Hc];
    destruct (Z.eqb_spec r (sLastRowMask st)) as [Hr|Hr];
    simpl; try reflexivity.
  exfalso. apply Hne. rewrite Hc, Hr. reflexivity.
Qed.

(** A repeated sample whose column has not been handled yet is accepted
    when the counter stands at 0. *)
Lemma updateValid_repeated c r st :
  c <> sLastUpdColMask st ->
  c = sLastColMask st -> r = sLastRowMask st ->
  sConsistentSamples st = 0 ->
  fst (updateValid c r st) = true.
Proof.
  intros Hupd Hc Hr Hcons. unfold updateValid.
  destruct (Z.eqb_spec c (sLastUpdColMask st)); [contradiction |]. simpl.
  rewrite <- Hc, <- Hr, !Z.eqb_refl, Hcons. reflexivity.
Qed.

(** When a fresh column is rejected, the counter is left at 0 and the last
    accepted column is kept. *)
Lemma updateValid_rejected c r st :
  c <> sLastUpdColMask st ->
  fst (updateValid c r st) = false ->
  sConsistentSamples (snd (updateValid c r st)) = 0 /\
  sLastUpdColMask (snd (updateValid c r st)) = sLastUpdColMask st.
Proof.
  intros Hupd. unfold updateValid, SINGLE_UPDATE_CONS, u8.
  destruct (Z.eqb_spec c (sLastUpdColMask st)); [contradiction |]. simpl.
  destruct (negb (c =? sLastColMask st) || negb (r =? sLastRowMask st)).
  - simpl. intros _. split; reflexivity.
  - destruct (Z.ltb_spec (sConsistentSamples st) 255).
    + pose proof (Z.mod_pos_bound (sConsistentSamples st + 1) 256 ltac:(lia)).
      destruct (Z.geb_spec ((sConsistentSamples st + 1) mod 256) (2 - 1));
        simpl; intros Hf; [discriminate |].
      split; [lia | reflexivity].
    + destruct (Z.geb_spec (sConsistentSamples st) (2 - 1));
        simpl; intros Hf; [discriminate | lia].
Qed.

(** A tick whose sample differs from the last one stored hands nothing to
    the integrator. *)
Lemma ISR_changed_sample pinb sampled st :
  (tick_colMask pinb sampled st, tick_rowMask pinb sampled st)
  <> (sLastColMask st, sLastRowMask st) ->
  tick_update (ISR pinb sampled st) = None.
Proof.
  intros Hne. destruct (ISR_spec pinb sampled st) as (_ & _ & Hupd & _).
  rewrite Hupd. unfold validInputOf.
  rewrite updateValid_changed by exact Hne.
  rewrite andb_false_r. reflexivity.
Qed.

Lemma run_S inp st n :
  run inp st (S n) = tick_state (tickAt inp st n).
Proof. reflexivity. Qed.

Lemma sampleAt_masks inp st n :
  sampleAt inp st n =
    (tick_colMask (fst (inp n)) (snd (inp n)) (run inp st n),
     tick_rowMask (fst (inp n)) (snd (inp n)) (run inp st n)).
Proof.
  unfold sampleAt, tickAt.
  destruct (ISR_spec (fst (inp n)) (snd (inp n)) (run inp st n))
    as (Hc & Hr & _).
  rewrite Hc, Hr. reflexivity.
Qed.

Lemma sampleAt_last inp st n :
  sampleAt inp st n =
    (sLastColMask (run inp st (S n)), sLastRowMask (run inp st (S n))).
Proof. reflexivity. Qed.

Lemma stuck_column_handled n :
  sLastUpdColMask (run stuck_column (boot []) (2 + n)) = 1.
Proof.
  induction n as [|n IH].
  - reflexivity.
  - replace (2 + S n)%nat with (S (2 + n)) by lia.
    rewrite run_S. unfold tickAt.
    destruct (ISR_spec (fst (stuck_column (2 + n))) (snd (stuck_column (2 + n)))
                (run stuck_column (boot []) (2 + n))) as (_ & _ & _ & _ & Hu & _).
    rewrite Hu. change (stuck_column (2 + n)) with (0x0f, 0x01fe).
    cbn [fst snd].
    change (tick_colMask 15 510 (run stuck_column (boot []) (2 + n))) with 1.
    unfold updateValid. rewrite IH.
    change (negb (1 =? 1)) with false. cbn [snd]. exact IH.
Qed.

Lemma stuck_column_rejected n :
  tick_update (tickAt stuck_column (boot []) (2 + n)) = None.
Proof.
  unfold tickAt.
  destruct (ISR_spec (fst (stuck_column (2 + n))) (snd (stuck_column (2 + n)))
              (run stuck_column (boot []) (2 + n))) as (_ & _ & Hupd & _).
  rewrite Hupd. change (stuck_column (2 + n)) with (0x0f, 0x01fe).
  cbn [fst snd].
  change (tick_colMask 15 510 (run stuck_column (boot []) (2 + n))) with 1.
  unfold validInputOf, updateValid. rewrite stuck_column_handled.
  change (negb (1 =? 1)) with false. reflexivity.
Qed.

(** C3 as stated fails in its second half: on [stuck_column] the sample
    (column 0x01, row 0 on) is carried by every tick from the third on, and
    no tick ever hands it to the integrator, because column 0x01 was
    accepted at the second tick and has been the last accepted column
    since. *)
Lemma C3_repeated_sample_never_accepted : ~ always_eventually_accepted.
Proof.
  intros Hclaim.
  destruct (Hclaim stuck_column 2%nat) as (n' & Hacc & Hsame).
  - reflexivity.
  - destruct n' as [|[|n']].
    + apply Hacc. reflexivity.
    + revert Hsame. vm_compute. discriminate.
    + apply Hacc. exact (stuck_column_rejected n').
Qed.

(** C3, amended.  Over any run of the handler, from any state: (a) a tick
    whose sample differs from the sample of the tick before hands nothing
    to the integrator, so a single-tick glitch never reaches it; (b) when
    two consecutive ticks carry the same sample, its column mask is one-hot
    with bit [k] set, and that mask differs from the value of
    [sLastUpdColMask] when the first of the two ticks starts, then one of
    these two ticks hands column [k] with that row mask to the integrator;
    (c) a tick whose sample has the column mask held in [sLastUpdColMask]
    when the tick starts hands nothing to the integrator.
    [sLastUpdColMask] is the column mask [updateValid] let through last.
    That is the column integrated last only as long as the masks are
    one-hot: [updateValid] also stores a repeated mask that is not
    one-hot, which the column decode then rejects, and after such a mask
    the same column is accepted again ([column_accepted_again]). *)
Theorem C3_debounce (inp : nat -> Z * Z) (st0 : State) (n : nat) :
  (sampleAt inp st0 (S n) <> sampleAt inp st0 n ->
   tick_update (tickAt inp st0 (S n)) = None) /\
  (forall c r k,
     sampleAt inp st0 n = (c, r) -> sampleAt inp st0 (S n) = (c, r) ->
     0 <= k < 8 -> c = 2 ^ k ->
     c <> sLastUpdColMask (run inp st0 n) ->
     tick_update (tickAt inp st0 n) = Some (k, r) \/
     tick_update (tickAt inp st0 (S n)) = Some (k, r)) /\
  (forall c r,
     sampleAt inp st0 n = (c, r) -> c = sLastUpdColMask (run inp st0 n) ->
     tick_update (tickAt inp st0 n) = None).
Proof.
  split; [| split].
  - intros Hne. unfold tickAt. apply ISR_changed_sample.
    rewrite <- sampleAt_masks, <- sampleAt_last. exact Hne.
  - intros c r k Hs1 Hs2 Hk Hc Hfresh.
    pose proof Hs1 as Hm1. rewrite sampleAt_masks in Hm1.
    pose proof Hs2 as Hm2. rewrite sampleAt_masks in Hm2.
    pose proof (f_equal fst Hm1) as Hc1. pose proof (f_equal snd Hm1) as Hr1.
    pose proof (f_equal fst Hm2) as Hc2. pose proof (f_equal snd Hm2) as Hr2.
    cbn [fst snd] in Hc1, Hr1, Hc2, Hr2. clear Hm1 Hm2.
    unfold tickAt.
    destruct (ISR_spec (fst (inp n)) (snd (inp n)) (run inp st0 n))
      as (_ & _ & Hupd1 & _ & Hu1 & Hcs1 & _).
    destruct (ISR_spec (fst (inp (S n))) (snd (inp (S n))) (run inp st0 (S n)))
      as (_ & _ & Hupd2 & _).
    rewrite Hupd1, Hupd2, Hc1, Hr1, Hc2, Hr2.
    rewrite Hc1, Hr1 in Hu1, Hcs1.
    unfold validInputOf. rewrite Hc, decodeCol_one_hot by exact Hk.
    rewrite <- Hc. cbn [fst snd andb].
    destruct (fst (updateValid c r (run inp st0 n))) eqn:Hv1;
      [left; reflexivity | right].
    destruct (updateValid_rejected c r (run inp st0 n) Hfresh Hv1)
      as (Hzero & Hkeep).
    rewrite sampleAt_last in Hs1.
    pose proof (f_equal fst Hs1) as Hlc. pose proof (f_equal snd Hs1) as Hlr.
    cbn [fst snd] in Hlc, Hlr.
    rewrite updateValid_repeated; [reflexivity | | | |].
    + rewrite run_S. unfold tickAt. rewrite Hu1, Hkeep. exact Hfresh.
    + symmetry. exact Hlc.
    + symmetry. exact Hlr.
    + rewrite run_S. unfold tickAt. rewrite Hcs1. exact Hzero.
  - intros c r Hs Hc. rewrite sampleAt_masks in Hs.
    pose proof (f_equal fst Hs) as Hc1. pose proof (f_equal snd Hs) as Hr1.
    cbn [fst snd] in Hc1, Hr1.
    unfold tickAt.
    destruct (ISR_spec (fst (inp n)) (snd (inp n)) (run inp st0 n))
      as (_ & _ & Hupd & _).
    rewrite Hupd, Hc1, Hr1. unfold validInputOf, updateValid.
    rewrite <- Hc, Z.eqb_refl. cbn [negb fst]. rewrite andb_false_r.
    reflexivity.
Qed.

Lemma C3_debounce_witness :
  let inp := fun n : nat =>
    (0x0f, if (n <? 1)%nat then 0x02ff else 0x04fe) in
  tick_update (tickAt inp (boot []) 1) = None /\
  (tick_update (tickAt inp (boot []) 1) = Some (2, 1) \/
   tick_update (tickAt inp (boot []) 2) = Some (2, 1)).
Proof.
  intros inp. split.
  - apply (proj1 (C3_debounce inp (boot []) 0)). vm_compute. discriminate.
  - apply (proj1 (proj2 (C3_debounce inp (boot []) 1)) 4 1 2);
      [reflexivity | reflexivity | lia | reflexivity |].
    vm_compute. discriminate.
Defined.

(** [sLastUpdColMask] is not the column integrated last.  On the column
    masks 04, 04, 00, 00, 04, 04 column 2 is handed to the integrator at
    the second tick; the repeated mask 00 is let through by [updateValid]
    and stored, though the decode rejects it and nothing is integrated;
    column 2 is then handed to the integrator again at the sixth tick. *)
Lemma column_accepted_again :
  let inp := fun n : nat =>
    (0x0f, if ((2 <=? n) && (n <? 4))%nat then 0x00ff else 0x04fe) in
  tick_update (tickAt inp (boot []) 1) = Some (2, 1) /\
  tick_update (tickAt inp (boot []) 2) = None /\
  tick_update (tickAt inp (boot []) 3) = None /\
  sLastUpdColMask (run inp (boot []) 4) = 0 /\
  tick_update (tickAt inp (boot []) 4) = None /\
  tick_update (tickAt inp (boot []) 5) = Some (2, 1).
Proof. vm_compute. repeat split. Qed.

(* ------------------------------------------------------------------ *)
(** ** Pulse width modulation *)

Lemma testbit_above_byte x j : 0 <= x < 256 -> 8 <= j -> Z.testbit x j = false.
Proof.
  intros Hx Hj. rewrite <- (Z.mod_small x (2 ^ 8)) by (change (2 ^ 8) with 256; lia).
  apply Z.mod_pow2_bits_high. lia.
Qed.

(** One pass of the row loop: the byte moves down by one bit and the lamp's
    decision enters at bit 7. *)
Lemma row_step_bits (b : bool) acc j :
  0 <= acc < 256 -> 0 <= j < 8 ->
  Z.testbit (if b then u8 (Z.lor (Z.shiftr acc 1) 0x80) else Z.shiftr acc 1) j
  = if j =? 7 then b else Z.testbit acc (j + 1).
Proof.
  intros Hacc Hj.
  assert (Htop : Z.testbit acc 8 = false) by (apply testbit_above_byte; lia).
  destruct b.
  - unfold u8. change 256 with (2 ^ 8).
    rewrite Z.mod_pow2_bits_low, Z.lor_spec, Z.shiftr_spec by lia.
    destruct (Z.eqb_spec j 7) as [-> | Hne].
    + apply orb_true_r.
    + replace (Z.testbit 128 j) with false; [apply orb_false_r |].
      index_cases j; try reflexivity. congruence.
  - rewrite Z.shiftr_spec by lia.
    destruct (Z.eqb_spec j 7) as [-> | Hne]; [exact Htop | reflexivity].
Qed.

Lemma row_step_range (b : bool) acc :
  0 <= acc < 256 ->
  0 <= (if b then u8 (Z.lor (Z.shiftr acc 1) 0x80) else Z.shiftr acc 1) < 256.
Proof.
  intros Hacc. destruct b.
  - unfold u8. apply Z.mod_pos_bound. lia.
  - rewrite Z.shiftr_div_pow2 by lia. change (2 ^ 1) with 2.
    split; [apply Z.div_pos; lia | apply Z.div_lt_upper_bound; lia].
Qed.

(** The row loop written with [lampOn]. *)
Lemma driveLampMatrix_rows_S n base r pinb colCycle mx maxSub rowData :
  driveLampMatrix_rows (S n) base r pinb colCycle mx maxSub rowData =
  driveLampMatrix_rows n base (r + 1) pinb colCycle mx maxSub
    (if lampOn pinb colCycle (rd mx (base + r)) (rd maxSub (base + r))
     then u8 (Z.lor (Z.shiftr rowData 1) 0x80) else Z.shiftr rowData 1).
Proof.
  cbn [driveLampMatrix_rows]. unfold lampOn. f_equal.
  destruct (nonzero (rd mx (base + r))); [| reflexivity].
  cbn [andb].
  destruct (subCycleOf pinb (rd mx (base + r)) >? rd maxSub (base + r));
    reflexivity.
Qed.

(** After [n] passes the top [n] bits of the byte hold the decisions of the
    lamps [base + r], ..., [base + r + n - 1], lowest lamp lowest. *)
Lemma driveLampMatrix_rows_bits n base r pinb colCycle mx maxSub rowData j :
  (n <= 8)%nat -> 0 <= rowData < 256 -> 0 <= j < 8 ->
  Z.testbit (driveLampMatrix_rows n base r pinb colCycle mx maxSub rowData) j
  = if 8 - Z.of_nat n <=? j
    then lampOn pinb colCycle
           (rd mx (base + r + (j - (8 - Z.of_nat n))))
           (rd maxSub (base + r + (j - (8 - Z.of_nat n))))
    else Z.testbit rowData (j + Z.of_nat n).
Proof.
  revert r rowData. induction n as [|n IH]; intros r rowData Hn Hacc Hj.
  - cbn [driveLampMatrix_rows].
    destruct (Z.leb_spec (8 - Z.of_nat 0) j); [lia |].
    f_equal. lia.
  - rewrite driveLampMatrix_rows_S.
    rewrite IH; [| lia | apply row_step_range; exact Hacc | exact Hj].
    destruct (Z.leb_spec (8 - Z.of_nat n) j),
             (Z.leb_spec (8 - Z.of_nat (S n)) j); try lia.
    + f_equal; f_equal; lia.
    + rewrite row_step_bits by lia.
      destruct (Z.eqb_spec (j + Z.of_nat n) 7); [| lia].
      f_equal; f_equal; lia.
    + rewrite row_step_bits by lia.
      destruct (Z.eqb_spec (j + Z.of_nat n) 7); [lia |].
      f_equal. lia.
Qed.

Lemma ORIG_CYCLES_cases pinb :
  (ORIG_CYCLES pinb = 8 /\ subCycleOf pinb = fun v => u16 (v / 8192)) \/
  (ORIG_CYCLES pinb = 4 /\ subCycleOf pinb = fun v => u16 (v / 16384)).
Proof.
  unfold ORIG_CYCLES, subCycleOf.
  destruct (nonzero (Z.land pinb 4)); [left | right]; split; reflexivity.
Qed.

(** How many of the sub cycles 0, ..., [n-1] are not above [s]. *)
Lemma count_sub_cycles (n : nat) s :
  0 <= s ->
  Z.of_nat (length (List.filter (fun k => s >=? k) (seqZ 0 (Z.of_nat n))))
  = Z.min (s + 1) (Z.of_nat n).
Proof.
  intros Hs. induction n as [|n IH].
  - simpl. lia.
  - rewrite Nat2Z.inj_succ, <- Z.add_1_r, seqZ_app by lia.
    rewrite List.filter_app, length_app, Nat2Z.inj_add, IH.
    change (seqZ (0 + Z.of_nat n) 1) with [0 + Z.of_nat n].
    cbn [List.filter].
    destruct (Z.geb_spec s (0 + Z.of_nat n)); cbn [length]; lia.
Qed.

Lemma filter_none {A} (l : list A) :
  List.filter (fun _ => false) l = [].
Proof. induction l as [|a l IH]; [reflexivity | exact IH]. Qed.

Section Window.
(** One lamp, watched over the window [w] of its column. *)
Variables (pinb : Z) (st : State) (col row w : Z).
Hypothesis Hcol : 0 <= col < 8.
Hypothesis Hrow : 0 <= row < 8.

(** Bit [row] of the frame driven at tick counter [t] is the decision for
    the lamp of that row in column [t mod 8], in sub cycle
    [(t / 8) mod N]. *)
Lemma lampLit_lampOn t :
  lampLit pinb st t row =
    lampOn pinb (colCycleOf pinb (set_ttag t st))
      (rd (sMatrixState st) (lamp (t mod NUM_COL) row))
      (rd (sMaxSubcycle st) (lamp (t mod NUM_COL) row)).
Proof.
  unfold lampLit, lampFrame. cbn [snd].
  change (Z.to_nat NUM_ROW) with 8%nat.
  rewrite driveLampMatrix_rows_bits by lia.
  change (8 - Z.of_nat 8) with 0.
  destruct (Z.leb_spec 0 row); [| lia].
  unfold outColOf, lamp. cbn [sTtag set_ttag sMatrixState sMaxSubcycle].
  f_equal; f_equal; lia.
Qed.

(** Column and sub cycle at the ticks of the window. *)
Lemma windowTick_column k : windowTick pinb col w k mod NUM_COL = col.
Proof.
  unfold windowTick, NUM_COL.
  rewrite Z.add_comm, Z.mul_comm, Z.mod_add by lia.
  apply Z.mod_small. exact Hcol.
Qed.

Lemma windowTick_colCycle k :
  0 <= k < ORIG_CYCLES pinb ->
  colCycleOf pinb (set_ttag (windowTick pinb col w k) st) = k.
Proof.
  intros Hk.
  assert (Hdiv :
    windowTick pinb col w k / NUM_COL = ORIG_CYCLES pinb * w + k).
  { unfold windowTick, NUM_COL.
    rewrite Z.add_comm, Z.mul_comm, Z.div_add by lia.
    rewrite Z.div_small by lia. lia. }
  unfold colCycleOf. cbn [sTtag set_ttag]. rewrite Hdiv.
  unfold ORIG_CYCLES in *.
  destruct (nonzero (Z.land pinb 4));
    rewrite Z.add_comm, Z.mul_comm, Z.mod_add by discriminate;
    apply Z.mod_small; exact Hk.
Qed.

(** The on-count of the lamp over the window, from its counter and its
    maximum sub cycle. *)
Lemma onCount_lampOn :
  onCount pinb st col row w =
    Z.of_nat
      (length
         (List.filter
            (fun k => lampOn pinb k (rd (sMatrixState st) (lamp col row))
                                    (rd (sMaxSubcycle st) (lamp col row)))
            (seqZ 0 (ORIG_CYCLES pinb)))).
Proof.
  unfold onCount. do 2 f_equal.
  apply List.filter_ext_in. intros k Hin.
  apply list_elem_of_In, elem_of_seqZ in Hin.
  rewrite lampLit_lampOn, windowTick_column.
  rewrite windowTick_colCycle by lia. reflexivity.
Qed.
End Window.

(** C1 as stated fails for a lamp that is off: with counter 0 the driver
    never turns the lamp on, while the stated count is 1.  (In [blank_boot]
    all counters are 0 and all maxima 7.) *)
Lemma C1_dark_lamp_never_on :
  rd (sMatrixState blank_boot) (lamp 0 0) = 0 /\
  rd (sMaxSubcycle blank_boot) (lamp 0 0) = 7 /\
  onCount 0x0f blank_boot 0 0 0 = 0 /\
  statedOnCount 0 7 (ORIG_CYCLES 0x0f) = 1 /\
  onCount 0x0f blank_boot 0 0 0
  <> statedOnCount (rd (sMatrixState blank_boot) (lamp 0 0))
                   (rd (sMaxSubcycle blank_boot) (lamp 0 0))
                   (ORIG_CYCLES 0x0f).
Proof. repeat split; vm_compute; discriminate. Qed.

(** C1, amended.  In afterglow mode, over one full window of [N] sub cycles
    of a column, a lamp with nonzero brightness counter [V] (1..65535) and
    maximum sub cycle [M] is driven on in exactly
    [min(V / (65536/N), M) + 1] of the [N] sub cycles, a number in [1, N];
    a lamp whose counter is 0 is driven on in none of them. *)
Theorem C1_pwm_on_count (pinb : Z) (st : State) (col row w : Z) :
  0 <= col < 8 -> 0 <= row < 8 ->
  let V := rd (sMatrixState st) (lamp col row) in
  let M := rd (sMaxSubcycle st) (lamp col row) in
  let N := ORIG_CYCLES pinb in
  0 <= V <= 65535 -> 0 <= M ->
  (V = 0 -> onCount pinb st col row w = 0) /\
  (V <> 0 ->
   onCount pinb st col row w = Z.min (V / (65536 / N)) M + 1 /\
   onCount pinb st col row w = statedOnCount V M N /\
   1 <= onCount pinb st col row w <= N).
Proof.
  intros Hcol Hrow V M N HV HM.
  rewrite (onCount_lampOn pinb st col row w Hcol Hrow). fold V M N.
  split.
  - intros HV0. rewrite HV0. unfold lampOn.
    change (nonzero 0) with false. cbn [andb].
    rewrite filter_none. reflexivity.
  - intros HVnz. unfold lampOn.
    assert (Hnz : nonzero V = true).
    { unfold nonzero. destruct (Z.eqb_spec V 0); [contradiction | reflexivity]. }
    rewrite Hnz. cbn [andb].
    assert (Hsub : exists d, 65536 / N = d /\ N * d = 65536 /\ 0 < d /\
                             0 < N /\ N = Z.of_nat (Z.to_nat N) /\
                             subCycleOf pinb V = V / d).
    { unfold N. destruct (ORIG_CYCLES_cases pinb) as [[-> ->] | [-> ->]];
        [exists 8192 | exists 16384];
        (split; [reflexivity |]); repeat split; try lia;
        apply u16_small;
        (split; [apply Z.div_pos; lia | apply Z.div_lt_upper_bound; lia]). }
    destruct Hsub as (d & Hd & HNd & Hdpos & HNpos & HNnat & Hsc).
    rewrite Hsc, Hd.
    assert (Hq : 0 <= V / d < N).
    { split; [apply Z.div_pos; lia | apply Z.div_lt_upper_bound; lia]. }
    assert (Hmin :
      (if V / d >? M then M else V / d) = Z.min (V / d) M).
    { destruct (Z.gtb_spec (V / d) M); lia. }
    rewrite Hmin, HNnat, count_sub_cycles by lia. rewrite <- HNnat.
    unfold statedOnCount. rewrite Hd. lia.
Qed.

Lemma C1_pwm_on_count_witness :
  let st :=
    set_matrix (wr (replicate 64 0) (lamp 2 3) 30000)
               (setup 0x0f 0x07 (boot (replicate 1024 0xff))) in
  onCount 0x0f st 2 3 5 = Z.min (30000 / (65536 / 8)) 7 + 1.
Proof.
  intros st.
  refine (proj1 (proj2 (C1_pwm_on_count 0x0f st 2 3 5 _ _ _ _) _)).
  - lia.
  - lia.
  - vm_compute. split; discriminate.
  - vm_compute. discriminate.
  - vm_compute. discriminate.
Defined.

(* ------------------------------------------------------------------ *)
(** ** Derived tables *)

Lemma rd_fmap_seqZ (f : Z -> Z) n p :
  0 <= p < n -> rd (f <$> seqZ 0 n) p = f p.
Proof.
  intros Hp. unfold rd.
  rewrite (list_lookup_total_fmap f (seqZ 0 n) (Z.to_nat p))
    by (rewrite length_seqZ; lia).
  rewrite lookup_total_seqZ_lt by lia.
  f_equal. lia.
Qed.

Lemma applyCfg_glowStep pinb st p :
  0 <= p < 64 ->
  rd (sGlowSteps (applyCfg pinb st)) p
  = glowStepOf (cfg_lampGlowDur (sCfg st) p).
Proof.
  intros Hp. unfold applyCfg. cbn [sGlowSteps set_tables].
  apply (rd_fmap_seqZ (fun p => glowStepOf (cfg_lampGlowDur (sCfg st) p))).
  exact Hp.
Qed.

Lemma applyCfg_maxSubcycle pinb st p :
  0 <= p < 64 ->
  rd (sMaxSubcycle (applyCfg pinb st)) p
  = maxSubcycleOf pinb (cfg_lampBrightness (sCfg st) p).
Proof.
  intros Hp. unfold applyCfg. cbn [sMaxSubcycle set_tables].
  apply (rd_fmap_seqZ
           (fun p => maxSubcycleOf pinb (cfg_lampBrightness (sCfg st) p))).
  exact Hp.
Qed.

(** C10.  For a lamp whose glow duration code [d] is nonzero, [applyCfg]
    stores as glow step the 16-bit truncation of
    [(uint16_t)(65535 / ((d * 10 * 1000) / 2000)) * 8].  For [d = 1] the
    product is 104856, above 65535, and the stored step is 39320; for
    [d = 2] the stored step is 52424.  So the shorter glow duration 1 gets
    a smaller step, a slower fade, than the longer duration 2. *)
Theorem C10_glow_step_wraps (pinb : Z) (p : Z) :
  0 <= p < 64 ->
  (forall st d,
     1 <= d <= 255 -> cfg_lampGlowDur (sCfg st) p = d ->
     rd (sGlowSteps (applyCfg pinb st)) p
     = ((65535 / ((d * 10 * 1000) / 2000)) mod 65536 * 8) mod 65536) /\
  65535 < 65535 / ((1 * 10 * 1000) / 2000) * 8 /\
  (forall st1 st2,
     cfg_lampGlowDur (sCfg st1) p = 1 -> cfg_lampGlowDur (sCfg st2) p = 2 ->
     rd (sGlowSteps (applyCfg pinb st1)) p = 39320 /\
     rd (sGlowSteps (applyCfg pinb st2)) p = 52424 /\
     rd (sGlowSteps (applyCfg pinb st1)) p
     < rd (sGlowSteps (applyCfg pinb st2)) p).
Proof.
  intros Hp. split; [| split].
  - intros st d Hd Hcfg. rewrite applyCfg_glowStep, Hcfg by exact Hp.
    unfold glowStepOf, GLOWDUR_CFG_SCALE, ORIG_INT, NUM_COL, u16, u32.
    rewrite (Z.mod_small (d * 10)) by lia.
    rewrite (Z.mod_small (d * 10 * 1000)) by lia.
    destruct (Z.gtb_spec (d * 10) 0); [reflexivity | lia].
  - reflexivity.
  - intros st1 st2 H1 H2. rewrite !applyCfg_glowStep, H1, H2 by exact Hp.
    repeat split.
Qed.

Lemma C10_glow_step_wraps_witness :
  let st := set_cfg (wr (replicate 136 0) (CFG_OFF_GLOWDUR + 9) 3) (boot []) in
  rd (sGlowSteps (applyCfg 0x0f st)) 9
  = ((65535 / ((3 * 10 * 1000) / 2000)) mod 65536 * 8) mod 65536.
Proof.
  intros st.
  apply (proj1 (C10_glow_step_wraps 0x0f 9 ltac:(lia)) st 3);
    [lia | reflexivity].
Defined.

(* ------------------------------------------------------------------ *)
(** ** Configuration in the EEPROM *)

(** Two arrays of the same length with the same cells are equal. *)
Lemma list_eq_rd (a b : list Z) :
  length a = length b ->
  (forall j, 0 <= j < Z.of_nat (length a) -> rd a j = rd b j) ->
  a = b.
Proof.
  intros Hlen Hcells.
  apply (list_eq_same_length a b (length a)); [congruence | reflexivity |].
  intros i x y Hi Hx Hy.
  specialize (Hcells (Z.of_nat i) ltac:(lia)).
  unfold rd in Hcells. rewrite Nat2Z.id in Hcells.
  rewrite (list_lookup_total_correct a i x Hx) in Hcells.
  rewrite (list_lookup_total_correct b i y Hy) in Hcells.
  exact Hcells.
Qed.

Lemma length_saveCfg_loop n i cfg ee :
  length (saveCfg_loop n i cfg ee) = length ee.
Proof.
  revert i ee. induction n as [|n IH]; intros i ee; simpl.
  - reflexivity.
  - rewrite IH. apply length_wr.
Qed.

(** The write loop copies the cells [i], ..., [i + n - 1]. *)
Lemma saveCfg_loop_cell n i cfg ee j :
  0 <= i -> 0 <= j -> (Z.to_nat i + n <= length ee)%nat ->
  rd (saveCfg_loop n i cfg ee) j =
    if (i <=? j) && (j <? i + Z.of_nat n) then rd cfg j else rd ee j.
Proof.
  revert i ee. induction n as [|n IH]; intros i ee Hi Hj Hlen.
  - simpl. split_bounds.
  - cbn [saveCfg_loop]. rewrite IH; [| lia | lia | rewrite length_wr; lia].
    destruct (Z.eq_dec j i) as [-> | Hne].
    + rewrite rd_wr_eq by lia. split_bounds.
    + rewrite rd_wr_ne by lia. split_bounds.
Qed.

Lemma rd_take a n j :
  0 <= j < Z.of_nat n -> rd (take n a) j = rd a j.
Proof.
  intros Hj. unfold rd. rewrite !list_lookup_total_alt.
  rewrite lookup_take_lt by lia. reflexivity.
Qed.

(** After [saveCfgToEEPROM] the first 136 cells hold the record and the
    rest of the EEPROM is as before. *)
Lemma saveCfg_loop_image cfg ee :
  length cfg = 136%nat -> (136 <= length ee)%nat ->
  take 136 (saveCfg_loop 136 0 cfg ee) = cfg /\
  drop 136 (saveCfg_loop 136 0 cfg ee) = drop 136 ee.
Proof.
  intros Hcfg Hee. split.
  - apply list_eq_rd.
    + rewrite length_take, length_saveCfg_loop. lia.
    + rewrite length_take, length_saveCfg_loop. intros j Hj.
      rewrite rd_take by lia.
      rewrite saveCfg_loop_cell by (simpl; lia). split_bounds.
  - apply list_eq. intros i. rewrite !lookup_drop.
    assert (Hrd : rd (saveCfg_loop 136 0 cfg ee) (Z.of_nat (136 + i))
                  = rd ee (Z.of_nat (136 + i))).
    { rewrite saveCfg_loop_cell by (simpl; lia). split_bounds. }
    unfold rd in Hrd. rewrite Nat2Z.id, !list_lookup_total_alt in Hrd.
    destruct (decide (136 + i < length ee)%nat) as [Hin | Hout].
    + destruct (lookup_lt_is_Some_2 ee (136 + i) Hin) as [y Hy].
      destruct (lookup_lt_is_Some_2 (saveCfg_loop 136 0 cfg ee) (136 + i))
        as [x Hx]; [rewrite length_saveCfg_loop; exact Hin |].
      rewrite Hx, Hy in *. simpl in Hrd. congruence.
    + rewrite !lookup_ge_None_2; [reflexivity | lia |].
      rewrite length_saveCfg_loop. lia.
Qed.

(** Reading the record back gives the first 136 cells. *)
Lemma EEPROM_image_take ee :
  (136 <= length ee)%nat -> EEPROM_image ee = take 136 ee.
Proof.
  intros Hee. unfold EEPROM_image, CFG_SIZE. apply list_eq_rd.
  - rewrite length_fmap, length_seqZ, length_take. lia.
  - rewrite length_fmap, length_seqZ. intros j Hj.
    rewrite (rd_fmap_seqZ (fun i => rd ee i)) by lia.
    rewrite rd_take by lia. reflexivity.
Qed.

Lemma loadCfg_state st :
  snd (loadCfg st) = set_cfg (EEPROM_image (eeprom st)) st.
Proof.
  unfold loadCfg.
  destruct (cfg_version _ =? _); [| reflexivity].
  destruct (calculateCRC32 _ _ =? _); reflexivity.
Qed.

Lemma loadCfg_valid st :
  fst (fst (loadCfg st)) =
    (cfg_version (EEPROM_image (eeprom st)) =? AFTERGLOW_CFG_VERSION) &&
    (calculateCRC32 (EEPROM_image (eeprom st)) (CFG_SIZE - 4)
     =? cfg_crc (EEPROM_image (eeprom st))).
Proof.
  unfold loadCfg.
  destruct (cfg_version _ =? _); [| reflexivity].
  destruct (calculateCRC32 _ _ =? _); reflexivity.
Qed.

Lemma length_defaultCfgBytes : length defaultCfgBytes = 136%nat.
Proof. vm_compute. reflexivity. Qed.

(** The compiled-in default record: expected version, glow duration
    140 ms / 10 and brightness 7 for all 64 lamps, and its own checksum. *)
Lemma defaultCfgBytes_fields :
  cfg_version defaultCfgBytes = AFTERGLOW_CFG_VERSION /\
  (forall p, 0 <= p < 64 ->
     cfg_lampGlowDur defaultCfgBytes p = DEFAULT_GLOWDUR / GLOWDUR_CFG_SCALE /\
     cfg_lampBrightness defaultCfgBytes p = DEFAULT_BRIGHTNESS) /\
  cfg_crc defaultCfgBytes = calculateCRC32 defaultCfgBytes (CFG_SIZE - 4).
Proof.
  split; [vm_compute; reflexivity | split; [| vm_compute; reflexivity]].
  assert (Hall :
    forallb (fun p =>
               (cfg_lampGlowDur defaultCfgBytes p
                =? DEFAULT_GLOWDUR / GLOWDUR_CFG_SCALE) &&
               (cfg_lampBrightness defaultCfgBytes p =? DEFAULT_BRIGHTNESS))
            (seqZ 0 64) = true) by (vm_compute; reflexivity).
  intros p Hp.
  rewrite forallb_forall in Hall.
  specialize (Hall p). rewrite andb_true_iff, !Z.eqb_eq in Hall.
  apply Hall. apply list_elem_of_In, elem_of_seqZ. lia.
Qed.

(** What [setup] leaves when the stored record is rejected. *)
Lemma setup_fallback pinb efuse st :
  fst (fst (loadCfg (set_matrix (replicate 64 0) st))) = false ->
  sCfg (setup pinb efuse st) = defaultCfgBytes /\
  eeprom (setup pinb efuse st)
  = saveCfg_loop 136 0 defaultCfgBytes (eeprom st).
Proof.
  intros Hbad. unfold setup.
  change (Z.to_nat (NUM_COL * NUM_ROW)) with 64%nat.
  pose proof (loadCfg_state (set_matrix (replicate 64 0) st)) as Hst.
  destruct (loadCfg (set_matrix (replicate 64 0) st)) as [[cfgLoaded err] st1].
  cbn [fst snd] in Hbad, Hst. subst cfgLoaded st1. cbn [negb].
  split; reflexivity.
Qed.

(** C8.  At startup, when the record read from the EEPROM has a version
    other than the expected one or a checksum that does not match, the
    compiled-in default record (expected version, default glow duration and
    default maximum brightness for all 64 lamps, its own checksum) becomes
    the active configuration and is written to the EEPROM at once, so that
    loading it again succeeds. *)
Theorem C8_invalid_config_falls_back (pinb efuse : Z) (st : State) :
  (136 <= length (eeprom st))%nat ->
  cfg_version (EEPROM_image (eeprom st)) <> AFTERGLOW_CFG_VERSION \/
  calculateCRC32 (EEPROM_image (eeprom st)) (CFG_SIZE - 4)
  <> cfg_crc (EEPROM_image (eeprom st)) ->
  let st' := setup pinb efuse st in
  sCfg st' = defaultCfgBytes /\
  take 136 (eeprom st') = defaultCfgBytes /\
  drop 136 (eeprom st') = drop 136 (eeprom st) /\
  cfg_version defaultCfgBytes = AFTERGLOW_CFG_VERSION /\
  (forall p, 0 <= p < 64 ->
     cfg_lampGlowDur defaultCfgBytes p = DEFAULT_GLOWDUR / GLOWDUR_CFG_SCALE /\
     cfg_lampBrightness defaultCfgBytes p = DEFAULT_BRIGHTNESS) /\
  cfg_crc defaultCfgBytes = calculateCRC32 defaultCfgBytes (CFG_SIZE - 4) /\
  fst (fst (loadCfg st')) = true.
Proof.
  intros Hee Hbad st'.
  assert (Hload : fst (fst (loadCfg (set_matrix (replicate 64 0) st))) = false).
  { rewrite loadCfg_valid. cbn [eeprom set_matrix].
    destruct Hbad as [Hv | Hc].
    - apply Z.eqb_neq in Hv. rewrite Hv. reflexivity.
    - apply Z.eqb_neq in Hc. rewrite Hc. apply andb_false_r. }
  destruct (setup_fallback pinb efuse st Hload) as (Hcfg & Heeprom).
  destruct (saveCfg_loop_image defaultCfgBytes (eeprom st)
              length_defaultCfgBytes Hee) as (Htake & Hdrop).
  destruct defaultCfgBytes_fields as (Hver & Hlamps & Hcrc).
  fold st' in Hcfg, Heeprom.
  refine (conj Hcfg (conj _ (conj _ (conj Hver (conj Hlamps (conj Hcrc _)))))).
  - rewrite Heeprom. exact Htake.
  - rewrite Heeprom. exact Hdrop.
  - rewrite loadCfg_valid, EEPROM_image_take.
    + rewrite Heeprom, Htake, Hver, Hcrc, !Z.eqb_refl. reflexivity.
    + rewrite Heeprom, length_saveCfg_loop. exact Hee.
Qed.

Lemma C8_invalid_config_falls_back_witness :
  let st' := setup 0x0f 0x07 (boot (replicate 1024 0xff)) in
  sCfg st' = defaultCfgBytes /\ take 136 (eeprom st') = defaultCfgBytes.
Proof.
  intros st'.
  assert (Hbad :
    cfg_version (EEPROM_image (eeprom (boot (replicate 1024 0xff))))
    <> AFTERGLOW_CFG_VERSION \/
    calculateCRC32 (EEPROM_image (eeprom (boot (replicate 1024 0xff))))
      (CFG_SIZE - 4)
    <> cfg_crc (EEPROM_image (eeprom (boot (replicate 1024 0xff))))).
  { left. vm_compute. discriminate. }
  assert (Hlen : (136 <= length (eeprom (boot (replicate 1024 0xff%Z))))%nat).
  { vm_compute. lia. }
  destruct (C8_invalid_config_falls_back 0x0f 0x07
              (boot (replicate 1024 0xff)) Hlen Hbad) as (H1 & H2 & _).
  split; [exact H1 | exact H2].
Defined.

(* ------------------------------------------------------------------ *)
(** ** Receiving a configuration *)

Lemma same_config_refl st : same_config st st.
Proof. repeat split. Qed.

Lemma same_config_trans st1 st2 st3 :
  same_config st1 st2 -> same_config st2 st3 -> same_config st1 st3.
Proof.
  unfold same_config. intros (? & ? & ? & ?) (? & ? & ? & ?).
  repeat split; congruence.
Qed.

(** The read loop moves the first [k] waiting bytes into the buffer, [k]
    the least of the budget, the bytes waiting and the bytes still
    missing. *)
Lemma receiveCfg_read_spec budget cfg st :
  let k := (budget `min` (length (serialIn st) `min` (136 - length cfg)))%nat in
  fst (receiveCfg_read budget cfg st) = cfg ++ take k (serialIn st) /\
  serialIn (snd (receiveCfg_read budget cfg st)) = drop k (serialIn st) /\
  serialOut (snd (receiveCfg_read budget cfg st)) = serialOut st /\
  same_config st (snd (receiveCfg_read budget cfg st)).
Proof.
  revert cfg st. induction budget as [|budget IH]; intros cfg st k.
  - subst k. cbn [receiveCfg_read fst snd Nat.min take drop].
    rewrite app_nil_r. auto using same_config_refl.
  - cbn [receiveCfg_read].
    destruct (serialIn st) as [|b rx] eqn:Hrx.
    + subst k. rewrite Nat.min_0_l, Nat.min_0_r. cbn [fst snd take drop].
      rewrite app_nil_r. auto using same_config_refl.
    + unfold CFG_SIZE. destruct (Z.ltb_spec (Z.of_nat (length cfg)) 136).
      * specialize (IH (cfg ++ [b]) (set_serialIn rx st)).
        cbn [serialIn set_serialIn] in IH.
        destruct IH as (Hfst & Hin & Hout & Hsame).
        rewrite Hfst, Hin, Hout. rewrite length_app in *. cbn [length] in *.
        assert (Hk : k = S (budget `min`
                             (length rx `min` (136 - (length cfg + 1))))%nat)
          by (subst k; lia).
        rewrite Hk. cbn [take drop]. rewrite <- app_assoc.
        repeat split; try reflexivity; apply Hsame.
      * assert (Hk : k = 0%nat) by (subst k; lia).
        rewrite Hk. cbn [fst snd take drop]. rewrite app_nil_r, Hrx.
        auto using same_config_refl.
Qed.

(** One round of the receive loop, seen from outside: the stream of bytes
    is only re-split between buffer and port. *)
Lemma receiveCfg_round arrivals cfg st :
  let st1 := set_serialIn (serialIn (Serial_print AG_CMD_CFG_DATA_READY st)
                           ++ hd [] arrivals)
                          (Serial_print AG_CMD_CFG_DATA_READY st) in
  let res := receiveCfg_read (Z.to_nat AG_CMD_WRITE_BUF) cfg st1 in
  let k := (32 `min` (length (serialIn st ++ hd [] arrivals)
                      `min` (136 - length cfg)))%nat in
  fst res ++ rxStream (tl arrivals) (snd res) = cfg ++ rxStream arrivals st /\
  length (fst res) = (length cfg + k)%nat /\
  serialOut (snd res) = serialOut st ++ [AG_CMD_CFG_DATA_READY] /\
  same_config st (snd res).
Proof.
  intros st1 res k.
  destruct (receiveCfg_read_spec (Z.to_nat AG_CMD_WRITE_BUF) cfg st1)
    as (Hfst & Hin & Hout & Hsame).
  fold res in Hfst, Hin, Hout, Hsame.
  change (serialIn st1) with (serialIn st ++ hd [] arrivals) in Hfst, Hin.
  change (Z.to_nat AG_CMD_WRITE_BUF) with 32%nat in Hfst, Hin.
  fold k in Hfst, Hin.
  refine (conj _ (conj _ (conj Hout Hsame))).
  - unfold rxStream. rewrite Hfst, Hin, <- !app_assoc. f_equal.
    rewrite (app_assoc (take k _)), take_drop, <- app_assoc. f_equal.
    destruct arrivals; [rewrite app_nil_r |]; reflexivity.
  - rewrite Hfst, length_app, length_take. lia.
Qed.

Lemma receiveCfg_loop_S rounds arrivals cfg st :
  (length cfg < 136)%nat ->
  receiveCfg_loop (S rounds) arrivals cfg st =
    let st1 := set_serialIn (serialIn (Serial_print AG_CMD_CFG_DATA_READY st)
                             ++ hd [] arrivals)
                            (Serial_print AG_CMD_CFG_DATA_READY st) in
    let res := receiveCfg_read (Z.to_nat AG_CMD_WRITE_BUF) cfg st1 in
    receiveCfg_loop rounds (tl arrivals) (fst res) (snd res).
Proof.
  intros Hlen. cbn [receiveCfg_loop]. unfold CFG_SIZE.
  destruct (Z.ltb_spec (Z.of_nat (length cfg)) 136); [| lia].
  cbv zeta. destruct (receiveCfg_read _ _ _). reflexivity.
Qed.

Lemma receiveCfg_loop_done rounds arrivals cfg st :
  (136 <= length cfg)%nat ->
  receiveCfg_loop rounds arrivals cfg st = (Some cfg, st).
Proof.
  intros Hlen. destruct rounds; cbn [receiveCfg_loop]; unfold CFG_SIZE;
    destruct (Z.ltb_spec (Z.of_nat (length cfg)) 136); (lia || reflexivity).
Qed.

(** While fewer than 136 bytes are in sight the loop never ends: each round
    prints the data-ready string and nothing else happens. *)
Lemma receiveCfg_loop_starved rounds arrivals cfg st :
  (length (cfg ++ rxStream arrivals st) < 136)%nat ->
  fst (receiveCfg_loop rounds arrivals cfg st) = None /\
  serialOut (snd (receiveCfg_loop rounds arrivals cfg st))
  = serialOut st ++ replicate rounds AG_CMD_CFG_DATA_READY /\
  same_config st (snd (receiveCfg_loop rounds arrivals cfg st)).
Proof.
  revert arrivals cfg st.
  induction rounds as [|rounds IH]; intros arrivals cfg st Hshort.
  - rewrite length_app in Hshort. cbn [receiveCfg_loop]. unfold CFG_SIZE.
    destruct (Z.ltb_spec (Z.of_nat (length cfg)) 136); [| lia].
    cbn [fst snd replicate]. rewrite app_nil_r.
    auto using same_config_refl.
  - rewrite receiveCfg_loop_S by (rewrite length_app in Hshort; lia).
    cbv zeta.
    destruct (receiveCfg_round arrivals cfg st) as (Hstream & _ & Hout & Hsame).
    cbv zeta in Hstream, Hout, Hsame.
    destruct (IH (tl arrivals) _ _ ltac:(rewrite Hstream; exact Hshort))
      as (Hnone & Hout' & Hsame').
    refine (conj Hnone (conj _ (same_config_trans _ _ _ Hsame Hsame'))).
    rewrite Hout', Hout, <- app_assoc. reflexivity.
Qed.

(** Once 136 bytes are in sight the loop ends, within one round per entry
    of [arrivals] plus one round per 32 bytes still missing, with the first
    136 bytes of the stream in the buffer. *)
Lemma receiveCfg_loop_filled rounds arrivals cfg st :
  (length cfg <= 136)%nat ->
  (136 <= length (cfg ++ rxStream arrivals st))%nat ->
  (length arrivals + (136 - length cfg + 31) / 32 <= rounds)%nat ->
  exists r : nat,
    fst (receiveCfg_loop rounds arrivals cfg st)
    = Some (take 136 (cfg ++ rxStream arrivals st)) /\
    serialOut (snd (receiveCfg_loop rounds arrivals cfg st))
    = serialOut st ++ replicate r AG_CMD_CFG_DATA_READY /\
    same_config st (snd (receiveCfg_loop rounds arrivals cfg st)).
Proof.
  revert arrivals cfg st.
  induction rounds as [|rounds IH]; intros arrivals cfg st Hle Hfull Hrounds.
  - assert (Hlen : length cfg = 136%nat).
    { destruct (decide (length cfg = 136%nat)) as [|Hne]; [assumption |].
      exfalso.
      assert (1 <= (136 - length cfg + 31) / 32)%nat
        by (apply Nat.div_le_lower_bound; lia).
      lia. }
    rewrite receiveCfg_loop_done by lia. exists 0%nat. cbn [fst snd replicate].
    rewrite app_nil_r, take_app_length' by (symmetry; exact Hlen).
    auto using same_config_refl.
  - destruct (decide (length cfg = 136%nat)) as [Hlen | Hne].
    + rewrite receiveCfg_loop_done by lia. exists 0%nat.
      cbn [fst snd replicate].
      rewrite app_nil_r, take_app_length' by (symmetry; exact Hlen).
      auto using same_config_refl.
    + rewrite receiveCfg_loop_S by lia. cbv zeta.
      destruct (receiveCfg_round arrivals cfg st)
        as (Hstream & Hlen1 & Hout & Hsame).
      cbv zeta in Hstream, Hlen1, Hout, Hsame.
      pose proof Hfull as Hfull0.
      rewrite <- Hstream in Hfull |- *.
      match type of Hstream with
      | fst ?res ++ _ = _ => set (res1 := res) in *
      end.
      destruct (IH (tl arrivals) (fst res1) (snd res1)) as (r & Hsome & Hout' & Hsame').
      * rewrite Hlen1. lia.
      * exact Hfull.
      * rewrite Hlen1.
        assert (Hdiv : forall a b : nat, (a <= b -> a / 32 <= b / 32)%nat)
          by (intros a b Hab; apply Nat.Div0.div_le_mono; exact Hab).
        destruct arrivals as [|a arrivals].
        -- cbn [hd tl length] in *. rewrite app_nil_r in *.
           assert (Hrx : (136 <= length cfg + length (serialIn st))%nat).
           { unfold rxStream in Hfull0. cbn [concat] in Hfull0.
             rewrite !length_app in Hfull0. cbn [length] in Hfull0. lia. }
           assert (Hstep :
             ((136 - (length cfg
                      + 32 `min` (length (serialIn st)
                                  `min` (136 - length cfg))) + 31) / 32 + 1
              <= (136 - length cfg + 31) / 32)%nat).
           { destruct (decide (32 <= 136 - length cfg)%nat).
             - replace (32 `min` (length (serialIn st)
                                  `min` (136 - length cfg)))%nat
                 with 32%nat by lia.
               replace (136 - length cfg + 31)%nat
                 with ((136 - (length cfg + 32) + 31) + 1 * 32)%nat by lia.
               rewrite Nat.div_add by lia. lia.
             - replace (32 `min` (length (serialIn st)
                                  `min` (136 - length cfg)))%nat
                 with (136 - length cfg)%nat by lia.
               replace (136 - (length cfg + (136 - length cfg)) + 31)%nat
                 with 31%nat by lia.
               assert (1 <= (136 - length cfg + 31) / 32)%nat
                 by (apply Nat.div_le_lower_bound; lia).
               change (31 / 32)%nat with 0%nat. lia. }
           lia.
        -- cbn [hd tl length] in *.
           pose proof (Hdiv (136 - (length cfg
                                    + 32 `min` (length (serialIn st ++ a)
                                                `min` (136 - length cfg))) + 31)%nat
                            (136 - length cfg + 31)%nat ltac:(lia)).
           lia.
      * exists (S r).
        refine (conj Hsome (conj _ (same_config_trans _ _ _ Hsame Hsame'))).
        rewrite Hout', Hout, <- app_assoc. reflexivity.
Qed.

(** A record whose checksum does not match is rejected: the call returns,
    the configuration is as before, and the last thing sent is the
    negative acknowledge. *)
Lemma receiveCfg_bad_checksum rounds pinb arrivals st :
  (136 <= length (rxStream arrivals st))%nat ->
  (length arrivals + 5 <= rounds)%nat ->
  let record := take 136 (rxStream arrivals st) in
  calculateCRC32 record (CFG_SIZE - 4) <> cfg_crc record ->
  exists st' r,
    receiveCfg rounds pinb arrivals st = Returned st' /\
    same_config st st' /\
    serialOut st'
    = serialOut st ++ replicate r AG_CMD_CFG_DATA_READY ++ [AG_CMD_NACK].
Proof.
  intros Hfull Hrounds record Hcrc.
  destruct (receiveCfg_loop_filled rounds arrivals [] st)
    as (r & Hsome & Hout & Hsame); [simpl; lia | exact Hfull | exact Hrounds |].
  unfold receiveCfg.
  destruct (receiveCfg_loop rounds arrivals [] st) as [[cfg|] st1];
    cbn [fst snd] in Hsome, Hout, Hsame; [| discriminate].
  injection Hsome as ->. cbn [app]. fold record.
  assert (Hlen : Z.of_nat (length record) = CFG_SIZE).
  { unfold record, CFG_SIZE. rewrite length_take. lia. }
  rewrite Hlen, Z.eqb_refl.
  apply Z.eqb_neq in Hcrc. rewrite Hcrc.
  exists (Serial_print AG_CMD_NACK st1), r.
  split; [reflexivity | split; [exact Hsame |]].
  cbn [serialOut Serial_print]. rewrite Hout, <- app_assoc. reflexivity.
Qed.

(** A record with a matching checksum becomes the active configuration, the
    tables are recomputed from it, it is stored, and the last thing sent is
    the acknowledge. *)
Lemma receiveCfg_good_checksum rounds pinb arrivals st :
  (136 <= length (rxStream arrivals st))%nat ->
  (length arrivals + 5 <= rounds)%nat ->
  (136 <= length (eeprom st))%nat ->
  let record := take 136 (rxStream arrivals st) in
  calculateCRC32 record (CFG_SIZE - 4) = cfg_crc record ->
  exists st' r,
    receiveCfg rounds pinb arrivals st = Returned st' /\
    sCfg st' = record /\
    sGlowSteps st' = sGlowSteps (applyCfg pinb (set_cfg record st)) /\
    sMaxSubcycle st' = sMaxSubcycle (applyCfg pinb (set_cfg record st)) /\
    take 136 (eeprom st') = record /\
    serialOut st'
    = serialOut st ++ replicate r AG_CMD_CFG_DATA_READY
      ++ ["EEPROM write "%string; ("136" ++ CRLF)%string; AG_CMD_ACK].
Proof.
  intros Hfull Hrounds Hee record Hcrc.
  destruct (receiveCfg_loop_filled rounds arrivals [] st)
    as (r & Hsome & Hout & Hsame); [simpl; lia | exact Hfull | exact Hrounds |].
  unfold receiveCfg.
  destruct (receiveCfg_loop rounds arrivals [] st) as [[cfg|] st1];
    cbn [fst snd] in Hsome, Hout, Hsame; [| discriminate].
  injection Hsome as ->. cbn [app]. fold record.
  assert (Hlen : length record = 136%nat).
  { unfold record. rewrite length_take. lia. }
  assert (HlenZ : Z.of_nat (length record) = CFG_SIZE).
  { rewrite Hlen. reflexivity. }
  rewrite HlenZ, Z.eqb_refl.
  apply Z.eqb_eq in Hcrc. rewrite Hcrc.
  destruct Hsame as (_ & _ & _ & Hee1).
  eexists _, r. split; [reflexivity |].
  cbn [sCfg sGlowSteps sMaxSubcycle eeprom serialOut Serial_print
       Serial_println saveCfgToEEPROM set_eeprom applyCfg set_tables set_cfg].
  refine (conj eq_refl (conj eq_refl (conj eq_refl (conj _ _)))).
  - rewrite Hee1. apply saveCfg_loop_image; assumption.
  - rewrite Hout, <- !app_assoc. reflexivity.
Qed.

(** C7, the short read.  When fewer bytes than the record ever reach the
    port, [receiveCfg] has not returned after any number of rounds: the
    configuration, the derived tables and the EEPROM are as before, and all
    that was sent is one data-ready string per round, never the negative
    acknowledge. *)
Theorem C7_short_stream_never_answered
    (rounds : nat) (pinb : Z) (arrivals : list (list Z)) (st : State) :
  (length (rxStream arrivals st) < 136)%nat ->
  exists st',
    receiveCfg rounds pinb arrivals st = Waiting st' /\
    same_config st st' /\
    serialOut st' = serialOut st ++ replicate rounds AG_CMD_CFG_DATA_READY /\
    ~ In AG_CMD_NACK (replicate rounds AG_CMD_CFG_DATA_READY).
Proof.
  intros Hshort.
  destruct (receiveCfg_loop_starved rounds arrivals [] st Hshort)
    as (Hnone & Hout & Hsame).
  unfold receiveCfg.
  destruct (receiveCfg_loop rounds arrivals [] st) as [[cfg|] st1];
    cbn [fst snd] in Hnone, Hout, Hsame; [discriminate |].
  exists st1. refine (conj eq_refl (conj Hsame (conj Hout _))).
  intros Hin. apply list_elem_of_In, elem_of_replicate in Hin.
  destruct Hin as [Heq _]. discriminate Heq.
Qed.

Lemma C7_short_stream_never_answered_witness :
  exists st',
    receiveCfg 50 0x0f [take 100 defaultCfgBytes] (boot (replicate 1024 0xff))
    = Waiting st' /\
    sCfg st' = replicate 136 0 /\
    serialOut st' = replicate 50 AG_CMD_CFG_DATA_READY.
Proof.
  destruct (C7_short_stream_never_answered 50 0x0f [take 100 defaultCfgBytes]
              (boot (replicate 1024 0xff)))
    as (st' & Hrun & Hsame & Hout & _).
  - vm_compute. lia.
  - exists st'. split; [exact Hrun |]. split; [apply Hsame | exact Hout].
Defined.

(* ================================================================== *)
(** * Further properties of the code *)

(* ------------------------------------------------------------------ *)
(** ** Bits on the buses *)

(** Close a goal about one bit of a port once the bit number is known:
    all that is left is the level the line had before. *)
Ltac port_bit p :=
  match goal with
  | |- context [Z.testbit p ?j] =>
      generalize (Z.testbit p j); intros [|]; reflexivity
  end.

Lemma testbit_b2z (b : bool) k : 0 <= k -> Z.testbit (Z.b2z b) k = b && (k =? 0).
Proof.
  intros Hk. destruct b; cbn [Z.b2z andb].
  - change 1 with (2 ^ 0). rewrite Z.pow2_bits_eqb by lia. apply Z.eqb_sym.
  - apply Z.bits_0.
Qed.

Lemma testbit_u16 x k :
  0 <= k -> Z.testbit (u16 x) k = (k <? 16) && Z.testbit x k.
Proof.
  intros Hk. unfold u16. change 65536 with (2 ^ 16).
  destruct (Z.ltb_spec k 16).
  - apply Z.mod_pow2_bits_low. lia.
  - apply Z.mod_pow2_bits_high. lia.
Qed.

(** A nonnegative number whose bits from 16 on are clear is a 16-bit
    word. *)
Lemma word16_of_bits x :
  (forall k, 0 <= k -> 16 <= k -> Z.testbit x k = false) ->
  (forall k, k < 0 -> Z.testbit x k = false) ->
  0 <= x < 65536.
Proof.
  intros Hhigh _.
  assert (Heq : x = u16 x).
  { apply Z.bits_inj'. intros k Hk. rewrite testbit_u16 by exact Hk.
    destruct (Z.ltb_spec k 16); [reflexivity |].
    apply Hhigh; lia. }
  rewrite Heq. unfold u16. apply Z.mod_pos_bound. lia.
Qed.

Lemma shift_in_bits acc b k :
  0 <= k ->
  Z.testbit (shift_in acc b) k =
    if k =? 0 then b else (k <? 16) && Z.testbit acc (k - 1).
Proof.
  intros Hk. unfold shift_in.
  rewrite Z.lor_spec, testbit_u16, testbit_b2z, Z.shiftl_spec by lia.
  destruct (Z.eqb_spec k 0) as [-> | Hne].
  - rewrite Z.testbit_neg_r by lia. destruct b; reflexivity.
  - rewrite andb_false_r, orb_false_r. reflexivity.
Qed.

Lemma shift_in_range acc b : 0 <= shift_in acc b < 65536.
Proof.
  apply word16_of_bits.
  - intros k Hk H16. rewrite shift_in_bits by exact Hk.
    destruct (Z.eqb_spec k 0); [lia |].
    destruct (Z.ltb_spec k 16); [lia | reflexivity].
  - intros k Hk. apply Z.testbit_neg_r. exact Hk.
Qed.

(** The bit [sampleInput] takes from [PIND]. *)
Lemma pind_data_bit pind :
  Z.shiftr (Z.land pind 0x04) 2 = Z.b2z (Z.testbit pind 2).
Proof.
  apply Z.bits_inj'. intros k Hk.
  rewrite Z.shiftr_spec, Z.land_spec, testbit_b2z by lia.
  change 4 with (2 ^ 2). rewrite Z.pow2_bits_eqb by lia.
  destruct (Z.eqb_spec k 0) as [-> | Hne].
  - change (0 + 2) with 2. change (2 =? 2) with true. reflexivity.
  - destruct (Z.eqb_spec 2 (k + 2)); [lia |]. rewrite !andb_false_r.
    reflexivity.
Qed.

Lemma sampleInput_bits_S n i pind data portd :
  sampleInput_bits (S n) i pind data portd =
  sampleInput_bits n (i + 1) pind
    (shift_in data (Z.testbit (pind i) 2))
    (Z.lor (Z.land portd 0xf7) 0x08).
Proof.
  cbn [sampleInput_bits]. unfold shift_in. rewrite pind_data_bit.
  reflexivity.
Qed.

(** After [n] passes the low [n] bits of [data] are the bits read, the
    first one highest, and the former content has moved up by [n]. *)
Lemma sampleInput_bits_word n i pind data portd k :
  0 <= k < 16 ->
  Z.testbit (fst (sampleInput_bits n i pind data portd)) k =
    if k <? Z.of_nat n
    then Z.testbit (pind (i + Z.of_nat n - 1 - k)) 2
    else Z.testbit data (k - Z.of_nat n).
Proof.
  revert i data portd. induction n as [|n IH]; intros i data portd Hk.
  - cbn [sampleInput_bits fst]. destruct (Z.ltb_spec k (Z.of_nat 0)); [lia |].
    f_equal. lia.
  - rewrite sampleInput_bits_S, IH by exact Hk.
    destruct (Z.ltb_spec k (Z.of_nat n)), (Z.ltb_spec k (Z.of_nat (S n)));
      try lia.
    + do 2 f_equal. lia.
    + rewrite shift_in_bits by lia.
      destruct (Z.eqb_spec (k - Z.of_nat n) 0); [| lia].
      do 2 f_equal. lia.
    + rewrite shift_in_bits by lia.
      destruct (Z.eqb_spec (k - Z.of_nat n) 0); [lia |].
      destruct (Z.ltb_spec (k - Z.of_nat n) 16); [| lia].
      cbn [andb]. f_equal. lia.
Qed.

Lemma sampleInput_bits_range n i pind data portd :
  0 <= data < 65536 ->
  0 <= fst (sampleInput_bits n i pind data portd) < 65536.
Proof.
  revert i data portd. induction n as [|n IH]; intros i data portd Hd.
  - exact Hd.
  - rewrite sampleInput_bits_S. apply IH. apply shift_in_range.
Qed.

(** X1.  [sampleInput] returns a 16-bit word whose bits are the 16 levels
    read on IN_DATA, the first one read in bit 15 and the last in bit 0;
    nothing of the start value of [data] is left in it. *)
Theorem X1_sampleInput_word (pind : Z -> Z) (portd : Z) :
  0 <= fst (sampleInput pind portd) < 65536 /\
  (forall k, 0 <= k < 16 ->
     Z.testbit (fst (sampleInput pind portd)) k = Z.testbit (pind (15 - k)) 2).
Proof.
  unfold sampleInput. cbv zeta. split.
  - apply sampleInput_bits_range. vm_compute. split; [discriminate | reflexivity].
  - intros k Hk. rewrite sampleInput_bits_word by exact Hk.
    change (Z.of_nat 16) with 16.
    destruct (Z.ltb_spec k 16); [reflexivity | lia].
Qed.

Lemma X1_sampleInput_word_witness :
  Z.testbit (fst (sampleInput (fun i => if i =? 12 then 0x04 else 0x00) 0xff)) 3
  = Z.testbit ((fun i => if i =? 12 then 0x04 else 0x00) (15 - 3)) 2.
Proof.
  apply (proj2 (X1_sampleInput_word (fun i => if i =? 12 then 0x04 else 0x00)
                  0xff) 3).
  lia.
Defined.

Lemma sampleInput_bits_portd n i pind data portd k :
  0 <= k < 8 ->
  Z.testbit (snd (sampleInput_bits n i pind data portd)) k =
    match n with
    | O => Z.testbit portd k
    | S _ => (k =? 3) || Z.testbit portd k
    end.
Proof.
  revert i data portd. induction n as [|n IH]; intros i data portd Hk.
  - reflexivity.
  - rewrite sampleInput_bits_S, IH by exact Hk.
    destruct n; rewrite ?Z.lor_spec, ?Z.land_spec;
      index_cases k; port_bit portd.
Qed.

(** X2.  [sampleInput] leaves IN_CLK and IN_LOAD (bits 3 and 4 of [PORTD])
    high and changes no other line of the port: the three lines of the
    output register keep their levels. *)
Theorem X2_sampleInput_lines (pind : Z -> Z) (portd k : Z) :
  0 <= k < 8 ->
  Z.testbit (snd (sampleInput pind portd)) k =
    (k =? 3) || (k =? 4) || Z.testbit portd k.
Proof.
  intros Hk. unfold sampleInput. cbv zeta.
  rewrite sampleInput_bits_portd by exact Hk.
  rewrite Z.lor_spec, Z.land_spec.
  index_cases k; port_bit portd.
Qed.

Lemma X2_sampleInput_lines_witness :
  Z.testbit (snd (sampleInput (fun _ => 0) 0xa0)) 7
  = (7 =? 3) || (7 =? 4) || Z.testbit 0xa0 7.
Proof. apply (X2_sampleInput_lines (fun _ => 0) 0xa0 7). lia. Defined.

Lemma land_pow2 data m :
  0 <= m -> Z.land data (2 ^ m) = Z.b2z (Z.testbit data m) * 2 ^ m.
Proof.
  intros Hm. apply Z.bits_inj'. intros k Hk.
  rewrite Z.land_spec, Z.pow2_bits_eqb by exact Hm.
  destruct (Z.eqb_spec m k) as [<- | Hne].
  - rewrite Z.mul_pow2_bits, Z.sub_diag, testbit_b2z by lia.
    rewrite !andb_true_r. reflexivity.
  - rewrite andb_false_r.
    destruct (Z.lt_ge_cases k m).
    + rewrite Z.mul_pow2_bits_low by lia. reflexivity.
    + rewrite Z.mul_pow2_bits, testbit_b2z by lia.
      destruct (Z.eqb_spec (k - m) 0); [lia |]. rewrite andb_false_r.
      reflexivity.
Qed.

(** The test [data & bitMask] of [dataOutput] reads one bit of [data]. *)
Lemma nonzero_land_pow2 data m :
  0 <= m -> nonzero (Z.land data (2 ^ m)) = Z.testbit data m.
Proof.
  intros Hm. rewrite land_pow2 by exact Hm. unfold nonzero.
  pose proof (Z.pow_pos_nonneg 2 m ltac:(lia) Hm).
  destruct (Z.testbit data m); cbn [Z.b2z].
  - destruct (Z.eqb_spec (1 * 2 ^ m) 0); [lia | reflexivity].
  - reflexivity.
Qed.

Lemma last_cons {A} (a : A) l d : List.last (a :: l) d = List.last l a.
Proof.
  revert a d. induction l as [|b l IH]; intros a d; [reflexivity |].
  change (List.last (a :: b :: l) d) with (List.last (b :: l) d).
  rewrite !IH. reflexivity.
Qed.

Lemma hc595_run_cons h p writes :
  hc595_run h (p :: writes) = hc595_run (hc595_step h p) writes.
Proof. reflexivity. Qed.

Lemma hc595_run_app h w1 w2 :
  hc595_run h (w1 ++ w2) = hc595_run (hc595_run h w1) w2.
Proof. apply fold_left_app. Qed.

(** One pass of the clock loop, seen by the register chain: one bit of
    [data] goes in, the storage register is not touched. *)
Lemma dataOutput_pass s l p data m :
  0 <= m -> Z.testbit p 7 = false ->
  let p1 := Z.land p 0xbf in
  let p2 :=
    if nonzero (Z.land data (2 ^ m))
    then Z.lor p1 0x20 else Z.land p1 0xdf in
  let p3 := Z.lor p2 0x40 in
  hc595_run (mkHC595 s l p) [p1; p2; p3]
  = mkHC595 (shift_in s (Z.testbit data m)) l p3 /\
  Z.testbit p3 7 = false.
Proof.
  intros Hm H7. cbv zeta. rewrite nonzero_land_pow2 by exact Hm.
  set (p1 := Z.land p 191).
  set (p2 := if Z.testbit data m then Z.lor p1 32 else Z.land p1 223).
  set (p3 := Z.lor p2 64).
  assert (H16 : Z.testbit p1 6 = false).
  { unfold p1. rewrite Z.land_spec. apply andb_false_r. }
  assert (H17 : Z.testbit p1 7 = false).
  { unfold p1. rewrite Z.land_spec, H7. reflexivity. }
  assert (H26 : Z.testbit p2 6 = false).
  { unfold p2. destruct (Z.testbit data m);
      rewrite ?Z.lor_spec, ?Z.land_spec, H16; reflexivity. }
  assert (H27 : Z.testbit p2 7 = false).
  { unfold p2. destruct (Z.testbit data m);
      rewrite ?Z.lor_spec, ?Z.land_spec, H17; reflexivity. }
  assert (H25 : Z.testbit p2 5 = Z.testbit data m).
  { unfold p2. destruct (Z.testbit data m);
      rewrite ?Z.lor_spec, ?Z.land_spec.
    - apply orb_true_r.
    - apply andb_false_r. }
  assert (H36 : Z.testbit p3 6 = true).
  { unfold p3. rewrite Z.lor_spec. apply orb_true_r. }
  assert (H37 : Z.testbit p3 7 = false).
  { unfold p3. rewrite Z.lor_spec, H27. reflexivity. }
  assert (H35 : Z.testbit p3 5 = Z.testbit data m).
  { unfold p3. rewrite Z.lor_spec, H25. apply orb_false_r. }
  split; [| exact H37].
  unfold hc595_run. cbn [fold_left]. unfold hc595_step.
  cbn [hc_shift hc_latch hc_portd].
  rewrite H16, H17, H26, H27, H36, H37, H35, !andb_false_r.
  cbn [negb andb]. reflexivity.
Qed.

Lemma dataOutput_bits_S n m data p :
  0 < m ->
  dataOutput_bits (S n) (2 ^ m) data p =
    let p1 := Z.land p 0xbf in
    let p2 :=
      if nonzero (Z.land data (2 ^ m))
      then Z.lor p1 0x20 else Z.land p1 0xdf in
    let p3 := Z.lor p2 0x40 in
    [p1; p2; p3] ++ dataOutput_bits n (2 ^ (m - 1)) data p3.
Proof.
  intros Hm.
  assert (Hmask : Z.shiftr (2 ^ m) 1 = 2 ^ (m - 1)).
  { rewrite Z.shiftr_div_pow2 by lia. symmetry. apply Z.pow_sub_r; lia. }
  cbn [dataOutput_bits app]. rewrite Hmask. reflexivity.
Qed.

(** The clock loop, seen by the register chain: [n] bits of [data] go in,
    the highest first, and the storage register is not touched. *)
Lemma dataOutput_bits_run n m s l p data :
  Z.of_nat n <= m + 1 -> Z.testbit p 7 = false ->
  let writes := dataOutput_bits n (2 ^ m) data p in
  exists s',
    hc595_run (mkHC595 s l p) writes = mkHC595 s' l (List.last writes p) /\
    Z.testbit (List.last writes p) 7 = false /\
    (0 <= s < 65536 \/ n <> 0%nat -> 0 <= s' < 65536) /\
    (forall k, 0 <= k < 16 ->
       Z.testbit s' k =
         if k <? Z.of_nat n
         then Z.testbit data (m - Z.of_nat n + 1 + k)
         else Z.testbit s (k - Z.of_nat n)).
Proof.
  revert m s p. induction n as [|n IH]; intros m s p Hn H7 writes.
  - exists s. subst writes. cbn [dataOutput_bits List.last hc595_run fold_left].
    split; [reflexivity |]. split; [exact H7 |]. split.
    { intros [Hs | Hs]; [exact Hs | contradiction]. }
    intros k Hk. destruct (Z.ltb_spec k (Z.of_nat 0)); [lia |].
    f_equal. lia.
  - destruct (Z.eq_dec m 0) as [-> | Hm0].
    + (* last pass: the mask is 1 *)
      assert (n = 0%nat) by lia. subst n. subst writes.
      cbn [dataOutput_bits].
      destruct (dataOutput_pass s l p data 0 ltac:(lia) H7) as (Hrun & H37).
      cbv zeta in Hrun, H37. change (2 ^ 0) with 1 in Hrun, H37.
      eexists. split; [exact Hrun |]. split; [exact H37 |]. split.
      * intros _. apply shift_in_range.
      * intros k Hk. rewrite shift_in_bits by lia.
        change (Z.of_nat 1) with 1.
        destruct (Z.eqb_spec k 0) as [-> | Hne]; [reflexivity |].
        destruct (Z.ltb_spec k 1); [lia |].
        destruct (Z.ltb_spec k 16); [| lia]. reflexivity.
    + subst writes. rewrite dataOutput_bits_S by lia. cbv zeta.
      destruct (dataOutput_pass s l p data m ltac:(lia) H7) as (Hrun & H37).
      cbv zeta in Hrun, H37.
      match type of H37 with
      | Z.testbit ?q 7 = false => set (p3 := q) in *
      end.
      destruct (IH (m - 1) (shift_in s (Z.testbit data m)) p3 ltac:(lia) H37)
        as (s' & Hrun' & H7' & Hrange' & Hbits').
      cbv zeta in Hrun', H7'.
      exists s'. rewrite hc595_run_app, Hrun, Hrun'.
      rewrite <- !app_comm_cons, !last_cons. cbn [app].
      split; [reflexivity |]. split; [exact H7' |]. split.
      * intros _. apply Hrange'. left. apply shift_in_range.
      * intros k Hk. rewrite Hbits' by exact Hk.
        destruct (Z.ltb_spec k (Z.of_nat n)), (Z.ltb_spec k (Z.of_nat (S n)));
          try lia.
        -- f_equal. lia.
        -- rewrite shift_in_bits by lia.
           destruct (Z.eqb_spec (k - Z.of_nat n) 0); [| lia].
           f_equal. lia.
        -- rewrite shift_in_bits by lia.
           destruct (Z.eqb_spec (k - Z.of_nat n) 0); [lia |].
           destruct (Z.ltb_spec (k - Z.of_nat n) 16); [| lia].
           cbn [andb]. f_equal. lia.
Qed.

Lemma hc595_latch_quiet h writes :
  Forall (fun q => Z.testbit q 7 = false) writes ->
  hc_latch (hc595_run h writes) = hc_latch h.
Proof.
  intros Hq. revert h. induction Hq as [|q writes Hq7 _ IH]; intros h.
  - reflexivity.
  - rewrite hc595_run_cons, IH. unfold hc595_step. cbn [hc_latch].
    rewrite Hq7, andb_false_r. reflexivity.
Qed.

Lemma dataOutput_bits_quiet n bitMask data p :
  Z.testbit p 7 = false ->
  Forall (fun q => Z.testbit q 7 = false) (dataOutput_bits n bitMask data p).
Proof.
  revert bitMask p. induction n as [|n IH]; intros bitMask p H7.
  - constructor.
  - cbn [dataOutput_bits].
    assert (H1 : Z.testbit (Z.land p 0xbf) 7 = false)
      by (rewrite Z.land_spec, H7; reflexivity).
    assert (H2 : Z.testbit
                   (if nonzero (Z.land data bitMask)
                    then Z.lor (Z.land p 0xbf) 0x20
                    else Z.land (Z.land p 0xbf) 0xdf) 7 = false).
    { destruct (nonzero _); rewrite ?Z.lor_spec, ?Z.land_spec, H7;
        reflexivity. }
    assert (H3 : Z.testbit
                   (Z.lor (if nonzero (Z.land data bitMask)
                           then Z.lor (Z.land p 0xbf) 0x20
                           else Z.land (Z.land p 0xbf) 0xdf) 0x40) 7 = false)
      by (rewrite Z.lor_spec, H2; reflexivity).
    repeat constructor; try assumption. apply IH. exact H3.
Qed.

(** Two bytes packed as [dataOutput] packs them. *)
Lemma pack_bytes rowData colData :
  0 <= colData < 256 -> 0 <= rowData < 256 ->
  u16 (Z.lor (Z.shiftl rowData 8) colData) = rowData * 256 + colData.
Proof.
  intros Hc Hr. rewrite <- Z.add_nocarry_lor.
  - rewrite Z.shiftl_mul_pow2 by lia. change (2 ^ 8) with 256.
    apply u16_small. lia.
  - apply Z.bits_inj'. intros k Hk. rewrite Z.land_spec, Z.bits_0.
    destruct (Z.lt_ge_cases k 8).
    + rewrite Z.shiftl_spec_low by lia. reflexivity.
    + rewrite (testbit_above_byte colData k) by lia. apply andb_false_r.
Qed.

Lemma testbit_above_word x k :
  0 <= x < 65536 -> 16 <= k -> Z.testbit x k = false.
Proof.
  intros Hx Hk. rewrite <- (u16_small x Hx), testbit_u16 by lia.
  destruct (Z.ltb_spec k 16); [lia | reflexivity].
Qed.

(** The register chain after the whole of [dataOutput]: the writes are all
    quiet on OUT_LOAD but the last, and before the last the shift register
    holds the packed word. *)
Lemma dataOutput_run colData rowData portd portc h :
  let data := u16 (Z.lor (Z.shiftl rowData 8) colData) in
  exists quiet p1,
    fst (dataOutput colData rowData portd portc)
    = quiet ++ [Z.lor p1 0x80] /\
    Forall (fun q => Z.testbit q 7 = false) quiet /\
    hc595_run h quiet = mkHC595 data (hc_latch h) p1 /\
    Z.testbit p1 6 = false /\ Z.testbit p1 7 = false.
Proof.
  intros data.
  set (p0 := Z.land portd 0x3f).
  set (loopw := dataOutput_bits 16 0x8000 data p0).
  set (p1 := Z.land (List.last (p0 :: loopw) p0) 0xbf).
  assert (H06 : Z.testbit p0 6 = false)
    by (unfold p0; rewrite Z.land_spec; apply andb_false_r).
  assert (H07 : Z.testbit p0 7 = false)
    by (unfold p0; rewrite Z.land_spec; apply andb_false_r).
  destruct (dataOutput_bits_run 16 15 (hc_shift h) (hc_latch h) p0 data
              ltac:(lia) H07) as (s' & Hrun & Hl7 & Hrange & Hbits).
  cbv zeta in Hrun, Hl7. change (2 ^ 15) with 0x8000 in Hrun, Hl7.
  fold loopw in Hrun, Hl7.
  assert (Hdata : 0 <= data < 65536)
    by (unfold data, u16; apply Z.mod_pos_bound; lia).
  assert (Hs'r : 0 <= s' < 65536) by (apply Hrange; right; discriminate).
  assert (Hs' : s' = data).
  { apply Z.bits_inj'. intros k Hk.
    destruct (Z.lt_ge_cases k 16).
    - rewrite Hbits by lia. change (Z.of_nat 16) with 16.
      destruct (Z.ltb_spec k 16); [| lia]. reflexivity.
    - rewrite !testbit_above_word by assumption. reflexivity. }
  subst s'.
  assert (H16 : Z.testbit p1 6 = false)
    by (unfold p1; rewrite Z.land_spec; apply andb_false_r).
  assert (H17 : Z.testbit p1 7 = false)
    by (unfold p1; rewrite Z.land_spec, last_cons, Hl7; reflexivity).
  exists ((p0 :: loopw) ++ [p1]), p1.
  split; [| split; [| split; [| split]]].
  - unfold dataOutput. cbv zeta. fold data p0 loopw p1.
    rewrite <- app_assoc. reflexivity.
  - apply Forall_app. split.
    + constructor; [exact H07 |]. apply dataOutput_bits_quiet. exact H07.
    + constructor; [exact H17 | constructor].
  - rewrite hc595_run_app, (hc595_run_cons h p0 loopw).
    assert (Hfirst : hc595_step h p0 = mkHC595 (hc_shift h) (hc_latch h) p0).
    { unfold hc595_step. rewrite H06, H07, !andb_false_r. reflexivity. }
    rewrite Hfirst, Hrun. unfold hc595_run. cbn [fold_left]. unfold hc595_step.
    cbn [hc_shift hc_latch hc_portd].
    rewrite H16, H17, !andb_false_r. reflexivity.
  - exact H16.
  - exact H17.
Qed.

(** X3.  What [dataOutput] clocks out, the register chain takes in: after
    the call the storage register holds the 16-bit word with [rowData] in
    the high and [colData] in the low byte, and it changes only at the
    last write of the call, so that the outputs never show a frame that is
    partly shifted in. *)
Theorem X3_dataOutput_round_trip
    (colData rowData portd portc : Z) (h : HC595) :
  let writes := fst (dataOutput colData rowData portd portc) in
  hc_latch (hc595_run h writes) = u16 (Z.lor (Z.shiftl rowData 8) colData) /\
  (forall n : nat, (n < length writes)%nat ->
     hc_latch (hc595_run h (take n writes)) = hc_latch h) /\
  (0 <= colData < 256 -> 0 <= rowData < 256 ->
   hc_latch (hc595_run h writes) = rowData * 256 + colData).
Proof.
  intros writes.
  destruct (dataOutput_run colData rowData portd portc h)
    as (quiet & p1 & Hw & Hquiet & Hrun & H16 & H17).
  fold writes in Hw.
  assert (Hlatch :
    hc_latch (hc595_run h writes) = u16 (Z.lor (Z.shiftl rowData 8) colData)).
  { rewrite Hw, hc595_run_app, Hrun. unfold hc595_run. cbn [fold_left].
    unfold hc595_step. cbn [hc_shift hc_latch hc_portd].
    rewrite H16, H17, !Z.lor_spec, H16, H17. reflexivity. }
  split; [exact Hlatch | split].
  - intros n Hn. rewrite Hw, length_app in Hn. cbn [length] in Hn.
    rewrite Hw, take_app_le by lia.
    apply hc595_latch_quiet. apply Forall_take. exact Hquiet.
  - intros Hc Hr. rewrite Hlatch. apply pack_bytes; assumption.
Qed.

Lemma X3_dataOutput_round_trip_witness :
  hc_latch (hc595_run (mkHC595 0x1234 0xffff 0xff)
              (fst (dataOutput 0x04 0xa5 0xff 0x02)))
  = 0xa5 * 256 + 0x04.
Proof.
  apply (proj2 (proj2 (X3_dataOutput_round_trip 0x04 0xa5 0xff 0x02
                         (mkHC595 0x1234 0xffff 0xff)))); lia.
Defined.

Lemma low_lines_refl portd : low_lines portd portd.
Proof. intros k Hk. reflexivity. Qed.

Lemma testbit_31 k : 0 <= k < 5 -> Z.testbit 0x1f k = true.
Proof. intros Hk. index_cases k; try reflexivity; lia. Qed.

Lemma low_lines_land portd q c :
  Z.land c 0x1f = 0x1f -> low_lines portd q -> low_lines portd (Z.land q c).
Proof.
  intros Hc Hq k Hk. rewrite Z.land_spec, (Hq k Hk).
  assert (Hbit : Z.testbit (Z.land c 0x1f) k = true)
    by (rewrite Hc; apply testbit_31; exact Hk).
  rewrite Z.land_spec in Hbit. apply andb_true_iff in Hbit.
  destruct Hbit as [-> _]. apply andb_true_r.
Qed.

Lemma low_lines_lor portd q c :
  Z.land c 0x1f = 0 -> low_lines portd q -> low_lines portd (Z.lor q c).
Proof.
  intros Hc Hq k Hk. rewrite Z.lor_spec, (Hq k Hk).
  assert (Hbit : Z.testbit (Z.land c 0x1f) k = false)
    by (rewrite Hc; apply Z.bits_0).
  rewrite Z.land_spec, (testbit_31 k Hk), andb_true_r in Hbit.
  rewrite Hbit. apply orb_false_r.
Qed.

Lemma dataOutput_bits_low portd n bitMask data p :
  low_lines portd p ->
  Forall (low_lines portd) (dataOutput_bits n bitMask data p).
Proof.
  revert bitMask p. induction n as [|n IH]; intros bitMask p Hp.
  - constructor.
  - cbn [dataOutput_bits].
    assert (H1 : low_lines portd (Z.land p 0xbf))
      by (apply low_lines_land; [reflexivity | exact Hp]).
    assert (H2 : low_lines portd
                   (if nonzero (Z.land data bitMask)
                    then Z.lor (Z.land p 0xbf) 0x20
                    else Z.land (Z.land p 0xbf) 0xdf)).
    { destruct (nonzero _);
        [apply low_lines_lor | apply low_lines_land];
        (reflexivity || exact H1). }
    assert (H3 : low_lines portd
                   (Z.lor (if nonzero (Z.land data bitMask)
                           then Z.lor (Z.land p 0xbf) 0x20
                           else Z.land (Z.land p 0xbf) 0xdf) 0x40))
      by (apply low_lines_lor; [reflexivity | exact H2]).
    repeat constructor; try assumption. apply IH. exact H3.
Qed.

Lemma Forall_last {A} (P : A -> Prop) l d :
  P d -> Forall P l -> P (List.last l d).
Proof.
  intros Hd Hl. revert d Hd. induction Hl as [|a l Ha _ IH]; intros d Hd.
  - exact Hd.
  - rewrite last_cons. apply IH. exact Ha.
Qed.

(** X4.  [dataOutput] drives only the three lines of the output register:
    every value it writes to [PORTD] leaves the five low lines, those of
    the serial port and of the input register, as they were; it ends with
    OUT_CLK low and OUT_LOAD high, and in [PORTC] it clears the output
    enable (bit 1) and nothing else. *)
Theorem X4_dataOutput_lines (colData rowData portd portc : Z) :
  let writes := fst (dataOutput colData rowData portd portc) in
  Forall (low_lines portd) writes /\
  Z.testbit (List.last writes portd) 6 = false /\
  Z.testbit (List.last writes portd) 7 = true /\
  (forall k, 0 <= k < 8 ->
     Z.testbit (snd (dataOutput colData rowData portd portc)) k =
       negb (k =? 1) && Z.testbit portc k).
Proof.
  intros writes.
  assert (H0 : low_lines portd (Z.land portd 0x3f))
    by (apply low_lines_land; [reflexivity | apply low_lines_refl]).
  pose proof (dataOutput_bits_low portd 16 0x8000
                (u16 (Z.lor (Z.shiftl rowData 8) colData))
                (Z.land portd 0x3f) H0) as Hloop.
  set (p0 := Z.land portd 0x3f) in *.
  set (loopw := dataOutput_bits 16 0x8000
                  (u16 (Z.lor (Z.shiftl rowData 8) colData)) p0) in *.
  set (p1 := Z.land (List.last (p0 :: loopw) p0) 0xbf).
  assert (Hw : writes = (p0 :: loopw) ++ [p1; Z.lor p1 0x80]) by reflexivity.
  assert (H1 : low_lines portd p1).
  { apply low_lines_land; [reflexivity |].
    apply Forall_last; [exact H0 |]. constructor; assumption. }
  split; [| split; [| split]].
  - rewrite Hw. apply Forall_app. split.
    + constructor; assumption.
    + repeat constructor; [exact H1 |].
      apply low_lines_lor; [reflexivity | exact H1].
  - rewrite Hw. change [p1; Z.lor p1 0x80] with ([p1] ++ [Z.lor p1 0x80]).
    rewrite app_assoc, last_last, Z.lor_spec. unfold p1.
    rewrite Z.land_spec, andb_false_r. reflexivity.
  - rewrite Hw. change [p1; Z.lor p1 0x80] with ([p1] ++ [Z.lor p1 0x80]).
    rewrite app_assoc, last_last, Z.lor_spec. apply orb_true_r.
  - intros k Hk. unfold dataOutput. cbn [snd]. rewrite Z.land_spec.
    index_cases k; port_bit portc.
Qed.

Lemma X4_dataOutput_lines_witness :
  Z.testbit (snd (dataOutput 0x01 0xff 0x1f 0x07)) 1
  = negb (1 =? 1) && Z.testbit 0x07 1.
Proof.
  apply (proj2 (proj2 (proj2 (X4_dataOutput_lines 0x01 0xff 0x1f 0x07))) 1).
  lia.
Defined.

(* ------------------------------------------------------------------ *)
(** ** The frame of a tick *)

Lemma driveLampMatrix_rows_range n base r pinb colCycle mx maxSub rowData :
  0 <= rowData < 256 ->
  0 <= driveLampMatrix_rows n base r pinb colCycle mx maxSub rowData < 256.
Proof.
  revert r rowData. induction n as [|n IH]; intros r rowData Hr.
  - exact Hr.
  - rewrite driveLampMatrix_rows_S. apply IH. apply row_step_range. exact Hr.
Qed.

Lemma one_hot_byte k : 0 <= k < 8 -> u8 (Z.shiftl 1 k) = 2 ^ k.
Proof. intros Hk. index_cases k; reflexivity. Qed.

(** X5.  [driveLampMatrix] sends two frames: first the blank frame, then a
    frame whose column byte selects exactly the column [sTtag mod 8] (it
    decodes back to that index) and whose row byte has bit [row] set
    exactly for the lamps of that column whose counter is nonzero and
    reaches, after limiting to the lamp's maximum, at least the current
    sub cycle. *)
Theorem X5_driveLampMatrix_frame (pinb : Z) (st : State) :
  exists rowData,
    driveLampMatrix pinb st = [(0, 0); (2 ^ outColOf st, rowData)] /\
    decodeCol (2 ^ outColOf st) = (outColOf st, true) /\
    0 <= rowData < 256 /\
    (forall row, 0 <= row < 8 ->
       Z.testbit rowData row =
         lampOn pinb (colCycleOf pinb st)
           (rd (sMatrixState st) (lamp (outColOf st) row))
           (rd (sMaxSubcycle st) (lamp (outColOf st) row))).
Proof.
  assert (Hcol : 0 <= outColOf st < 8).
  { unfold outColOf, NUM_COL. apply Z.mod_pos_bound. lia. }
  exists (snd (lampFrame pinb st)).
  split; [| split; [| split]].
  - unfold driveLampMatrix, lampFrame. cbn [snd].
    rewrite one_hot_byte by exact Hcol. reflexivity.
  - apply decodeCol_one_hot. exact Hcol.
  - unfold lampFrame. cbn [snd]. apply driveLampMatrix_rows_range. lia.
  - intros row Hrow.
    pose proof (lampLit_lampOn pinb st row Hrow (sTtag st)) as Hlit.
    exact Hlit.
Qed.

Lemma X5_driveLampMatrix_frame_witness :
  exists rowData,
    driveLampMatrix 0x0f (set_ttag 13 blank_boot)
    = [(0, 0); (2 ^ outColOf (set_ttag 13 blank_boot), rowData)] /\
    Z.testbit rowData 2 = false.
Proof.
  destruct (X5_driveLampMatrix_frame 0x0f (set_ttag 13 blank_boot))
    as (rowData & Hframe & _ & _ & Hbits).
  exists rowData. split; [exact Hframe |].
  rewrite (Hbits 2) by lia. vm_compute. reflexivity.
Defined.

(** The on-count of a lamp as a function of its counter and maximum. *)
Lemma onCount_value pinb st col row w :
  0 <= col < 8 -> 0 <= row < 8 ->
  0 <= rd (sMatrixState st) (lamp col row) <= 65535 ->
  0 <= rd (sMaxSubcycle st) (lamp col row) ->
  onCount pinb st col row w =
    if rd (sMatrixState st) (lamp col row) =? 0 then 0
    else Z.min (rd (sMatrixState st) (lamp col row) / (65536 / ORIG_CYCLES pinb))
               (rd (sMaxSubcycle st) (lamp col row)) + 1.
Proof.
  intros Hcol Hrow HV HM.
  rewrite (onCount_lampOn pinb st col row w Hcol Hrow).
  set (V := rd (sMatrixState st) (lamp col row)) in *.
  set (M := rd (sMaxSubcycle st) (lamp col row)) in *.
  unfold lampOn, nonzero.
  destruct (Z.eqb_spec V 0) as [HV0 | HVnz]; cbn [negb andb].
  - rewrite filter_none. reflexivity.
  - assert (Hsub : exists d, 65536 / ORIG_CYCLES pinb = d /\
                             ORIG_CYCLES pinb * d = 65536 /\ 0 < d /\
                             0 < ORIG_CYCLES pinb /\
                             ORIG_CYCLES pinb
                             = Z.of_nat (Z.to_nat (ORIG_CYCLES pinb)) /\
                             subCycleOf pinb V = V / d).
    { destruct (ORIG_CYCLES_cases pinb) as [[-> ->] | [-> ->]];
        [exists 8192 | exists 16384];
        (split; [reflexivity |]); repeat split; try lia;
        apply u16_small;
        (split; [apply Z.div_pos; lia | apply Z.div_lt_upper_bound; lia]). }
    destruct Hsub as (d & Hd & HNd & Hdpos & HNpos & HNnat & Hsc).
    rewrite Hsc, Hd.
    assert (Hq : 0 <= V / d < ORIG_CYCLES pinb).
    { split; [apply Z.div_pos; lia | apply Z.div_lt_upper_bound; lia]. }
    assert (Hmin : (if V / d >? M then M else V / d) = Z.min (V / d) M).
    { destruct (Z.gtb_spec (V / d) M); lia. }
    rewrite Hmin, HNnat, count_sub_cycles by lia. rewrite <- HNnat. lia.
Qed.

(** X6.  The pulse width follows the brightness: a lamp that is on in a
    sub cycle is on in every earlier sub cycle of the window, and of two
    counter values with the same maximum the larger one never gives fewer
    on-cycles. *)
Theorem X6_pwm_monotone (pinb : Z) (st st' : State) (col row w : Z) :
  0 <= col < 8 -> 0 <= row < 8 ->
  0 <= rd (sMatrixState st) (lamp col row)
    <= rd (sMatrixState st') (lamp col row) ->
  rd (sMatrixState st') (lamp col row) <= 65535 ->
  0 <= rd (sMaxSubcycle st) (lamp col row) ->
  rd (sMaxSubcycle st') (lamp col row) = rd (sMaxSubcycle st) (lamp col row) ->
  onCount pinb st col row w <= onCount pinb st' col row w /\
  (forall k k' v m, k <= k' ->
     lampOn pinb k' v m = true -> lampOn pinb k v m = true).
Proof.
  intros Hcol Hrow HV HV' HM HM'. split.
  - rewrite !onCount_value by (try assumption; lia). rewrite HM'.
    set (V := rd (sMatrixState st) (lamp col row)) in *.
    set (V' := rd (sMatrixState st') (lamp col row)) in *.
    set (M := rd (sMaxSubcycle st) (lamp col row)) in *.
    assert (Hd : 0 < 65536 / ORIG_CYCLES pinb).
    { destruct (ORIG_CYCLES_cases pinb) as [[-> _] | [-> _]]; reflexivity. }
    pose proof (Z.div_le_mono V V' _ Hd ltac:(lia)) as Hmono.
    pose proof (Z.div_pos V _ ltac:(lia) Hd) as Hq.
    destruct (Z.eqb_spec V 0), (Z.eqb_spec V' 0); lia.
  - intros k k' v m Hk. unfold lampOn.
    destruct (nonzero v); cbn [andb]; [| discriminate].
    intros Hon. apply Z.geb_le in Hon. apply Z.geb_le. lia.
Qed.

Lemma X6_pwm_monotone_witness :
  onCount 0x0f (set_matrix (wr (replicate 64 0) (lamp 1 1) 20000) blank_boot)
          1 1 0
  <= onCount 0x0f (set_matrix (wr (replicate 64 0) (lamp 1 1) 50000) blank_boot)
             1 1 0.
Proof.
  refine (proj1 (X6_pwm_monotone 0x0f
                   (set_matrix (wr (replicate 64 0) (lamp 1 1) 20000) blank_boot)
                   (set_matrix (wr (replicate 64 0) (lamp 1 1) 50000) blank_boot)
                   1 1 0 _ _ _ _ _ _));
    first [ lia | vm_compute; reflexivity | vm_compute; discriminate
          | vm_compute; split; discriminate ].
Defined.

(* ------------------------------------------------------------------ *)
(** ** The validator over a run *)

Lemma updateValid_accepted c r st :
  fst (updateValid c r st) = true ->
  sLastUpdColMask (snd (updateValid c r st)) = c.
Proof.
  unfold updateValid.
  destruct (negb (c =? sLastUpdColMask st)); [| discriminate].
  destruct (_ >=? _); [reflexivity | discriminate].
Qed.

Lemma updateValid_handled c r st :
  c = sLastUpdColMask st -> updateValid c r st = (false, st).
Proof. intros ->. unfold updateValid. rewrite Z.eqb_refl. reflexivity. Qed.

(** One tick keeps the validator invariant. *)
Lemma updateValid_inv c r st :
  validator_inv st ->
  let st' := set_last c r (snd (updateValid c r st)) in
  validator_inv st'.
Proof.
  intros (Hcons & Hfresh) st'. subst st'.
  destruct (Z.eq_dec c (sLastUpdColMask st)) as [Hc | Hc].
  - rewrite updateValid_handled by exact Hc. cbn [snd]. split.
    + exact Hcons.
    + cbn [sLastColMask sLastUpdColMask sConsistentSamples set_last].
      intros Hne. contradiction.
  - destruct (fst (updateValid c r st)) eqn:Hv.
    + pose proof (updateValid_accepted c r st Hv) as Hupd.
      assert (Hone : sConsistentSamples (snd (updateValid c r st)) = 1).
      { revert Hv. unfold updateValid, SINGLE_UPDATE_CONS, u8.
        destruct (Z.eqb_spec c (sLastUpdColMask st)); [contradiction |].
        cbn [negb].
        destruct (Z.eqb_spec c (sLastColMask st)) as [Hlc | Hlc]; cbn [negb orb].
        - destruct (negb (r =? sLastRowMask st)); [discriminate |].
          rewrite (Hfresh ltac:(congruence)). reflexivity.
        - discriminate. }
      split.
      * right. exact Hone.
      * cbn [sLastColMask sLastUpdColMask sConsistentSamples set_last].
        rewrite Hupd. intros Hne. contradiction.
    + destruct (updateValid_rejected c r st Hc Hv) as (Hzero & Hkeep).
      split.
      * left. exact Hzero.
      * intros _. exact Hzero.
Qed.

Lemma ISR_validator pinb sampled st :
  validator_inv st -> validator_inv (tick_state (ISR pinb sampled st)).
Proof.
  intros Hinv.
  destruct (ISR_spec pinb sampled st) as (Hc & Hr & _ & _ & Hu & Hcs & _).
  pose proof (updateValid_inv (tick_colMask pinb sampled st)
                (tick_rowMask pinb sampled st) st Hinv) as Hinv'.
  cbv zeta in Hinv'. unfold validator_inv in *.
  cbn [sLastColMask sLastUpdColMask sConsistentSamples set_last] in Hinv'.
  rewrite Hc, Hu, Hcs. exact Hinv'.
Qed.

(** X7.  Over any run of the handler that starts in a state satisfying the
    validator invariant (as the state after power-up does), the counter of
    consistent samples only ever takes the values 0 and 1: the branch that
    saturates it at 255 is never needed. *)
Theorem X7_consistency_counter_bounded
    (inp : nat -> Z * Z) (st0 : State) (n : nat) :
  validator_inv st0 ->
  validator_inv (run inp st0 n) /\
  (sConsistentSamples (run inp st0 n) = 0 \/
   sConsistentSamples (run inp st0 n) = 1).
Proof.
  intros H0.
  assert (Hinv : validator_inv (run inp st0 n)).
  { induction n as [|n IH]; [exact H0 |].
    rewrite run_S. unfold tickAt. apply ISR_validator. exact IH. }
  split; [exact Hinv | apply Hinv].
Qed.

Lemma X7_consistency_counter_bounded_witness :
  sConsistentSamples (run stuck_column (boot []) 100) = 0 \/
  sConsistentSamples (run stuck_column (boot []) 100) = 1.
Proof.
  apply (X7_consistency_counter_bounded stuck_column (boot []) 100).
  split; [left; reflexivity | intros _; reflexivity].
Defined.

(** After an accepted tick the column stays handled while it stays
    selected. *)
Lemma handled_while_selected inp st0 n c j :
  sLastUpdColMask (run inp st0 n) = c ->
  (forall i, (i < j)%nat -> fst (sampleAt inp st0 (n + i)) = c) ->
  sLastUpdColMask (run inp st0 (n + j)) = c /\
  (forall i, (i < j)%nat -> tick_update (tickAt inp st0 (n + i)) = None).
Proof.
  intros Hupd. induction j as [|j IH]; intros Hsel.
  - rewrite Nat.add_0_r. split; [exact Hupd | intros i Hi; lia].
  - destruct (IH ltac:(intros i Hi; apply Hsel; lia)) as (Hupd' & Hnone).
    pose proof (Hsel j ltac:(lia)) as Hc.
    rewrite sampleAt_masks in Hc. cbn [fst] in Hc.
    destruct (ISR_spec (fst (inp (n + j)%nat)) (snd (inp (n + j)%nat))
                (run inp st0 (n + j))) as (_ & _ & Hu & _ & Hlu & _).
    rewrite Hc in Hu, Hlu.
    rewrite updateValid_handled in Hlu by (symmetry; exact Hupd').
    split.
    + replace (n + S j)%nat with (S (n + j)) by lia. rewrite run_S.
      unfold tickAt. rewrite Hlu. exact Hupd'.
    + intros i Hi. destruct (decide (i = j)) as [-> | Hne].
      * unfold tickAt. rewrite Hu. unfold validInputOf.
        rewrite updateValid_handled by (symmetry; exact Hupd').
        cbn [fst]. rewrite andb_false_r. reflexivity.
      * apply Hnone. lia.
Qed.

(** X8.  The integrator is called at most once per column period: when a
    tick hands a sample to the integrator, no later tick does so for as
    long as the column mask of the samples stays the same. *)
Theorem X8_once_per_column
    (inp : nat -> Z * Z) (st0 : State) (n j : nat) :
  tick_update (tickAt inp st0 n) <> None ->
  (forall i, (1 <= i <= j)%nat ->
     fst (sampleAt inp st0 (n + i)) = fst (sampleAt inp st0 n)) ->
  forall i, (1 <= i <= j)%nat -> tick_update (tickAt inp st0 (n + i)) = None.
Proof.
  intros Hacc Hsel i Hi.
  destruct (ISR_spec (fst (inp n)) (snd (inp n)) (run inp st0 n))
    as (_ & _ & Hu & _ & Hlu & _).
  unfold tickAt in Hacc. rewrite Hu in Hacc.
  destruct (validInputOf _ _ _) eqn:Hok; [clear Hacc | contradiction].
  unfold validInputOf in Hok. apply andb_true_iff in Hok.
  destruct Hok as [_ Hv].
  rewrite (updateValid_accepted _ _ _ Hv) in Hlu.
  assert (Hupd : sLastUpdColMask (run inp st0 (S n))
                 = fst (sampleAt inp st0 n)).
  { rewrite run_S. unfold tickAt. rewrite Hlu, sampleAt_masks. reflexivity. }
  destruct (handled_while_selected inp st0 (S n) (fst (sampleAt inp st0 n)) j
              Hupd) as (_ & Hnone).
  - intros k Hk. replace (S n + k)%nat with (n + S k)%nat by lia.
    apply Hsel. lia.
  - replace (n + i)%nat with (S n + (i - 1))%nat by lia. apply Hnone. lia.
Qed.

Lemma X8_once_per_column_witness :
  tick_update (tickAt stuck_column (boot []) (1 + 1)) = None.
Proof.
  apply (X8_once_per_column stuck_column (boot []) 1 1).
  - vm_compute. discriminate.
  - intros i Hi. assert (i = 1%nat) by lia. subst i. vm_compute. reflexivity.
  - lia.
Defined.

(* ------------------------------------------------------------------ *)
(** ** What a tick leaves alone *)

Lemma same_background_refl st : same_background st st.
Proof. repeat split. Qed.

Lemma same_background_trans st1 st2 st3 :
  same_background st1 st2 -> same_background st2 st3 ->
  same_background st1 st3.
Proof.
  intros (Hc & Ho & Hi & Hp) (Hc' & Ho' & Hi' & Hp').
  split; [exact (same_config_trans _ _ _ Hc Hc') |].
  repeat split; congruence.
Qed.

(** The part of a tick's result that [ISR_spec] leaves out: the tick
    counter, the frames, the pass-through statics and everything that
    belongs to the background loop. *)
Lemma ISR_rest pinb sampled st :
  let t := ISR pinb sampled st in
  let st0 := set_ttag (u32 (sTtag st + 1)) st in
  sTtag (tick_state t) = u32 (sTtag st + 1) /\
  same_background st (tick_state t) /\
  tick_frames t =
    fst (if Z.land pinb 0x08 =? 0 then driveLampMatrixPassThrough st0
         else (driveLampMatrix pinb st0, st0)) /\
  sLastPassThroughColMask (tick_state t) =
    sLastPassThroughColMask
      (snd (if Z.land pinb 0x08 =? 0 then driveLampMatrixPassThrough st0
            else (driveLampMatrix pinb st0, st0))) /\
  sLastPassThroughRowMask (tick_state t) =
    sLastPassThroughRowMask
      (snd (if Z.land pinb 0x08 =? 0 then driveLampMatrixPassThrough st0
            else (driveLampMatrix pinb st0, st0))).
Proof.
  intros t st0. unfold t, ISR. fold st0.
  assert (Hdrive : exists frames st1,
    (if Z.land pinb 8 =? 0 then driveLampMatrixPassThrough st0
     else (driveLampMatrix pinb st0, st0)) = (frames, st1) /\
    sTtag st1 = u32 (sTtag st + 1) /\ same_background st st1).
  { destruct (Z.land pinb 8 =? 0).
    - unfold driveLampMatrixPassThrough.
      destruct (negb _ || negb _); eexists _, _;
        (split; [reflexivity |]); repeat split.
    - eexists _, _. split; [reflexivity |]. repeat split. }
  destruct Hdrive as (frames & st1 & -> & Ht & Hbg).
  cbn [fst snd].
  destruct (decodeCol _) as [inCol v].
  assert (Hvalid : forall c r,
    sTtag (snd (updateValid c r st1)) = sTtag st1 /\
    same_background st1 (snd (updateValid c r st1)) /\
    sLastPassThroughColMask (snd (updateValid c r st1))
    = sLastPassThroughColMask st1 /\
    sLastPassThroughRowMask (snd (updateValid c r st1))
    = sLastPassThroughRowMask st1).
  { intros c r. unfold updateValid.
    repeat match goal with
           | |- context [if ?b then _ else _] => destruct b
           end; repeat split. }
  match goal with
  | |- context [updateValid ?c ?r st1] =>
      destruct (Hvalid c r) as (Ht2 & Hbg2 & Hpc & Hpr);
      destruct (updateValid c r st1) as [valid st2]
  end.
  cbn [fst snd] in *.
  pose proof (same_background_trans _ _ _ Hbg Hbg2) as Hbg'.
  destruct Hbg' as ((? & ? & ? & ?) & ? & ? & ?).
  destruct (v && valid);
    unfold same_background, same_config, set_last, set_matrix;
    cbn [sTtag sCfg sGlowSteps sMaxSubcycle eeprom serialOut serialIn
         sLastPINB sLastPassThroughColMask sLastPassThroughRowMask
         tick_state tick_frames];
    repeat split; congruence.
Qed.

(** X9.  The timer interrupt never touches what belongs to the background
    loop (configuration record, glow steps, maximum sub cycles, EEPROM,
    serial port, remembered jumper state), and it counts ticks modulo
    2^32.  The wrap of the counter is not visible on the outputs: column
    and sub cycle computed from the wrapped counter are those of the
    unwrapped one. *)
Theorem X9_tick_background_and_counter
    (inp : nat -> Z * Z) (st0 : State) (n : nat) :
  same_background st0 (run inp st0 n) /\
  u32 (sTtag (run inp st0 n)) = u32 (sTtag st0 + Z.of_nat n) /\
  (forall pinb t st,
     outColOf (set_ttag (u32 t) st) = outColOf (set_ttag t st) /\
     colCycleOf pinb (set_ttag (u32 t) st) = colCycleOf pinb (set_ttag t st)).
Proof.
  split; [| split].
  - induction n as [|n IH]; [apply same_background_refl |].
    rewrite run_S. unfold tickAt.
    destruct (ISR_rest (fst (inp n)) (snd (inp n)) (run inp st0 n))
      as (_ & Hbg & _).
    exact (same_background_trans _ _ _ IH Hbg).
  - induction n as [|n IH].
    + f_equal. cbn. lia.
    + rewrite run_S. unfold tickAt.
      destruct (ISR_rest (fst (inp n)) (snd (inp n)) (run inp st0 n))
        as (Ht & _).
      rewrite Ht. unfold u32 in *.
      rewrite Z.mod_mod, <- Z.add_mod_idemp_l, IH, Z.add_mod_idemp_l by lia.
      f_equal. lia.
  - intros pinb t st. unfold outColOf, colCycleOf, u32, NUM_COL,
      ORIG_CYCLES_A, ORIG_CYCLES_B, ORIG_INT, TTAG_INT_A, TTAG_INT_B.
    cbn [sTtag set_ttag].
    change (2000 / 250) with 8. change (2000 / 500) with 4.
    split.
    + Z.div_mod_to_equations. lia.
    + destruct (nonzero (Z.land pinb 4)); Z.div_mod_to_equations; lia.
Qed.





(* ------------------------------------------------------------------ *)
(** ** The matrix over a run *)

(** X11.  [updateCol] keeps the size of the matrix, changes no lamp of
    another column, and changes nothing at all when the column index is
    out of range. *)
Theorem X11_updateCol_local (steps : list Z) (col rowMask : Z) (mx : list Z) :
  length (updateCol steps col rowMask mx) = length mx /\
  (8 <= col -> updateCol steps col rowMask mx = mx) /\
  (length mx = 64%nat -> 0 <= col ->
   forall col' row, 0 <= col' -> 0 <= row < 8 -> col' <> col ->
     rd (updateCol steps col rowMask mx) (lamp col' row)
     = rd mx (lamp col' row)).
Proof.
  split; [apply length_updateCol | split].
  - intros Hcol. unfold updateCol, NUM_COL.
    destruct (Z.geb_spec col 8); [reflexivity | lia].
  - intros Hlen Hcol col' row Hcol' Hrow Hne.
    apply updateCol_other; assumption.
Qed.

Lemma X11_updateCol_local_witness :
  updateCol (replicate 64 655) 8 0xff (replicate 64 0) = replicate 64 0 /\
  rd (updateCol (replicate 64 655) 2 0xff (replicate 64 0)) (lamp 3 0)
  = rd (replicate 64 0) (lamp 3 0).
Proof.
  split.
  - apply (proj1 (proj2 (X11_updateCol_local (replicate 64 655) 8 0xff
                           (replicate 64 0)))). lia.
  - apply (proj2 (proj2 (X11_updateCol_local (replicate 64 655) 2 0xff
                           (replicate 64 0)))); try reflexivity; lia.
Defined.

Lemma decodeCol_range c : 0 <= fst (decodeCol c) <= 8.
Proof.
  unfold decodeCol, NUM_COL.
  destruct c as [|p|p]; cbn [fst]; try lia.
  do 8 (destruct p as [p|p|]; cbn [fst]; try lia).
Qed.

(** [updateCol] keeps every counter a 16-bit value. *)
Lemma updateCol_counters steps col rowMask mx :
  length mx = 64%nat -> 0 <= col ->
  (forall j, 0 <= j < 64 -> 0 <= rd mx j <= 65535 /\ 0 <= rd steps j) ->
  forall j, 0 <= j < 64 -> 0 <= rd (updateCol steps col rowMask mx) j <= 65535.
Proof.
  intros Hlen Hcol Hok j Hj. unfold updateCol, lamp, NUM_COL, NUM_ROW.
  destruct (Z.geb_spec col 8); [apply Hok; exact Hj |].
  rewrite updateCol_rows_cell by (simpl; lia).
  destruct ((col * 8 + 0 + 0 <=? j) && (j <? col * 8 + 0 + 0 + Z.of_nat (Z.to_nat 8))).
  - apply updateMx_range; apply Hok; exact Hj.
  - apply Hok. exact Hj.
Qed.

Lemma ISR_counters pinb sampled st :
  counters_ok st -> counters_ok (tick_state (ISR pinb sampled st)).
Proof.
  intros (Hlen & Hok).
  destruct (ISR_spec pinb sampled st) as (_ & _ & _ & Hm & _ & _ & Hg & _).
  unfold counters_ok. rewrite Hm, Hg.
  destruct (validInputOf _ _ _).
  - split; [rewrite length_updateCol; exact Hlen |].
    intros j Hj. split; [| apply Hok; exact Hj].
    apply updateCol_counters; try assumption. apply decodeCol_range.
  - split; assumption.
Qed.

Lemma run_counters inp st0 n : counters_ok st0 -> counters_ok (run inp st0 n).
Proof.
  intros H0. induction n as [|n IH]; [exact H0 |].
  rewrite run_S. unfold tickAt. apply ISR_counters. exact IH.
Qed.

Lemma counters_ok_boot ee : counters_ok (boot ee).
Proof.
  split; [reflexivity |]. intros j Hj. cbn [boot sMatrixState sGlowSteps].
  unfold rd. rewrite !lookup_total_replicate_2 by lia. lia.
Qed.

Lemma counters_ok_blank_boot : counters_ok blank_boot.
Proof.
  split; [reflexivity |]. intros j Hj.
  assert (Hall :
    forallb (fun j => (0 <=? rd (sMatrixState blank_boot) j) &&
                      (rd (sMatrixState blank_boot) j <=? 65535) &&
                      (0 <=? rd (sGlowSteps blank_boot) j))
            (seqZ 0 64) = true) by (vm_compute; reflexivity).
  rewrite forallb_forall in Hall.
  specialize (Hall j). rewrite !andb_true_iff, !Z.leb_le in Hall.
  assert (Hin : In j (seqZ 0 64)) by (apply list_elem_of_In, elem_of_seqZ; lia).
  specialize (Hall Hin). lia.
Qed.

(** X12.  No tick makes a brightness counter wrap.  Over any run from a
    state with 64 counters in 0..65535 and non-negative glow steps, a tick
    changes the counters of the column it hands to the integrator only,
    and each of them by one saturating step: with its row bit set the
    counter [v] becomes [min (v + step) 65535], with the bit clear
    [max (v - step) 0].  So a counter never falls on an on-update, never
    rises on an off-update, and stays in 0..65535. *)
Theorem X12_counters_never_wrap
    (inp : nat -> Z * Z) (st0 : State) (n : nat) (col row : Z) :
  counters_ok st0 -> 0 <= col < 8 -> 0 <= row < 8 ->
  let st := run inp st0 n in
  let v := rd (sMatrixState st) (lamp col row) in
  let v' := rd (sMatrixState (run inp st0 (S n))) (lamp col row) in
  let step := rd (sGlowSteps st) (lamp col row) in
  v' = match tick_update (tickAt inp st0 n) with
       | Some (c, r) =>
           if c =? col
           then if Z.testbit r row
                then Z.min (v + step) 65535 else Z.max (v - step) 0
           else v
       | None => v
       end /\
  match tick_update (tickAt inp st0 n) with
  | Some (c, r) => if Z.testbit r row then v <= v' else v' <= v
  | None => v' = v
  end /\
  0 <= v' <= 65535.
Proof.
  intros H0 Hcol Hrow st v v' step.
  destruct (run_counters inp st0 n H0) as (Hlen & Hcells). fold st in Hlen, Hcells.
  assert (Hp : 0 <= lamp col row < 64) by (unfold lamp, NUM_ROW; lia).
  destruct (Hcells _ Hp) as (Hv & Hstep). fold v in Hv. fold step in Hstep.
  assert (Hform :
    v' = match tick_update (tickAt inp st0 n) with
         | Some (c, r) =>
             if c =? col
             then if Z.testbit r row
                  then Z.min (v + step) 65535 else Z.max (v - step) 0
             else v
         | None => v
         end).
  { unfold v'. rewrite run_S. unfold tickAt. fold st.
    destruct (ISR_spec (fst (inp n)) (snd (inp n)) st)
      as (_ & _ & Hupd & Hm & _).
    cbv zeta in Hupd, Hm. rewrite Hupd, Hm.
    destruct (validInputOf _ _ st); [| reflexivity].
    pose proof (decodeCol_range
                  (tick_colMask (fst (inp n)) (snd (inp n)) st)) as Hd.
    destruct (Z.eqb_spec
                (fst (decodeCol (tick_colMask (fst (inp n)) (snd (inp n)) st)))
                col) as [-> | Hne].
    - rewrite updateCol_lamp by assumption. fold v step.
      destruct (Z.testbit _ row).
      + apply updateMx_on; lia.
      + apply updateMx_off; lia.
    - apply updateCol_other; (assumption || lia). }
  split; [exact Hform |].
  destruct (tick_update (tickAt inp st0 n)) as [[c r]|].
  - destruct (c =? col), (Z.testbit r row); lia.
  - split; [exact Hform | lia].
Qed.

Lemma X12_counters_never_wrap_witness :
  rd (sMatrixState (run (fun _ => (0x0f, 0x04fe)) blank_boot 2)) (lamp 2 0)
  = Z.min (rd (sMatrixState (run (fun _ => (0x0f, 0x04fe)) blank_boot 1))
              (lamp 2 0)
           + rd (sGlowSteps (run (fun _ => (0x0f, 0x04fe)) blank_boot 1))
                (lamp 2 0)) 65535.
Proof.
  apply (proj1 (X12_counters_never_wrap (fun _ => (0x0f, 0x04fe)) blank_boot 1
                  2 0 counters_ok_blank_boot ltac:(lia) ltac:(lia))).
Defined.

(* ------------------------------------------------------------------ *)
(** ** Test mode *)

Lemma u8_range x : 0 <= u8 x < 256.
Proof. unfold u8. apply Z.mod_pos_bound. lia. Qed.

Lemma u8_small x : 0 <= x < 256 -> u8 x = x.
Proof. intros Hx. unfold u8. apply Z.mod_small. exact Hx. Qed.

Lemma u8_lnot x : 0 <= x < 256 -> u8 (Z.lnot x) = 255 - x.
Proof.
  intros Hx. unfold u8, Z.lnot.
  replace (Z.pred (- x)) with (255 - x + (-1) * 256) by lia.
  rewrite Z.mod_add by lia. apply Z.mod_small. lia.
Qed.

(** The two masks the handler takes from a word packed as column byte over
    inverted row byte. *)
Lemma unpack_masks colMask rowMask :
  0 <= colMask < 256 -> 0 <= rowMask < 256 ->
  inColMaskOf (colMask * 256 + (255 - rowMask)) = colMask /\
  inRowMaskOf (colMask * 256 + (255 - rowMask)) = rowMask.
Proof.
  intros Hc Hr. unfold inColMaskOf, inRowMaskOf. split.
  - rewrite Z.shiftr_div_pow2 by lia. change (2 ^ 8) with 256.
    rewrite Z.add_comm, Z.div_add by lia.
    rewrite Z.div_small by lia. apply u8_small. lia.
  - replace (u8 (colMask * 256 + (255 - rowMask))) with (255 - rowMask).
    + rewrite u8_lnot by lia. lia.
    + unfold u8. rewrite Z.add_comm, Z.mod_add by lia.
      symmetry. apply Z.mod_small. lia.
Qed.

(** The word [testModeInput] builds: a one-hot column byte for the column
    of the current period over the inverted row pattern. *)
Lemma testModeInput_word pinb st :
  let col := (sTtag st / ORIG_CYCLES pinb) mod NUM_COL in
  exists rowMask,
    0 <= rowMask < 256 /\
    testModeInput pinb st = 2 ^ col * 256 + (255 - rowMask) /\
    (Z.land pinb 0x02 = 0 -> rowMask = 0).
Proof.
  intros col.
  assert (Hcol : 0 <= col < 8).
  { unfold col, NUM_COL. apply Z.mod_pos_bound. lia. }
  assert (Hcol' :
    u8 (if nonzero (Z.land pinb 0x04)
        then (sTtag st / ORIG_CYCLES_A) mod NUM_COL
        else (sTtag st / ORIG_CYCLES_B) mod NUM_COL) = col).
  { unfold col, ORIG_CYCLES. destruct (nonzero (Z.land pinb 4));
      apply u8_small; unfold NUM_COL;
      (split; [apply Z.mod_pos_bound; lia |]);
      pose proof (Z.mod_pos_bound (sTtag st / ORIG_CYCLES_A) 8 ltac:(lia));
      pose proof (Z.mod_pos_bound (sTtag st / ORIG_CYCLES_B) 8 ltac:(lia));
      lia. }
  unfold testModeInput. rewrite Hcol', one_hot_byte by exact Hcol.
  match goal with
  | |- context [u8 (Z.lnot ?rm)] => set (rowMask := rm)
  end.
  assert (Hrange : 0 <= rowMask < 256).
  { unfold rowMask.
    repeat match goal with
           | |- context [match ?x with _ => _ end] => destruct x
           end;
      first [ apply u8_range | lia ]. }
  exists rowMask. split; [exact Hrange |]. split.
  - rewrite u8_lnot by exact Hrange.
    assert (Hpow : 0 <= 2 ^ col < 256).
    { index_cases col; cbn; lia. }
    rewrite pack_bytes by lia. reflexivity.
  - intros Hp. unfold rowMask. rewrite Hp. reflexivity.
Qed.

Lemma u32_small x : 0 <= x < 4294967296 -> u32 x = x.
Proof. intros Hx. unfold u32. apply Z.mod_small. exact Hx. Qed.

Lemma testModeInput_period pinb st st' :
  sTtag st / ORIG_CYCLES pinb = sTtag st' / ORIG_CYCLES pinb ->
  testModeInput pinb st = testModeInput pinb st'.
Proof.
  unfold ORIG_CYCLES, testModeInput.
  unfold TESTMODE_CYCLES_A, TESTMODE_CYCLES_B, TEST_MODE_DUR, TESTMODE_INT,
    ORIG_CYCLES_A, ORIG_CYCLES_B, ORIG_INT, TTAG_INT_A, TTAG_INT_B.
  change (2000 / 250) with 8. change (2000 / 500) with 4.
  change (8 * 1000000 / 250) with (8 * 4000).
  change (8 * 1000000 / 500) with (4 * 4000).
  change (u32 500 * 1000 / u32 250) with (8 * 250).
  change (u32 500 * 1000 / u32 500) with (4 * 250).
  rewrite <- !Z.div_div by lia.
  destruct (nonzero (Z.land pinb 4)); intros ->; reflexivity.
Qed.

Lemma testModeInput_column pinb st :
  let col := (sTtag st / ORIG_CYCLES pinb) mod NUM_COL in
  inColMaskOf (testModeInput pinb st) = 2 ^ col /\
  decodeCol (inColMaskOf (testModeInput pinb st)) = (col, true).
Proof.
  intros col.
  assert (Hcol : 0 <= col < 8).
  { unfold col, NUM_COL. apply Z.mod_pos_bound. lia. }
  destruct (testModeInput_word pinb st) as (rowMask & Hr & Hword & _).
  fold col in Hword.
  assert (Hpow : 0 <= 2 ^ col < 256).
  { index_cases col; cbn; lia. }
  destruct (unpack_masks (2 ^ col) rowMask Hpow Hr) as (Hc & _).
  rewrite Hword, Hc. split; [reflexivity |].
  apply decodeCol_one_hot. exact Hcol.
Qed.

(** X13.  In test mode the word handed to the validator always has a
    one-hot column byte, for column [(sTtag / ORIG_CYCLES) mod 8], so the
    column decode never fails; the row mask the handler derives is a byte;
    and with the pattern jumper (bit 1 of [PINB]) low, where the sketch
    has no replay table, all rows are off. *)
Theorem X13_testModeInput_one_hot (pinb : Z) (st : State) :
  let col := (sTtag st / ORIG_CYCLES pinb) mod NUM_COL in
  inColMaskOf (testModeInput pinb st) = 2 ^ col /\
  decodeCol (inColMaskOf (testModeInput pinb st)) = (col, true) /\
  0 <= inRowMaskOf (testModeInput pinb st) < 256 /\
  (Z.land pinb 0x02 = 0 -> inRowMaskOf (testModeInput pinb st) = 0).
Proof.
  intros col.
  assert (Hcol : 0 <= col < 8).
  { unfold col, NUM_COL. apply Z.mod_pos_bound. lia. }
  destruct (testModeInput_column pinb st) as (Hmask & Hdec).
  fold col in Hmask, Hdec.
  destruct (testModeInput_word pinb st) as (rowMask & Hr & Hword & Hoff).
  fold col in Hword.
  assert (Hpow : 0 <= 2 ^ col < 256).
  { index_cases col; cbn; lia. }
  destruct (unpack_masks (2 ^ col) rowMask Hpow Hr) as (_ & Hrm).
  assert (Hrow : inRowMaskOf (testModeInput pinb st) = rowMask)
    by (rewrite Hword; exact Hrm).
  rewrite Hrow.
  exact (conj Hmask (conj Hdec (conj Hr Hoff))).
Qed.

Lemma X13_testModeInput_one_hot_witness :
  inRowMaskOf (testModeInput 0x0c (set_ttag 12345 (boot []))) = 0.
Proof.
  apply (proj2 (proj2 (proj2 (X13_testModeInput_one_hot 0x0c
                                (set_ttag 12345 (boot [])))))).
  reflexivity.
Defined.

(** X14.  The test pattern holds still during a column period: two tick
    counters in the same period of [ORIG_CYCLES] ticks give the same
    word, so that the validator sees each test sample repeated. *)
Theorem X14_testModeInput_stable (pinb : Z) (st st' : State) :
  sTtag st / ORIG_CYCLES pinb = sTtag st' / ORIG_CYCLES pinb ->
  testModeInput pinb st = testModeInput pinb st' /\
  (Z.land pinb 0x01 = 0 ->
   forall s s' st0 st0',
     sTtag st = u32 (sTtag st0 + 1) -> sTtag st' = u32 (sTtag st0' + 1) ->
     tick_colMask pinb s st0 = tick_colMask pinb s' st0' /\
     tick_rowMask pinb s st0 = tick_rowMask pinb s' st0').
Proof.
  intros Hperiod. split; [apply testModeInput_period; exact Hperiod |].
  intros Hp s s' st0 st0' Ht Ht'.
  assert (Hd : tick_inData pinb s st0 = tick_inData pinb s' st0').
  { unfold tick_inData, inDataOf. rewrite Hp.
    change (0 =? 0) with true. cbv iota.
    apply testModeInput_period. cbn [sTtag set_ttag].
    rewrite <- Ht, <- Ht'. exact Hperiod. }
  unfold tick_colMask, tick_rowMask. rewrite Hd. split; reflexivity.
Qed.

Lemma X14_testModeInput_stable_witness :
  testModeInput 0x0e (set_ttag 32001 (boot []))
  = testModeInput 0x0e (set_ttag 32007 (boot [])).
Proof.
  apply (proj1 (X14_testModeInput_stable 0x0e (set_ttag 32001 (boot []))
                  (set_ttag 32007 (boot [])) ltac:(reflexivity))).
Defined.

(* ------------------------------------------------------------------ *)
(** ** Test mode through the validator *)

Lemma tick_masks_test_mode pinb sampled st :
  Z.land pinb 0x01 = 0 ->
  tick_inData pinb sampled st
  = testModeInput pinb (set_ttag (u32 (sTtag st + 1)) st).
Proof. intros Hp. unfold tick_inData, inDataOf. rewrite Hp. reflexivity. Qed.

(** X15.  Test mode drives the integrator once per column period, at the
    period's second tick.  When a tick is the first of a column period
    (its tick counter [T] is a multiple of [ORIG_CYCLES]) and the column
    [col] of that period is neither the last sampled nor the last accepted
    one, that tick hands nothing to the integrator and the next tick hands
    it column [col] with the row pattern of the period. *)
Theorem X15_test_mode_update (pinb s1 s2 : Z) (st : State) :
  Z.land pinb 0x01 = 0 ->
  let T := u32 (sTtag st + 1) in
  let col := (T / ORIG_CYCLES pinb) mod NUM_COL in
  T mod ORIG_CYCLES pinb = 0 -> T + 1 < 4294967296 ->
  sLastColMask st <> 2 ^ col -> sLastUpdColMask st <> 2 ^ col ->
  let t1 := ISR pinb s1 st in
  let t2 := ISR pinb s2 (tick_state t1) in
  tick_update t1 = None /\
  tick_update t2 = Some (col, tick_rowMask pinb s1 st) /\
  tick_rowMask pinb s2 (tick_state t1) = tick_rowMask pinb s1 st.
Proof.
  intros Hp T col Hfirst Hwrap Hlast Hupd t1 t2.
  assert (HT : 0 <= T) by (unfold T, u32; apply Z.mod_pos_bound; lia).
  destruct (ISR_spec pinb s1 st) as (Hc1 & Hr1 & Hu1 & _ & Hlu1 & Hcs1 & _).
  destruct (ISR_rest pinb s1 st) as (Ht1 & _).
  fold t1 in Hc1, Hr1, Hu1, Hlu1, Hcs1, Ht1. fold T in Ht1.
  destruct (ISR_spec pinb s2 (tick_state t1)) as (_ & _ & Hu2 & _).
  fold t2 in Hu2.
  (* the two samples *)
  assert (Hd1 : tick_inData pinb s1 st = testModeInput pinb (set_ttag T st))
    by (apply tick_masks_test_mode; exact Hp).
  assert (Hd2 : tick_inData pinb s2 (tick_state t1)
                = testModeInput pinb (set_ttag T st)).
  { rewrite tick_masks_test_mode by exact Hp. rewrite Ht1.
    apply testModeInput_period.
    cbn [sTtag set_ttag]. rewrite (u32_small (T + 1)) by lia.
    unfold ORIG_CYCLES in *.
    destruct (nonzero (Z.land pinb 4));
      [change ORIG_CYCLES_A with 8 in * | change ORIG_CYCLES_B with 4 in *];
      Z.div_mod_to_equations; lia. }
  destruct (testModeInput_column pinb (set_ttag T st)) as (HcolMask & Hdec).
  cbn [sTtag set_ttag] in HcolMask, Hdec. fold col in HcolMask, Hdec.
  assert (Hcm1 : tick_colMask pinb s1 st = 2 ^ col)
    by (unfold tick_colMask; rewrite Hd1; exact HcolMask).
  assert (Hcm2 : tick_colMask pinb s2 (tick_state t1) = 2 ^ col)
    by (unfold tick_colMask; rewrite Hd2; exact HcolMask).
  assert (Hrm2 : tick_rowMask pinb s2 (tick_state t1) = tick_rowMask pinb s1 st)
    by (unfold tick_rowMask; rewrite Hd1, Hd2; reflexivity).
  (* first tick: the sample is new *)
  assert (Hv1 : fst (updateValid (tick_colMask pinb s1 st)
                       (tick_rowMask pinb s1 st) st) = false).
  { apply updateValid_changed. rewrite Hcm1. intros Heq.
    apply Hlast. injection Heq as <-. reflexivity. }
  assert (Hfresh : tick_colMask pinb s1 st <> sLastUpdColMask st)
    by (rewrite Hcm1; congruence).
  destruct (updateValid_rejected _ _ st Hfresh Hv1) as (Hzero & Hkeep).
  refine (conj _ (conj _ Hrm2)).
  - rewrite Hu1. unfold validInputOf. rewrite Hv1, andb_false_r. reflexivity.
  - rewrite HcolMask in Hdec.
    rewrite Hu2. unfold validInputOf. rewrite Hrm2, Hcm2, Hdec.
    cbn [fst snd andb].
    rewrite updateValid_repeated; [reflexivity | | | |].
    + rewrite Hlu1, Hkeep. congruence.
    + rewrite Hc1, Hcm1. reflexivity.
    + rewrite Hr1. reflexivity.
    + rewrite Hcs1. exact Hzero.
Qed.

Lemma X15_test_mode_update_witness :
  tick_update (ISR 0x0e 0 (set_ttag 7 (boot []))) = None /\
  tick_update (ISR 0x0e 0 (tick_state (ISR 0x0e 0 (set_ttag 7 (boot [])))))
  = Some ((u32 (7 + 1) / ORIG_CYCLES 0x0e) mod NUM_COL,
          tick_rowMask 0x0e 0 (set_ttag 7 (boot []))).
Proof.
  destruct (X15_test_mode_update 0x0e 0 0 (set_ttag 7 (boot [])))
    as (H1 & H2 & _);
    try reflexivity; try (vm_compute; discriminate).
  split; [exact H1 | exact H2].
Defined.

(* ------------------------------------------------------------------ *)
(** ** The derived tables at work *)

(** For glow duration codes from 2 on the product in [applyCfg] does not
    wrap. *)
Lemma glowStepOf_formula d :
  2 <= d <= 255 -> glowStepOf d = 8 * (65535 / (5 * d)).
Proof.
  intros Hd. unfold glowStepOf, GLOWDUR_CFG_SCALE, ORIG_INT, NUM_COL.
  rewrite (u32_small (d * 10)) by lia.
  rewrite (u32_small (d * 10 * 1000)) by lia.
  destruct (Z.gtb_spec (d * 10) 0); [| lia].
  replace (d * 10 * 1000) with (5 * d * 2000) by lia.
  rewrite Z.div_mul by lia.
  assert (Hq : 0 <= 65535 / (5 * d) <= 6554).
  { split; [apply Z.div_pos; lia |].
    apply Z.div_le_upper_bound; lia. }
  rewrite (u16_small (65535 / (5 * d))) by lia.
  rewrite u16_small by lia. lia.
Qed.

Lemma glowStepOf_range d : 0 <= d <= 255 -> 408 <= glowStepOf d <= 65535.
Proof.
  intros Hd.
  assert (Hcases : d = 0 \/ d = 1 \/ 2 <= d <= 255) by lia.
  destruct Hcases as [-> | [-> | Hd2]]; [vm_compute | vm_compute |].
  - split; discriminate.
  - split; discriminate.
  - rewrite glowStepOf_formula by exact Hd2.
    assert (51 <= 65535 / (5 * d)) by (apply Z.div_le_lower_bound; lia).
    assert (65535 / (5 * d) <= 6554) by (apply Z.div_le_upper_bound; lia).
    lia.
Qed.

(** X16.  Whatever glow duration byte a lamp is configured with, the glow
    step [applyCfg] stores for it lies between 408 and 65535: no setting
    freezes a lamp, and 161 accepted updates in one direction always take
    its counter from one end to the other.  From code 2 on the step is
    [8 * (65535 / (5 d))] without wrap-around, so that a longer duration
    never gives a larger step. *)
Theorem X16_glow_step_range (pinb : Z) (st : State) (p : Z) :
  0 <= p < 64 ->
  0 <= cfg_lampGlowDur (sCfg st) p <= 255 ->
  let d := cfg_lampGlowDur (sCfg st) p in
  let step := rd (sGlowSteps (applyCfg pinb st)) p in
  408 <= step <= 65535 /\
  updateMx_n 161 true step 0 = 65535 /\
  updateMx_n 161 false step 65535 = 0 /\
  (2 <= d -> step = 8 * (65535 / (5 * d))) /\
  (2 <= d ->
   forall st', d <= cfg_lampGlowDur (sCfg st') p <= 255 ->
     rd (sGlowSteps (applyCfg pinb st')) p <= step).
Proof.
  intros Hp Hd d step.
  assert (Hstep : step = glowStepOf d) by (apply applyCfg_glowStep; exact Hp).
  pose proof (glowStepOf_range d Hd) as Hrange. rewrite <- Hstep in Hrange.
  split; [exact Hrange |]. split; [| split; [| split]].
  - rewrite updateMx_n_rise by lia. change (Z.of_nat 161) with 161. lia.
  - rewrite updateMx_n_fall by lia. change (Z.of_nat 161) with 161. lia.
  - intros Hd2. rewrite Hstep. apply glowStepOf_formula. fold d in Hd. lia.
  - intros Hd2 st' Hd'. rewrite applyCfg_glowStep by exact Hp.
    rewrite Hstep, !glowStepOf_formula by (fold d in Hd; lia).
    apply Z.mul_le_mono_nonneg_l; [lia |].
    apply Z.div_le_compat_l; lia.
Qed.

Lemma X16_glow_step_range_witness :
  408 <= rd (sGlowSteps (applyCfg 0x0f blank_boot)) 5 <= 65535.
Proof.
  apply (X16_glow_step_range 0x0f blank_boot 5); [lia |].
  vm_compute. split; discriminate.
Defined.

(** X17.  A glow duration byte of 0 makes the lamp follow its row bit at
    once: the step stored is 65535, and one accepted update of the column
    puts the lamp's counter at 65535 if its row bit is set and at 0 if it
    is clear, wherever the counter stood. *)
Theorem X17_instant_glow
    (pinb : Z) (st : State) (col row rowMask : Z) :
  0 <= col < 8 -> 0 <= row < 8 ->
  length (sMatrixState st) = 64%nat ->
  0 <= rd (sMatrixState st) (lamp col row) <= 65535 ->
  cfg_lampGlowDur (sCfg st) (lamp col row) = 0 ->
  rd (sGlowSteps (applyCfg pinb st)) (lamp col row) = 65535 /\
  rd (updateCol (sGlowSteps (applyCfg pinb st)) col rowMask (sMatrixState st))
     (lamp col row)
  = if Z.testbit rowMask row then 65535 else 0.
Proof.
  intros Hcol Hrow Hlen HV Hd.
  assert (Hp : 0 <= lamp col row < 64) by (unfold lamp, NUM_ROW; lia).
  assert (Hstep : rd (sGlowSteps (applyCfg pinb st)) (lamp col row) = 65535).
  { rewrite applyCfg_glowStep, Hd by exact Hp. reflexivity. }
  split; [exact Hstep |].
  rewrite updateCol_lamp, Hstep by assumption.
  destruct (Z.testbit rowMask row).
  - rewrite updateMx_on by lia. lia.
  - rewrite updateMx_off by lia. lia.
Qed.

Lemma X17_instant_glow_witness :
  rd (updateCol (sGlowSteps (applyCfg 0x0f (boot [])))
        2 0x08 (sMatrixState (boot []))) (lamp 2 3)
  = if Z.testbit 0x08 3 then 65535 else 0.
Proof.
  apply (proj2 (X17_instant_glow 0x0f (boot []) 2 3 0x08
                  ltac:(lia) ltac:(lia) ltac:(reflexivity)
                  ltac:(vm_compute; split; discriminate)
                  ltac:(reflexivity))).
Defined.

(** X18.  The brightness byte limits the pulse width.  For a lamp with
    brightness code [b] (0..7) and nonzero counter [V], after [applyCfg]
    in the same timing mode the lamp is on in
    [min(V / (65536/N), M) + 1] sub cycles of a window, where the limit
    [M] is [b] with 8 sub cycles and [b / 2] with 4; with code 7 the
    limit never binds. *)
Theorem X18_brightness_limit (pinb : Z) (st : State) (col row w : Z) :
  0 <= col < 8 -> 0 <= row < 8 ->
  0 < rd (sMatrixState st) (lamp col row) <= 65535 ->
  0 <= cfg_lampBrightness (sCfg st) (lamp col row) <= 7 ->
  let V := rd (sMatrixState st) (lamp col row) in
  let b := cfg_lampBrightness (sCfg st) (lamp col row) in
  let N := ORIG_CYCLES pinb in
  let M := if N =? 8 then b else b / 2 in
  rd (sMaxSubcycle (applyCfg pinb st)) (lamp col row) = M /\
  onCount pinb (applyCfg pinb st) col row w = Z.min (V / (65536 / N)) M + 1 /\
  (b = 7 ->
   onCount pinb (applyCfg pinb st) col row w = V / (65536 / N) + 1).
Proof.
  intros Hcol Hrow HV Hb V b N M.
  assert (Hp : 0 <= lamp col row < 64) by (unfold lamp, NUM_ROW; lia).
  assert (HM : rd (sMaxSubcycle (applyCfg pinb st)) (lamp col row) = M).
  { rewrite applyCfg_maxSubcycle by exact Hp. fold b.
    unfold M, N, maxSubcycleOf, ORIG_CYCLES.
    destruct (nonzero (Z.land pinb 4)).
    - reflexivity.
    - change (8 / ORIG_CYCLES_B - 1) with 1. change (ORIG_CYCLES_B =? 8) with false.
      cbv iota. rewrite Z.shiftr_div_pow2 by lia. reflexivity. }
  assert (HM0 : 0 <= M).
  { unfold M. destruct (N =? 8); [lia | apply Z.div_pos; lia]. }
  assert (Hcount :
    onCount pinb (applyCfg pinb st) col row w = Z.min (V / (65536 / N)) M + 1).
  { rewrite onCount_value; try assumption.
    - change (sMatrixState (applyCfg pinb st)) with (sMatrixState st).
      rewrite HM. fold V N.
      destruct (Z.eqb_spec V 0); [unfold V in *; lia | reflexivity].
    - change (sMatrixState (applyCfg pinb st)) with (sMatrixState st). lia.
    - rewrite HM. exact HM0. }
  split; [exact HM |]. split; [exact Hcount |].
  intros Hb7. rewrite Hcount. unfold M, N in *. fold b in Hb. rewrite Hb7.
  destruct (ORIG_CYCLES_cases pinb) as [[-> _] | [-> _]].
  - change (8 =? 8) with true. cbv iota.
    assert (V / (65536 / 8) < 8)
      by (apply Z.div_lt_upper_bound; unfold V in *; [reflexivity | change (65536 / 8) with 8192; lia]).
    lia.
  - change (4 =? 8) with false. cbv iota.
    assert (V / (65536 / 4) < 4)
      by (apply Z.div_lt_upper_bound; unfold V in *; [reflexivity | change (65536 / 4) with 16384; lia]).
    change (7 / 2) with 3. lia.
Qed.

Lemma X18_brightness_limit_witness :
  onCount 0x0b
    (applyCfg 0x0b (set_matrix (wr (replicate 64 0) (lamp 4 4) 65535) blank_boot))
    4 4 0
  = Z.min (65535 / (65536 / ORIG_CYCLES 0x0b)) (7 / 2) + 1.
Proof.
  apply (proj1 (proj2 (X18_brightness_limit 0x0b
           (set_matrix (wr (replicate 64 0) (lamp 4 4) 65535) blank_boot)
           4 4 0 ltac:(lia) ltac:(lia)
           ltac:(vm_compute; split; [reflexivity | discriminate])
           ltac:(vm_compute; split; discriminate)))).
Defined.

(* ------------------------------------------------------------------ *)
(** ** The checksum *)

Lemma testbit_u32 x k :
  0 <= k -> Z.testbit (u32 x) k = (k <? 32) && Z.testbit x k.
Proof.
  intros Hk. unfold u32. change 4294967296 with (2 ^ 32).
  destruct (Z.ltb_spec k 32).
  - rewrite Z.mod_pow2_bits_low by lia. reflexivity.
  - rewrite Z.mod_pow2_bits_high by lia. reflexivity.
Qed.

Lemma u32_range x : 0 <= u32 x < 4294967296.
Proof. unfold u32. apply Z.mod_pos_bound. lia. Qed.

Lemma word32_of_bits x :
  0 <= x -> (forall k, 32 <= k -> Z.testbit x k = false) -> 0 <= x < 4294967296.
Proof.
  intros Hx Hbits.
  assert (Heq : x = u32 x).
  { apply Z.bits_inj'. intros k Hk. rewrite testbit_u32 by exact Hk.
    destruct (Z.ltb_spec k 32); [reflexivity |].
    rewrite Hbits by lia. reflexivity. }
  rewrite Heq. apply u32_range.
Qed.

Lemma testbit_above_word32 x k :
  0 <= x < 4294967296 -> 32 <= k -> Z.testbit x k = false.
Proof.
  intros Hx Hk. rewrite <- (u32_small x Hx), testbit_u32 by lia.
  destruct (Z.ltb_spec k 32); [lia | reflexivity].
Qed.

Lemma lxor_word32 a b :
  0 <= a < 4294967296 -> 0 <= b < 4294967296 -> 0 <= Z.lxor a b < 4294967296.
Proof.
  intros Ha Hb. apply word32_of_bits.
  - apply Z.lxor_nonneg. lia.
  - intros k Hk. rewrite Z.lxor_spec, !testbit_above_word32 by assumption.
    reflexivity.
Qed.

Lemma lxor_cancel_r a b c : Z.lxor a c = Z.lxor b c -> a = b.
Proof.
  intros H. apply (f_equal (fun z => Z.lxor z c)) in H.
  rewrite !Z.lxor_assoc, Z.lxor_nilpotent, !Z.lxor_0_r in H. exact H.
Qed.

Lemma lxor_cancel_l a b c : Z.lxor c a = Z.lxor c b -> a = b.
Proof. rewrite !(Z.lxor_comm c). apply lxor_cancel_r. Qed.

Lemma crc_shift_range x : 0 <= crc_shift x < 4294967296.
Proof.
  unfold crc_shift. cbv zeta.
  destruct (Z.testbit x 31); [| apply u32_range].
  apply lxor_word32; [apply u32_range | lia].
Qed.

(** The bit shifted out comes back as bit 0. *)
Lemma crc_shift_bit0 x : Z.testbit (crc_shift x) 0 = Z.testbit x 31.
Proof.
  unfold crc_shift. cbv zeta.
  destruct (Z.testbit x 31).
  - rewrite Z.lxor_spec, testbit_u32, Z.shiftl_spec by lia.
    rewrite Z.testbit_neg_r by lia. reflexivity.
  - rewrite testbit_u32, Z.shiftl_spec by lia.
    rewrite Z.testbit_neg_r by lia. reflexivity.
Qed.

Lemma u32_shiftl_inj x x' :
  0 <= x < 4294967296 -> 0 <= x' < 4294967296 ->
  Z.testbit x 31 = Z.testbit x' 31 ->
  u32 (Z.shiftl x 1) = u32 (Z.shiftl x' 1) -> x = x'.
Proof.
  intros Hx Hx' H31 Hsh. apply Z.bits_inj'. intros k Hk.
  destruct (Z.ltb_spec k 31) as [Hlow | Hhigh].
  - apply (f_equal (fun z => Z.testbit z (k + 1))) in Hsh.
    rewrite !testbit_u32, !Z.shiftl_spec in Hsh by lia.
    replace (k + 1 - 1) with k in Hsh by lia.
    destruct (Z.ltb_spec (k + 1) 32); [exact Hsh | lia].
  - destruct (Z.eq_dec k 31) as [-> | Hne]; [exact H31 |].
    rewrite !testbit_above_word32 by (assumption || lia). reflexivity.
Qed.

Lemma crc_shift_inj x x' :
  0 <= x < 4294967296 -> 0 <= x' < 4294967296 ->
  crc_shift x = crc_shift x' -> x = x'.
Proof.
  intros Hx Hx' Heq.
  assert (H31 : Z.testbit x 31 = Z.testbit x' 31).
  { rewrite <- !crc_shift_bit0, Heq. reflexivity. }
  apply u32_shiftl_inj; try assumption.
  unfold crc_shift in Heq. cbv zeta in Heq. rewrite <- H31 in Heq.
  destruct (Z.testbit x 31); [eapply lxor_cancel_r |]; exact Heq.
Qed.

(** Bits below the top one pass through the step unchanged, one place up. *)
Lemma crc_shift_lxor x y :
  0 <= x < 4294967296 -> 0 <= y < 2147483648 ->
  crc_shift (Z.lxor x y) = Z.lxor (crc_shift x) (Z.shiftl y 1).
Proof.
  intros Hx Hy.
  assert (Hy31 : forall k, 31 <= k -> Z.testbit y k = false).
  { intros k Hk. apply Z.bits_above_log2; [lia |].
    destruct (Z.eq_dec y 0) as [-> | Hne]; [simpl; lia |].
    assert (Z.log2 y < 31) by (apply Z.log2_lt_pow2; lia). lia. }
  assert (Hsh : u32 (Z.shiftl (Z.lxor x y) 1)
                = Z.lxor (u32 (Z.shiftl x 1)) (Z.shiftl y 1)).
  { apply Z.bits_inj'. intros k Hk.
    rewrite Z.lxor_spec, !testbit_u32, !Z.shiftl_spec, Z.lxor_spec by lia.
    destruct (Z.ltb_spec k 32); [reflexivity |].
    rewrite (Hy31 (k - 1)) by lia. reflexivity. }
  unfold crc_shift. cbv zeta.
  rewrite Z.lxor_spec, (Hy31 31), xorb_false_r, Hsh by lia.
  destruct (Z.testbit x 31); [| reflexivity].
  rewrite !Z.lxor_assoc. f_equal. apply Z.lxor_comm.
Qed.

(** One round of the bit loop: the data bit is added to the top bit, then
    the register steps. *)
Lemma crc_round (b : bool) crc :
  0 <= crc < 4294967296 ->
  (let bit := nonzero (Z.land crc 0x80000000) in
   let bit := if b then negb bit else bit in
   let crc := u32 (Z.shiftl crc 1) in
   if bit then Z.lxor crc 0x04c11db7 else crc)
  = crc_shift (Z.lxor crc (if b then 2 ^ 31 else 0)).
Proof.
  intros Hcrc. cbv zeta.
  change 0x80000000 with (2 ^ 31).
  rewrite nonzero_land_pow2 by lia.
  unfold crc_shift. cbv zeta.
  assert (Hsh : u32 (Z.shiftl (Z.lxor crc (if b then 2 ^ 31 else 0)) 1)
                = u32 (Z.shiftl crc 1)).
  { apply Z.bits_inj'. intros k Hk.
    rewrite !testbit_u32, !Z.shiftl_spec, Z.lxor_spec by lia.
    destruct (Z.ltb_spec k 32); [| reflexivity]. cbn [andb].
    destruct b; [| rewrite Z.bits_0, xorb_false_r; reflexivity].
    rewrite Z.pow2_bits_eqb by lia.
    destruct (Z.eqb_spec 31 (k - 1)); [lia |].
    rewrite xorb_false_r. reflexivity. }
  rewrite Hsh, Z.lxor_spec.
  destruct b.
  - rewrite Z.pow2_bits_eqb by lia. change (31 =? 31) with true.
    rewrite xorb_true_r. reflexivity.
  - rewrite Z.bits_0, xorb_false_r. reflexivity.
Qed.

Lemma crc_bits_range n i c crc :
  0 <= crc < 4294967296 -> 0 <= crc_bits n i c crc < 4294967296.
Proof.
  revert i crc. induction n as [|n IH]; intros i crc Hcrc; [exact Hcrc |].
  cbn [crc_bits]. apply IH.
  destruct (if nonzero (Z.land c i) then _ else _); [| apply u32_range].
  apply lxor_word32; [apply u32_range | lia].
Qed.

(** The data bits of a byte, moved to the top of the register. *)
Lemma shiftl_top_bit c (n : nat) :
  (n < 32)%nat ->
  Z.shiftl (c mod 2 ^ Z.of_nat (S n)) (32 - Z.of_nat (S n))
  = Z.lxor (if Z.testbit c (Z.of_nat n) then 2 ^ 31 else 0)
           (Z.shiftl (c mod 2 ^ Z.of_nat n) (31 - Z.of_nat n)).
Proof.
  intros Hn. apply Z.bits_inj'. intros k Hk.
  rewrite Z.lxor_spec, !Z.shiftl_spec by lia.
  replace (32 - Z.of_nat (S n)) with (31 - Z.of_nat n) by lia.
  set (j := k - (31 - Z.of_nat n)).
  assert (Htop : Z.testbit (if Z.testbit c (Z.of_nat n) then 2 ^ 31 else 0) k
                 = Z.testbit c (Z.of_nat n) && (j =? Z.of_nat n)).
  { destruct (Z.testbit c (Z.of_nat n)).
    - rewrite Z.pow2_bits_eqb by lia. cbn [andb].
      destruct (Z.eqb_spec 31 k), (Z.eqb_spec j (Z.of_nat n));
        (reflexivity || (unfold j in *; lia)).
    - rewrite Z.bits_0. reflexivity. }
  rewrite Htop.
  destruct (Z.ltb_spec j 0) as [Hneg | Hpos].
  - rewrite !(Z.testbit_neg_r _ j) by exact Hneg.
    destruct (Z.eqb_spec j (Z.of_nat n)); [lia |]. rewrite andb_false_r. reflexivity.
  - destruct (Z.ltb_spec j (Z.of_nat n)) as [Hlow | Hhigh].
    + rewrite !Z.mod_pow2_bits_low by lia.
      destruct (Z.eqb_spec j (Z.of_nat n)); [lia |].
      rewrite andb_false_r. reflexivity.
    + rewrite (Z.mod_pow2_bits_high _ (Z.of_nat n)) by lia.
      rewrite xorb_false_r.
      destruct (Z.eqb_spec j (Z.of_nat n)) as [Heq | Hne].
      * rewrite Z.mod_pow2_bits_low by lia. rewrite andb_true_r, Heq. reflexivity.
      * rewrite Z.mod_pow2_bits_high by lia. rewrite andb_false_r. reflexivity.
Qed.

Lemma shiftl_low_range c (n : nat) :
  (n < 32)%nat ->
  0 <= Z.shiftl (c mod 2 ^ Z.of_nat n) (31 - Z.of_nat n) < 2147483648.
Proof.
  intros Hn. rewrite Z.shiftl_mul_pow2 by lia.
  pose proof (Z.mod_pos_bound c (2 ^ Z.of_nat n) ltac:(apply Z.pow_pos_nonneg; lia)).
  assert (Hpow : 2 ^ Z.of_nat n * 2 ^ (31 - Z.of_nat n) = 2147483648).
  { rewrite <- Z.pow_add_r by lia. replace (Z.of_nat n + (31 - Z.of_nat n)) with 31 by lia.
    reflexivity. }
  assert (0 < 2 ^ (31 - Z.of_nat n)) by (apply Z.pow_pos_nonneg; lia).
  nia.
Qed.

(** The bit loop over the [n] low bits of [c] is [n] steps of the register
    started with those bits added at its top. *)
Lemma crc_bits_shift (n : nat) c crc :
  (n <= 32)%nat -> 0 <= crc < 4294967296 ->
  crc_bits n (Z.shiftr (2 ^ Z.of_nat n) 1) c crc
  = Nat.iter n crc_shift
      (Z.lxor crc (Z.shiftl (c mod 2 ^ Z.of_nat n) (32 - Z.of_nat n))).
Proof.
  revert crc. induction n as [|n IH]; intros crc Hn Hcrc.
  - cbn [crc_bits Nat.iter nat_rect]. change (2 ^ Z.of_nat 0) with 1.
    rewrite Z.mod_1_r, Z.shiftl_0_l, Z.lxor_0_r. reflexivity.
  - assert (Hmask : Z.shiftr (2 ^ Z.of_nat (S n)) 1 = 2 ^ Z.of_nat n).
    { rewrite Z.shiftr_div_pow2 by lia.
      replace (Z.of_nat (S n)) with (Z.of_nat n + 1) by lia.
      rewrite Z.pow_add_r by lia. change (2 ^ 1) with 2.
      apply Z.div_mul. lia. }
    rewrite Hmask. cbn [crc_bits]. rewrite nonzero_land_pow2 by lia.
    pose proof (crc_round (Z.testbit c (Z.of_nat n)) crc Hcrc) as Hround.
    cbv zeta in Hround. cbv zeta. rewrite Hround.
    set (B := if Z.testbit c (Z.of_nat n) then 2 ^ 31 else 0).
    assert (HB : 0 <= Z.lxor crc B < 4294967296).
    { apply lxor_word32; [exact Hcrc |].
      unfold B. destruct (Z.testbit c (Z.of_nat n)); simpl; lia. }
    rewrite IH by (lia || apply crc_shift_range).
    rewrite Nat.iter_succ_r. f_equal.
    rewrite shiftl_top_bit by lia. fold B.
    rewrite <- Z.lxor_assoc, (crc_shift_lxor (Z.lxor crc B))
      by (exact HB || (apply shiftl_low_range; lia)).
    rewrite Z.shiftl_shiftl by lia.
    replace (31 - Z.of_nat n + 1) with (32 - Z.of_nat n) by lia. reflexivity.
Qed.

Lemma crc_byte c crc :
  0 <= crc < 4294967296 ->
  crc_bits 8 0x80 c crc
  = Nat.iter 8 crc_shift (Z.lxor crc (Z.shiftl (c mod 256) 24)).
Proof. intros Hcrc. apply (crc_bits_shift 8 c crc); [lia | exact Hcrc]. Qed.

Lemma crc_shift_iter_range n x :
  0 <= x < 4294967296 -> 0 <= Nat.iter n crc_shift x < 4294967296.
Proof.
  intros Hx. destruct n as [|n]; [exact Hx |].
  cbn [Nat.iter nat_rect]. apply crc_shift_range.
Qed.

Lemma crc_shift_iter_inj n x x' :
  0 <= x < 4294967296 -> 0 <= x' < 4294967296 ->
  Nat.iter n crc_shift x = Nat.iter n crc_shift x' -> x = x'.
Proof.
  intros Hx Hx'. induction n as [|n IH]; [trivial |].
  cbn [Nat.iter nat_rect]. intros Heq. apply IH.
  apply crc_shift_inj; [apply crc_shift_iter_range | apply crc_shift_iter_range |];
    assumption.
Qed.

Lemma byte_top_range c :
  0 <= c < 256 -> 0 <= Z.shiftl (c mod 256) 24 < 4294967296.
Proof.
  intros Hc. rewrite Z.mod_small, Z.shiftl_mul_pow2 by lia.
  change (2 ^ 24) with 16777216. lia.
Qed.

(** Distinct register contents stay distinct when the same byte is fed. *)
Lemma crc_byte_inj_crc c crc crc' :
  0 <= c < 256 -> 0 <= crc < 4294967296 -> 0 <= crc' < 4294967296 ->
  crc_bits 8 0x80 c crc = crc_bits 8 0x80 c crc' -> crc = crc'.
Proof.
  intros Hc Hcrc Hcrc'. rewrite !crc_byte by assumption. intros Heq.
  apply crc_shift_iter_inj in Heq;
    [| apply lxor_word32; [assumption | apply byte_top_range; exact Hc] ..].
  eapply lxor_cancel_r. exact Heq.
Qed.

(** Distinct bytes fed to the same register content give distinct
    contents. *)
Lemma crc_byte_inj_byte c c' crc :
  0 <= c < 256 -> 0 <= c' < 256 -> 0 <= crc < 4294967296 ->
  crc_bits 8 0x80 c crc = crc_bits 8 0x80 c' crc -> c = c'.
Proof.
  intros Hc Hc' Hcrc. rewrite !crc_byte by assumption. intros Heq.
  apply crc_shift_iter_inj in Heq;
    [| apply lxor_word32; [assumption | apply byte_top_range; assumption] ..].
  apply lxor_cancel_l in Heq.
  rewrite !Z.mod_small, !Z.shiftl_mul_pow2 in Heq by lia. lia.
Qed.

Lemma crc_fold_range l crc :
  0 <= crc < 4294967296 ->
  0 <= fold_left (fun crc c => crc_bits 8 0x80 c crc) l crc < 4294967296.
Proof.
  revert crc. induction l as [|c l IH]; intros crc Hcrc; [exact Hcrc |].
  cbn [fold_left]. apply IH, crc_bits_range, Hcrc.
Qed.

Lemma crc_fold_inj l crc crc' :
  bytes l -> 0 <= crc < 4294967296 -> 0 <= crc' < 4294967296 ->
  fold_left (fun crc c => crc_bits 8 0x80 c crc) l crc
  = fold_left (fun crc c => crc_bits 8 0x80 c crc) l crc' ->
  crc = crc'.
Proof.
  intros Hl. revert crc crc'.
  induction Hl as [|c l Hc Hl IH]; intros crc crc' Hcrc Hcrc' Heq;
    [exact Heq |].
  cbn [fold_left] in Heq.
  apply IH in Heq; [| apply crc_bits_range; assumption ..].
  eapply crc_byte_inj_crc; eassumption.
Qed.

Lemma calculateCRC32_range data len :
  0 <= calculateCRC32 data len < 4294967296.
Proof. unfold calculateCRC32. apply crc_fold_range. lia. Qed.

(** Changing one of the bytes the checksum covers changes the checksum. *)
Lemma calculateCRC32_byte_change data len i v :
  bytes data -> (Z.to_nat len <= length data)%nat ->
  0 <= i < len -> 0 <= v < 256 -> v <> rd data i ->
  calculateCRC32 (wr data i v) len <> calculateCRC32 data len.
Proof.
  intros Hdata Hlen Hi Hv Hne. unfold calculateCRC32, wr.
  rewrite take_insert_lt by lia.
  set (l := take (Z.to_nat len) data).
  assert (Hll : (Z.to_nat i < length l)%nat)
    by (unfold l; rewrite length_take; lia).
  assert (Hli : l !! Z.to_nat i = Some (rd data i)).
  { unfold l. rewrite lookup_take_lt by lia.
    apply list_lookup_lookup_total_lt. lia. }
  rewrite insert_take_drop by exact Hll.
  rewrite <- (take_drop_middle l (Z.to_nat i) (rd data i) Hli) at 3.
  rewrite !fold_left_app. cbn [fold_left]. intros Heq.
  assert (Hl : bytes l) by (apply Forall_take; exact Hdata).
  assert (Hold : 0 <= rd data i < 256).
  { apply (Forall_lookup_1 _ _ _ _ Hl Hli). }
  apply crc_fold_inj in Heq;
    [| apply Forall_drop; exact Hl
     | apply crc_bits_range, crc_fold_range; lia ..].
  apply crc_byte_inj_byte in Heq;
    [exact (Hne Heq) | exact Hv | exact Hold | apply crc_fold_range; lia].
Qed.

(* ------------------------------------------------------------------ *)
(** ** Stored and received records *)

Lemma get32_le32 (body : list Z) v :
  0 <= v < 4294967296 ->
  get32 (body ++ le32 v) (Z.of_nat (length body)) = v.
Proof.
  intros Hv. unfold get32, rd, le32.
  rewrite !lookup_total_app_r by lia.
  replace (Z.to_nat (Z.of_nat (length body)) - length body)%nat with 0%nat by lia.
  replace (Z.to_nat (Z.of_nat (length body) + 1) - length body)%nat
    with 1%nat by lia.
  replace (Z.to_nat (Z.of_nat (length body) + 2) - length body)%nat
    with 2%nat by lia.
  replace (Z.to_nat (Z.of_nat (length body) + 3) - length body)%nat
    with 3%nat by lia.
  cbn [lookup_total list_lookup_total].
  unfold u8. rewrite !Z.shiftr_div_pow2 by lia.
  change (2 ^ 8) with 256. change (2 ^ 16) with 65536.
  change (2 ^ 24) with 16777216.
  Z.div_mod_to_equations. lia.
Qed.

(** A record that carries the checksum of its first 132 bytes in its last
    four passes the checksum test. *)
Lemma sealed_record body :
  length body = 132%nat ->
  let record := body ++ le32 (calculateCRC32 body 132) in
  length record = 136%nat /\
  calculateCRC32 record (CFG_SIZE - 4) = cfg_crc record.
Proof.
  intros Hlen record. split.
  - unfold record, le32. rewrite length_app, Hlen. reflexivity.
  - pose proof (get32_le32 body (calculateCRC32 body 132)
                  (calculateCRC32_range body 132)) as Hget.
    rewrite Hlen in Hget. change (Z.of_nat 132) with 132 in Hget.
    unfold cfg_crc, CFG_OFF_CRC, record. rewrite Hget.
    unfold calculateCRC32, CFG_SIZE. change (Z.to_nat (136 - 4)) with 132%nat.
    change (Z.to_nat 132) with 132%nat.
    rewrite take_app_length' by (symmetry; exact Hlen).
    rewrite take_ge by lia. reflexivity.
Qed.

(** A valid record with one byte changed fails the checksum test. *)
Lemma changed_record_fails cfg i v :
  length cfg = 136%nat -> bytes cfg ->
  calculateCRC32 cfg (CFG_SIZE - 4) = cfg_crc cfg ->
  0 <= i < 136 -> 0 <= v < 256 -> v <> rd cfg i ->
  calculateCRC32 (wr cfg i v) (CFG_SIZE - 4) <> cfg_crc (wr cfg i v).
Proof.
  intros Hlen Hbytes Hcrc Hi Hv Hne.
  change (CFG_SIZE - 4) with 132 in *.
  destruct (Z.ltb_spec i 132) as [Hbody | Htail].
  - assert (Hstored : cfg_crc (wr cfg i v) = cfg_crc cfg).
    { unfold cfg_crc, get32, CFG_OFF_CRC.
      rewrite !rd_wr_ne by lia. reflexivity. }
    rewrite Hstored, <- Hcrc.
    apply calculateCRC32_byte_change; try assumption; [| lia].
    rewrite Hlen. change (Z.to_nat 132) with 132%nat. lia.
  - assert (Hcalc : calculateCRC32 (wr cfg i v) 132 = calculateCRC32 cfg 132).
    { unfold calculateCRC32, wr. rewrite take_insert_ge by lia. reflexivity. }
    rewrite Hcalc, Hcrc.
    assert (Hold : 0 <= rd cfg i < 256).
    { unfold rd. apply (Forall_lookup_total_1 _ _ _ Hbytes). lia. }
    assert (Hcell : forall j, 132 <= j < 136 -> 0 <= rd cfg j < 256).
    { intros j Hj. unfold rd. apply (Forall_lookup_total_1 _ _ _ Hbytes). lia. }
    pose proof (Hcell 132 ltac:(lia)). pose proof (Hcell 133 ltac:(lia)).
    pose proof (Hcell 134 ltac:(lia)). pose proof (Hcell 135 ltac:(lia)).
    unfold cfg_crc, get32, CFG_OFF_CRC. cbn [Z.add Pos.add Pos.succ].
    assert (Hcases : i = 132 \/ i = 133 \/ i = 134 \/ i = 135) by lia.
    change (132 + 1) with 133. change (132 + 2) with 134.
    change (132 + 3) with 135.
    destruct Hcases as [-> | [-> | [-> | ->]]];
      rewrite rd_wr_eq, !rd_wr_ne by lia; lia.
Qed.

(** What [setup] leaves when the stored record is accepted. *)
Lemma setup_keeps pinb efuse st :
  fst (fst (loadCfg (set_matrix (replicate 64 0) st))) = true ->
  sCfg (setup pinb efuse st) = EEPROM_image (eeprom st) /\
  eeprom (setup pinb efuse st) = eeprom st /\
  sGlowSteps (setup pinb efuse st)
  = sGlowSteps (applyCfg pinb (set_cfg (EEPROM_image (eeprom st)) st)) /\
  sMaxSubcycle (setup pinb efuse st)
  = sMaxSubcycle (applyCfg pinb (set_cfg (EEPROM_image (eeprom st)) st)) /\
  ~ In "EEPROM write "%string
       (drop (length (serialOut st)) (serialOut (setup pinb efuse st))).
Proof.
  intros Hok. unfold setup.
  change (Z.to_nat (NUM_COL * NUM_ROW)) with 64%nat.
  pose proof (loadCfg_state (set_matrix (replicate 64 0) st)) as Hst.
  destruct (loadCfg (set_matrix (replicate 64 0) st)) as [[cfgLoaded err] st1].
  cbn [fst snd] in Hok, Hst. subst cfgLoaded st1. cbn [negb].
  refine (conj eq_refl (conj eq_refl (conj eq_refl (conj eq_refl _)))).
  cbn [serialOut Serial_print Serial_println set_lastPINB applyCfg set_tables
       set_cfg set_matrix eeprom].
  rewrite <- !app_assoc, drop_app_length. cbn [app].
  destruct (Z.land efuse 7 =? 7), (Z.land efuse 7 =? 4), (Z.land efuse 7 =? 5);
    cbn [In]; intros Hin; repeat (destruct Hin as [Hin | Hin]; [discriminate |]);
    exact Hin.
Qed.

Lemma run_background inp st n : same_background st (run inp st n).
Proof.
  induction n as [|n IH]; [apply same_background_refl |].
  rewrite run_S. unfold tickAt.
  destruct (ISR_rest (fst (inp n)) (snd (inp n)) (run inp st n))
    as (_ & Hbg & _).
  exact (same_background_trans _ _ _ IH Hbg).
Qed.

Lemma EEPROM_image_wr ee i v :
  (136 <= length ee)%nat -> 0 <= i < 136 ->
  EEPROM_image (wr ee i v) = wr (EEPROM_image ee) i v.
Proof.
  intros Hee Hi.
  rewrite !EEPROM_image_take by (rewrite ?length_wr; exact Hee).
  unfold wr. apply take_insert_lt. lia.
Qed.

(** X19.  The checksum catches every change of a single byte.  When the
    EEPROM holds a record [loadCfg] accepts and one of its 136 cells is
    then changed to another byte value, the checksum computed over the
    record no longer equals the stored one: [loadCfg] rejects the record,
    and [setup] replaces it by the default record, in RAM and in the
    EEPROM. *)
Theorem X19_changed_byte_detected
    (pinb efuse : Z) (st : State) (i v : Z) :
  (136 <= length (eeprom st))%nat ->
  bytes (take 136 (eeprom st)) ->
  fst (fst (loadCfg st)) = true ->
  0 <= i < 136 -> 0 <= v < 256 -> v <> rd (eeprom st) i ->
  let st' := set_eeprom (wr (eeprom st) i v) st in
  calculateCRC32 (EEPROM_image (eeprom st')) (CFG_SIZE - 4)
  <> cfg_crc (EEPROM_image (eeprom st')) /\
  fst (fst (loadCfg st')) = false /\
  sCfg (setup pinb efuse st') = defaultCfgBytes /\
  take 136 (eeprom (setup pinb efuse st')) = defaultCfgBytes.
Proof.
  intros Hee Hbytes Hok Hi Hv Hne st'.
  rewrite loadCfg_valid, andb_true_iff, !Z.eqb_eq in Hok.
  destruct Hok as (_ & Hcrc).
  assert (Himg : EEPROM_image (eeprom st') = wr (EEPROM_image (eeprom st)) i v).
  { unfold st'. cbn [eeprom set_eeprom]. apply EEPROM_image_wr; assumption. }
  assert (Hbad : calculateCRC32 (EEPROM_image (eeprom st')) (CFG_SIZE - 4)
                 <> cfg_crc (EEPROM_image (eeprom st'))).
  { rewrite Himg. rewrite EEPROM_image_take in * by exact Hee.
    apply changed_record_fails; try assumption.
    - rewrite length_take. lia.
    - rewrite rd_take by lia. exact Hne. }
  assert (Hload : forall s, eeprom s = eeprom st' -> fst (fst (loadCfg s)) = false).
  { intros s Hs. rewrite loadCfg_valid, Hs.
    apply Z.eqb_neq in Hbad. rewrite Hbad. apply andb_false_r. }
  split; [exact Hbad |]. split; [apply Hload; reflexivity |].
  destruct (setup_fallback pinb efuse st'
              (Hload (set_matrix (replicate 64 0) st') eq_refl))
    as (Hcfg & Heeprom).
  split; [exact Hcfg |].
  rewrite Heeprom.
  apply saveCfg_loop_image; [apply length_defaultCfgBytes |].
  unfold st'. cbn [eeprom set_eeprom]. rewrite length_wr. exact Hee.
Qed.

Lemma X19_changed_byte_detected_witness :
  fst (fst (loadCfg (set_eeprom (wr (eeprom blank_boot) 10 99) blank_boot)))
  = false.
Proof.
  apply (proj1 (proj2 (X19_changed_byte_detected 0x0f 0x07 blank_boot 10 99
           ltac:(vm_compute; lia)
           ltac:(vm_compute; repeat constructor; discriminate)
           ltac:(vm_compute; reflexivity)
           ltac:(lia) ltac:(lia)
           ltac:(vm_compute; discriminate)))).
Defined.

(** X20.  Saving and loading are inverse.  After [saveCfgToEEPROM] the
    record read back by [loadCfg] is the record that was active, the cells
    behind it are untouched, and [loadCfg] accepts it exactly when it has
    the expected version and carries its own checksum; in that case
    [setup] keeps it, leaves the EEPROM alone and computes the tables from
    it. *)
Theorem X20_save_load_round_trip (pinb efuse : Z) (st : State) :
  length (sCfg st) = 136%nat ->
  (136 <= length (eeprom st))%nat ->
  let st1 := saveCfgToEEPROM st in
  sCfg (snd (loadCfg st1)) = sCfg st /\
  drop 136 (eeprom st1) = drop 136 (eeprom st) /\
  fst (fst (loadCfg st1))
  = (cfg_version (sCfg st) =? AFTERGLOW_CFG_VERSION) &&
    (calculateCRC32 (sCfg st) (CFG_SIZE - 4) =? cfg_crc (sCfg st)) /\
  (fst (fst (loadCfg st1)) = true ->
   sCfg (setup pinb efuse st1) = sCfg st /\
   eeprom (setup pinb efuse st1) = eeprom st1 /\
   sGlowSteps (setup pinb efuse st1) = sGlowSteps (applyCfg pinb st) /\
   sMaxSubcycle (setup pinb efuse st1) = sMaxSubcycle (applyCfg pinb st)).
Proof.
  intros Hcfg Hee st1.
  destruct (saveCfg_loop_image (sCfg st) (eeprom st) Hcfg Hee)
    as (Htake & Hdrop).
  assert (Hee1 : eeprom st1 = saveCfg_loop 136 0 (sCfg st) (eeprom st))
    by reflexivity.
  assert (Hlen1 : (136 <= length (eeprom st1))%nat).
  { rewrite Hee1, length_saveCfg_loop. exact Hee. }
  assert (Himg : EEPROM_image (eeprom st1) = sCfg st).
  { rewrite EEPROM_image_take by exact Hlen1. rewrite Hee1. exact Htake. }
  split; [rewrite loadCfg_state; cbn [sCfg set_cfg]; exact Himg |].
  split; [rewrite Hee1; exact Hdrop |].
  split; [rewrite loadCfg_valid, Himg; reflexivity |].
  intros Hok.
  assert (Hok' : fst (fst (loadCfg (set_matrix (replicate 64 0) st1))) = true).
  { rewrite loadCfg_valid in *. exact Hok. }
  destruct (setup_keeps pinb efuse st1 Hok') as (H1 & H2 & H3 & H4 & _).
  rewrite Himg in *.
  split; [exact H1 |]. split; [exact H2 |].
  split; [rewrite H3 | rewrite H4]; reflexivity.
Qed.

Lemma X20_save_load_round_trip_witness :
  sCfg (snd (loadCfg (saveCfgToEEPROM
                        (setDefaultCfg (boot (replicate 1024 0xff))))))
  = sCfg (setDefaultCfg (boot (replicate 1024 0xff))).
Proof.
  apply (proj1 (X20_save_load_round_trip 0x0f 0x07
                  (setDefaultCfg (boot (replicate 1024 0xff)))
                  ltac:(vm_compute; reflexivity) ltac:(vm_compute; lia))).
Defined.

(** X21.  [receiveCfg] checks the checksum and nothing else.  Any 132
    bytes followed by their checksum, low byte first, are acknowledged,
    made the active record and stored, whatever they hold in the version
    field.  The version is checked at the next start only: [setup] then
    keeps the record if its version is the expected one, and replaces it
    by the default record if not. *)
Theorem X21_receiveCfg_checks_only_crc
    (rounds : nat) (pinb : Z) (arrivals : list (list Z)) (st : State)
    (body : list Z) :
  length body = 132%nat ->
  take 136 (rxStream arrivals st) = body ++ le32 (calculateCRC32 body 132) ->
  (length arrivals + 5 <= rounds)%nat ->
  (136 <= length (eeprom st))%nat ->
  let record := body ++ le32 (calculateCRC32 body 132) in
  exists st',
    receiveCfg rounds pinb arrivals st = Returned st' /\
    sCfg st' = record /\
    take 136 (eeprom st') = record /\
    List.last (serialOut st') EmptyString = AG_CMD_ACK /\
    forall pinb' efuse,
      sCfg (setup pinb' efuse st')
      = if cfg_version record =? AFTERGLOW_CFG_VERSION
        then record else defaultCfgBytes.
Proof.
  intros Hbody Hstream Hrounds Hee record.
  destruct (sealed_record body Hbody) as (Hlen & Hcrc). fold record in Hlen, Hcrc.
  assert (Hfull : (136 <= length (rxStream arrivals st))%nat).
  { apply (f_equal (@length Z)) in Hstream.
    fold record in Hstream. rewrite Hlen, length_take in Hstream. lia. }
  destruct (receiveCfg_good_checksum rounds pinb arrivals st Hfull Hrounds Hee)
    as (st' & r & Hret & Hcfg & _ & _ & Hstored & Hout).
  { rewrite Hstream. exact Hcrc. }
  rewrite Hstream in Hcfg, Hstored. fold record in Hcfg, Hstored.
  exists st'. split; [exact Hret |]. split; [exact Hcfg |].
  split; [exact Hstored |]. split.
  - rewrite Hout.
    change ["EEPROM write "%string; ("136" ++ CRLF)%string; AG_CMD_ACK]
      with (["EEPROM write "%string; ("136" ++ CRLF)%string] ++ [AG_CMD_ACK]).
    rewrite !app_assoc. apply last_last.
  - intros pinb' efuse.
    assert (Hlen' : (136 <= length (eeprom st'))%nat).
    { apply (f_equal (@length Z)) in Hstored.
      rewrite Hlen, length_take in Hstored. lia. }
    assert (Himg : EEPROM_image (eeprom st') = record).
    { rewrite EEPROM_image_take by exact Hlen'. exact Hstored. }
    pose proof (loadCfg_valid (set_matrix (replicate 64 0) st')) as Hvalid.
    cbn [eeprom set_matrix] in Hvalid. rewrite Himg in Hvalid.
    apply Z.eqb_eq in Hcrc. rewrite Hcrc, andb_true_r in Hvalid.
    destruct (cfg_version record =? AFTERGLOW_CFG_VERSION).
    + destruct (setup_keeps pinb' efuse st' Hvalid) as (H1 & _).
      rewrite H1. exact Himg.
    + apply (setup_fallback pinb' efuse st' Hvalid).
Qed.

Lemma X21_receiveCfg_checks_only_crc_witness :
  let body := take 132 (put16 defaultCfgBytes 0 2) in
  let record := body ++ le32 (calculateCRC32 body 132) in
  exists st',
    receiveCfg 6 0x0f [record] (boot (replicate 1024 0xff)) = Returned st' /\
    sCfg st' = record.
Proof.
  intros body record.
  destruct (X21_receiveCfg_checks_only_crc 6 0x0f [record]
              (boot (replicate 1024 0xff)) body
              ltac:(vm_compute; reflexivity) ltac:(vm_compute; reflexivity)
              ltac:(simpl; lia) ltac:(vm_compute; lia))
    as (st' & Hret & Hcfg & _).
  exists st'. split; [exact Hret | exact Hcfg].
Defined.

(** X22.  The reset command does not reach the lamps or the EEPROM.
    [defaultCfg] puts the default record into [sCfg] and acknowledges, but
    neither recomputes the tables nor stores the record: through any
    number of later ticks the glow steps and maximum sub cycles are the
    ones from before the reset, and the EEPROM is unchanged, so that a
    later [setup] loads again whatever record the EEPROM held. *)
Theorem X22_defaultCfg_not_applied
    (inp : nat -> Z * Z) (n : nat) (st : State) :
  let st' := run inp (defaultCfg st) n in
  sCfg st' = defaultCfgBytes /\
  sGlowSteps st' = sGlowSteps st /\
  sMaxSubcycle st' = sMaxSubcycle st /\
  eeprom st' = eeprom st /\
  serialOut st' = serialOut st ++ [AG_CMD_ACK] /\
  forall pinb efuse,
    fst (fst (loadCfg st)) = true ->
    sCfg (setup pinb efuse st') = EEPROM_image (eeprom st).
Proof.
  intros st'.
  destruct (run_background inp (defaultCfg st) n)
    as ((Hcfg & Hsteps & Hmax & Hee) & Hout & _).
  fold st' in Hcfg, Hsteps, Hmax, Hee, Hout.
  refine (conj Hcfg (conj Hsteps (conj Hmax (conj Hee (conj Hout _))))).
  intros pinb efuse Hok.
  assert (Hok' : fst (fst (loadCfg (set_matrix (replicate 64 0) st'))) = true).
  { rewrite loadCfg_valid in *. cbn [eeprom set_matrix]. rewrite Hee.
    exact Hok. }
  destruct (setup_keeps pinb efuse st' Hok') as (H1 & _).
  rewrite H1, Hee. reflexivity.
Qed.

Lemma X22_defaultCfg_not_applied_witness :
  sCfg (setup 0x0f 0x07 (run (fun _ => (0x0f, 0x0101)) (defaultCfg blank_boot) 3))
  = EEPROM_image (eeprom blank_boot).
Proof.
  apply (proj2 (proj2 (proj2 (proj2 (proj2
           (X22_defaultCfg_not_applied (fun _ => (0x0f, 0x0101)) 3 blank_boot)))))
         0x0f 0x07).
  vm_compute. reflexivity.
Defined.

(* ------------------------------------------------------------------ *)
(** ** The tick handler and the background loop *)

(** The handler reads none of what the background loop writes. *)
Lemma ISR_background pinb sampled cfg ee out rx lastPINB st :
  ISR pinb sampled (set_background cfg ee out rx lastPINB st)
  = mkTick (set_background cfg ee out rx lastPINB
              (tick_state (ISR pinb sampled st)))
           (tick_frames (ISR pinb sampled st))
           (tick_update (ISR pinb sampled st)).
Proof.
  destruct st as [mx tt lc lr cs uc pc pr c gs ms lp e o i].
  unfold ISR, set_background, driveLampMatrixPassThrough, set_ttag,
    set_passthrough.
  cbn [sMatrixState sTtag sLastColMask sLastRowMask sConsistentSamples
       sLastUpdColMask sLastPassThroughColMask sLastPassThroughRowMask
       sCfg sGlowSteps sMaxSubcycle sLastPINB eeprom serialOut serialIn].
  destruct (Z.land pinb 8 =? 0);
    [destruct (negb (lc =? pc) || negb (lr =? pr)) |];
    unfold inDataOf, testModeInput, driveLampMatrix, lampFrame, outColOf,
      colCycleOf;
    cbn [sMatrixState sTtag sLastColMask sLastRowMask sConsistentSamples
         sLastUpdColMask sLastPassThroughColMask sLastPassThroughRowMask
         sCfg sGlowSteps sMaxSubcycle sLastPINB eeprom serialOut serialIn];
    match goal with
    | |- context [decodeCol ?m] => destruct (decodeCol m) as [inCol validInput]
    end;
    unfold updateValid, set_valid;
    cbn [sMatrixState sTtag sLastColMask sLastRowMask sConsistentSamples
         sLastUpdColMask sLastPassThroughColMask sLastPassThroughRowMask
         sCfg sGlowSteps sMaxSubcycle sLastPINB eeprom serialOut serialIn];
    match goal with
    | |- context [negb (?m =? uc)] => destruct (negb (m =? uc))
    end;
    try match goal with
    | |- context [?k >=? SINGLE_UPDATE_CONS - 1] =>
        destruct (k >=? SINGLE_UPDATE_CONS - 1)
    end;
    destruct validInput; reflexivity.
Qed.

Lemma run_set_background inp cfg ee out rx lastPINB st n :
  run inp (set_background cfg ee out rx lastPINB st) n
  = set_background cfg ee out rx lastPINB (run inp st n).
Proof.
  induction n as [|n IH]; [reflexivity |].
  cbn [run]. rewrite IH, ISR_background. reflexivity.
Qed.

(** X23.  The lamps do not depend on what the background loop owns.
    Replacing the configuration record, the EEPROM content, the serial
    buffers and the remembered jumper port in any way changes neither the
    frames any later tick sends to the output register nor the update it
    makes, and the state after the ticks differs in the replaced parts
    only.  In particular the reset command [defaultCfg] has no effect on
    the frames. *)
Theorem X23_ticks_ignore_background
    (inp : nat -> Z * Z) (n : nat) (st : State)
    (cfg ee : list Z) (out : list string) (rx : list Z) (lastPINB : Z) :
  let st' := set_background cfg ee out rx lastPINB st in
  run inp st' n = set_background cfg ee out rx lastPINB (run inp st n) /\
  tick_frames (tickAt inp st' n) = tick_frames (tickAt inp st n) /\
  tick_update (tickAt inp st' n) = tick_update (tickAt inp st n) /\
  tick_frames (tickAt inp (defaultCfg st) n) = tick_frames (tickAt inp st n).
Proof.
  intros st'. unfold st'.
  split; [apply run_set_background |].
  unfold tickAt. rewrite run_set_background, ISR_background.
  split; [reflexivity |]. split; [reflexivity |].
  change (defaultCfg st)
    with (set_background defaultCfgBytes (eeprom st)
            (serialOut st ++ [AG_CMD_ACK]) (serialIn st) (sLastPINB st) st).
  rewrite run_set_background, ISR_background. reflexivity.
Qed.

(* ------------------------------------------------------------------ *)
(** ** Commands *)

Lemma loop_read_complete rx cmd : loop_read rx cmd true = (rx, cmd, true).
Proof. destruct rx; reflexivity. Qed.

Lemma loop_read_terminator rx cmd :
  loop_read (AG_CMD_TERMINATOR :: rx) cmd false = (rx, cmd, true).
Proof. cbn [loop_read]. rewrite Z.eqb_refl. apply loop_read_complete. Qed.

Lemma loop_read_piece s rx cmd :
  Forall (fun c => c <> AG_CMD_TERMINATOR) s ->
  loop_read (s ++ rx) cmd false = loop_read rx (cmd ++ s) false.
Proof.
  intros Hs. revert cmd. induction Hs as [|c s Hc Hs IH]; intros cmd.
  - rewrite app_nil_r. reflexivity.
  - cbn [app loop_read]. apply Z.eqb_neq in Hc. rewrite Hc. cbn [negb].
    rewrite IH, <- app_assoc. reflexivity.
Qed.

Lemma loop_read_command name rx cmd :
  Forall (fun c => c <> AG_CMD_TERMINATOR) name ->
  loop_read (name ++ AG_CMD_TERMINATOR :: rx) cmd false
  = (rx, cmd ++ name, true).
Proof.
  intros Hname. rewrite loop_read_piece by exact Hname.
  apply loop_read_terminator.
Qed.

Lemma loop_timing_same pinb st hw :
  Z.land pinb 0x04 = Z.land (sLastPINB st) 0x04 ->
  loop_timing pinb st hw = (st, hw).
Proof. intros H. unfold loop_timing. rewrite H, Z.eqb_refl. reflexivity. Qed.

(** X24.  A command may arrive in pieces.  While no terminator has come
    in, a call of [loop] only moves the buffered characters to [cmd]: it
    sends nothing and leaves configuration, lamps and timer alone.  A
    later call then behaves as if the earlier characters had arrived
    together with the later ones. *)
Theorem X24_command_in_pieces
    (rounds : nat) (pinb : Z) (arrivals : list (list Z)) (b : Board)
    (s1 : list Z) :
  complete b = false ->
  Forall (fun c => c <> AG_CMD_TERMINATOR) (serialIn (b_st b) ++ s1) ->
  Z.land pinb 0x04 = Z.land (sLastPINB (b_st b)) 0x04 ->
  let b1 := mkBoard (set_serialIn [] (b_st b)) (b_hw b)
                    (u32 (loopCounter b + 1))
                    (cmd b ++ serialIn (b_st b) ++ s1) false in
  loop rounds pinb arrivals (arrive s1 b) = LoopReturned b1 /\
  forall rounds' pinb' arrivals' s2,
    loop rounds' pinb' arrivals' (arrive s2 b1)
    = loop rounds' pinb' arrivals'
        (arrive (s1 ++ s2)
           (mkBoard (b_st b) (b_hw b) (u32 (loopCounter b + 1)) (cmd b)
                    false)).
Proof.
  intros Hc Hs Hpinb b1. split.
  - unfold loop, arrive. cbn [b_st b_hw loopCounter cmd complete serialIn
                              set_serialIn].
    rewrite Hc.
    rewrite <- (app_nil_r (serialIn (b_st b) ++ s1)).
    rewrite loop_read_piece by exact Hs. cbn [loop_read].
    rewrite loop_timing_same by exact Hpinb. reflexivity.
  - intros rounds' pinb' arrivals' s2.
    unfold loop, arrive, b1.
    cbn [b_st b_hw loopCounter cmd complete serialIn set_serialIn app].
    rewrite (app_assoc (serialIn (b_st b)) s1 s2).
    rewrite (loop_read_piece _ s2 (cmd b)) by exact Hs.
    reflexivity.
Qed.

Lemma X24_command_in_pieces_witness :
  exists b1,
    loop 0 0x00 []
      (arrive (bytes_of_string "AG")
         (mkBoard (boot []) (mkHw 0 9 8000 2 (Some 0) 0) 0 [] false))
    = LoopReturned b1 /\ cmd b1 = bytes_of_string "AG".
Proof.
  eexists. split.
  - apply (proj1 (X24_command_in_pieces 0 0x00 []
             (mkBoard (boot []) (mkHw 0 9 8000 2 (Some 0) 0) 0 [] false)
             (bytes_of_string "AG") ltac:(reflexivity)
             ltac:(vm_compute; repeat constructor; discriminate)
             ltac:(vm_compute; reflexivity))).
  - reflexivity.
Defined.

Lemma c_str_id s : Forall (fun c => c <> 0) s -> c_str s = s.
Proof.
  intros Hs. induction Hs as [|c s Hc Hs IH]; [reflexivity |].
  cbn [c_str]. apply Z.eqb_neq in Hc. rewrite Hc, IH. reflexivity.
Qed.

Lemma bytes_of_string_of_bytes l :
  bytes l -> bytes_of_string (string_of_bytes l) = l.
Proof.
  intros Hl. induction Hl as [|b l Hb Hl IH]; [reflexivity |].
  cbn [string_of_bytes bytes_of_string]. rewrite IH. f_equal.
  rewrite Ascii.N_ascii_embedding by lia. lia.
Qed.

Lemma bytes_le32 v : bytes (le32 v).
Proof. unfold bytes, le32. repeat constructor; apply u8_range. Qed.

Lemma record_image cfg :
  length cfg = 136%nat -> (fun i => rd cfg i) <$> seqZ 0 CFG_SIZE = cfg.
Proof.
  intros Hlen. change ((fun i => rd cfg i) <$> seqZ 0 CFG_SIZE)
    with (EEPROM_image cfg).
  rewrite EEPROM_image_take by lia. apply take_ge. lia.
Qed.

Lemma only_serial_refl st : only_serial st st.
Proof. destruct st. reflexivity. Qed.

Lemma only_serial_trans st1 st2 st3 :
  only_serial st1 st2 -> only_serial st2 st3 -> only_serial st1 st3.
Proof.
  unfold only_serial, set_background.
  destruct st1 as [a1 a2 a3 a4 a5 a6 a7 a8 a9 a10 a11 a12 a13 a14 a15].
  destruct st2 as [b1 b2 b3 b4 b5 b6 b7 b8 b9 b10 b11 b12 b13 b14 b15].
  destruct st3 as [c1 c2 c3 c4 c5 c6 c7 c8 c9 c10 c11 c12 c13 c14 c15].
  cbn [sMatrixState sTtag sLastColMask sLastRowMask sConsistentSamples
       sLastUpdColMask sLastPassThroughColMask sLastPassThroughRowMask
       sCfg sGlowSteps sMaxSubcycle sLastPINB eeprom serialOut serialIn].
  intros H12 H23.
  injection H12 as -> -> -> -> -> -> -> -> -> -> -> -> ->.
  injection H23 as -> -> -> -> -> -> -> -> -> -> -> -> ->.
  reflexivity.
Qed.

Lemma only_serial_print s st : only_serial st (Serial_print s st).
Proof. reflexivity. Qed.

Lemma only_serial_in rx st : only_serial st (set_serialIn rx st).
Proof. reflexivity. Qed.

Lemma receiveCfg_read_serial budget cfg st :
  only_serial st (snd (receiveCfg_read budget cfg st)).
Proof.
  revert cfg st. induction budget as [|budget IH]; intros cfg st.
  - apply only_serial_refl.
  - cbn [receiveCfg_read]. destruct (serialIn st) as [|c rx].
    + apply only_serial_refl.
    + destruct (Z.of_nat (length cfg) <? CFG_SIZE).
      * eapply only_serial_trans; [apply (only_serial_in rx) | apply IH].
      * apply only_serial_refl.
Qed.

Lemma receiveCfg_loop_serial rounds arrivals cfg st :
  only_serial st (snd (receiveCfg_loop rounds arrivals cfg st)).
Proof.
  revert arrivals cfg st.
  induction rounds as [|rounds IH]; intros arrivals cfg st.
  - cbn [receiveCfg_loop].
    destruct (Z.of_nat (length cfg) <? CFG_SIZE); apply only_serial_refl.
  - destruct (decide (length cfg < 136)%nat) as [Hlt | Hge].
    + rewrite receiveCfg_loop_S by exact Hlt. cbv zeta.
      eapply only_serial_trans; [| apply IH].
      eapply only_serial_trans; [| apply receiveCfg_read_serial].
      eapply only_serial_trans; [apply only_serial_print |].
      apply only_serial_in.
    + rewrite receiveCfg_loop_done by lia. apply only_serial_refl.
Qed.

(** The bytes taken and the bytes left make up the stream. *)
Lemma receiveCfg_loop_stream rounds arrivals cfg st cfg' :
  fst (receiveCfg_loop rounds arrivals cfg st) = Some cfg' ->
  exists rest,
    cfg' ++ serialIn (snd (receiveCfg_loop rounds arrivals cfg st)) ++ rest
    = cfg ++ rxStream arrivals st.
Proof.
  revert arrivals cfg st.
  induction rounds as [|rounds IH]; intros arrivals cfg st Hsome.
  - cbn [receiveCfg_loop] in *.
    destruct (Z.of_nat (length cfg) <? CFG_SIZE); [discriminate |].
    cbn [fst snd] in *. injection Hsome as <-.
    exists (concat arrivals). reflexivity.
  - destruct (decide (length cfg < 136)%nat) as [Hlt | Hge].
    + rewrite receiveCfg_loop_S in * by exact Hlt. cbv zeta in *.
      destruct (IH _ _ _ Hsome) as (rest & Hrest).
      destruct (receiveCfg_round arrivals cfg st) as (Hstream & _).
      cbv zeta in Hstream. exists rest. rewrite Hrest. exact Hstream.
    + rewrite receiveCfg_loop_done in * by lia. cbn [fst snd] in *.
      injection Hsome as <-. exists (concat arrivals). reflexivity.
Qed.

(** With 136 bytes in sight [receiveCfg] returns; what it leaves depends on
    the checksum test alone. *)
Lemma receiveCfg_returns rounds pinb arrivals st :
  (136 <= length (rxStream arrivals st))%nat ->
  (length arrivals + 5 <= rounds)%nat ->
  let record := take 136 (rxStream arrivals st) in
  exists st1,
    only_serial st st1 /\
    (exists rest, record ++ serialIn st1 ++ rest = rxStream arrivals st) /\
    receiveCfg rounds pinb arrivals st
    = Returned
        (if calculateCRC32 record (CFG_SIZE - 4) =? cfg_crc record
         then Serial_print AG_CMD_ACK
                (saveCfgToEEPROM (applyCfg pinb (set_cfg record st1)))
         else Serial_print AG_CMD_NACK st1).
Proof.
  intros Hfull Hrounds record.
  destruct (receiveCfg_loop_filled rounds arrivals [] st)
    as (r & Hsome & _); [simpl; lia | exact Hfull | exact Hrounds |].
  pose proof (receiveCfg_loop_serial rounds arrivals [] st) as Hserial.
  pose proof (receiveCfg_loop_stream rounds arrivals [] st) as Hstream.
  unfold receiveCfg.
  destruct (receiveCfg_loop rounds arrivals [] st) as [[cfg|] st1];
    cbn [fst snd] in Hsome, Hserial, Hstream; [| discriminate].
  injection Hsome as ->. cbn [app] in *. fold record in Hstream |- *.
  assert (HlenZ : Z.of_nat (length record) = CFG_SIZE).
  { unfold record, CFG_SIZE. rewrite length_take. lia. }
  rewrite HlenZ, Z.eqb_refl.
  exists st1. split; [exact Hserial |].
  split; [exact (Hstream record eq_refl) |].
  destruct (calculateCRC32 record (CFG_SIZE - 4) =? cfg_crc record);
    reflexivity.
Qed.

Lemma only_serial_lastPINB st st' :
  only_serial st st' -> sLastPINB st' = sLastPINB st.
Proof. intros ->. reflexivity. Qed.

Lemma only_serial_config st st' : only_serial st st' -> same_config st st'.
Proof. intros ->. repeat split. Qed.

Lemma app_five {A} (l : list A) a b c d e :
  ((((l ++ [a]) ++ [b]) ++ [c]) ++ [d]) ++ [e] = l ++ [a; b; c; d; e].
Proof. rewrite <- !app_assoc. reflexivity. Qed.

(** X25.  One command per pass, and no answer to an unknown one.  From an
    idle board, a call of [loop] takes the characters up to the first
    terminator as the command and leaves what follows in the receive
    buffer for the next call.  For the version poll it sends the command
    name, the firmware version and the configuration version; for a
    command that is none of the four known ones it sends nothing at all.
    In both cases configuration, tables, EEPROM, lamps and timer are as
    before. *)
Theorem X25_one_command_per_pass
    (rounds : nat) (pinb : Z) (arrivals : list (list Z)) (b : Board)
    (name rest : list Z) :
  idle b ->
  Forall (fun c => c <> AG_CMD_TERMINATOR) name ->
  Z.land pinb 0x04 = Z.land (sLastPINB (b_st b)) 0x04 ->
  let b0 := arrive (name ++ AG_CMD_TERMINATOR :: rest) b in
  let done (out : list string) :=
    LoopReturned
      (mkBoard (set_background (sCfg (b_st b)) (eeprom (b_st b))
                  (serialOut (b_st b) ++ out) rest (sLastPINB (b_st b))
                  (b_st b))
               (b_hw b) (u32 (loopCounter b + 1)) [] false) in
  (c_str name = bytes_of_string AG_CMD_VERSION_POLL ->
   loop rounds pinb arrivals b0
   = done ["AGV"; " "; "108"; " "; ("1" ++ CRLF)]%string) /\
  (c_str name <> bytes_of_string AG_CMD_VERSION_POLL ->
   c_str name <> bytes_of_string AG_CMD_CFG_POLL ->
   c_str name <> bytes_of_string AG_CMD_CFG_DEFAULT ->
   c_str name <> bytes_of_string AG_CMD_CFG_SAVE ->
   loop rounds pinb arrivals b0 = done []).
Proof.
  intros (Hin & Hcmd & Hcomplete) Hname Hpinb b0 done.
  assert (Hread : loop_read (serialIn (b_st b0)) (cmd b0) (complete b0)
                  = (rest, name, true)).
  { unfold b0, arrive. cbn [b_st cmd complete serialIn set_serialIn].
    rewrite Hin, Hcmd, Hcomplete. cbn [app].
    apply (loop_read_command name rest []). exact Hname. }
  split.
  - intros Hv. unfold loop. rewrite Hread.
    unfold String_equals. rewrite (bool_decide_eq_true_2 _ Hv).
    unfold b0, arrive. cbn [b_st b_hw loopCounter].
    rewrite loop_timing_same by exact Hpinb.
    unfold done.
    rewrite <- (app_five (serialOut (b_st b)) "AGV" " " "108" " "
                  ("1" ++ CRLF))%string.
    destruct (b_st b) as [a1 a2 a3 a4 a5 a6 a7 a8 a9 a10 a11 a12 a13 a14 a15].
    reflexivity.
  - intros H1 H2 H3 H4. unfold loop. rewrite Hread.
    unfold String_equals.
    rewrite (bool_decide_eq_false_2 _ H1), (bool_decide_eq_false_2 _ H2),
      (bool_decide_eq_false_2 _ H3), (bool_decide_eq_false_2 _ H4).
    unfold b0, arrive. cbn [b_st b_hw loopCounter].
    rewrite loop_timing_same by exact Hpinb.
    unfold done. rewrite app_nil_r.
    destruct (b_st b) as [a1 a2 a3 a4 a5 a6 a7 a8 a9 a10 a11 a12 a13 a14 a15].
    reflexivity.
Qed.

Lemma X25_one_command_per_pass_witness :
  loop 0 0x00 []
    (arrive (bytes_of_string "AGX:AGV:")
       (mkBoard (boot []) (mkHw 0 9 8000 2 (Some 0) 0) 0 [] false))
  = LoopReturned
      (mkBoard (set_serialIn (bytes_of_string "AGV:") (boot []))
               (mkHw 0 9 8000 2 (Some 0) 0) 1 [] false).
Proof.
  apply (proj2 (X25_one_command_per_pass 0 0x00 []
                  (mkBoard (boot []) (mkHw 0 9 8000 2 (Some 0) 0) 0 [] false)
                  (bytes_of_string "AGX") (bytes_of_string "AGV:")
                  ltac:(repeat split)
                  ltac:(vm_compute; repeat constructor; discriminate)
                  ltac:(vm_compute; reflexivity)));
    vm_compute; discriminate.
Defined.

Lemma bytes_app l1 l2 : bytes l1 -> bytes l2 -> bytes (l1 ++ l2).
Proof. unfold bytes. intros H1 H2. apply Forall_app. split; assumption. Qed.

(** The save command from an idle board: the timer is stopped, the record
    is received, and the timer started again once [receiveCfg] returns. *)
Lemma loop_save rounds pinb arrivals b rest :
  idle b ->
  loop rounds pinb arrivals
    (arrive (bytes_of_string AG_CMD_CFG_SAVE ++ AG_CMD_TERMINATOR :: rest) b)
  = match receiveCfg rounds pinb arrivals (set_serialIn rest (b_st b)) with
    | Waiting st =>
        LoopWaiting (mkBoard st (stop (b_hw b)) (u32 (loopCounter b + 1))
                             (bytes_of_string AG_CMD_CFG_SAVE) true)
    | Returned st =>
        let '(st, hw) := loop_timing pinb st (start (stop (b_hw b))) in
        LoopReturned (mkBoard st hw (u32 (loopCounter b + 1)) [] false)
    end.
Proof.
  intros (Hin & Hcmd & Hcomplete).
  unfold loop, arrive. cbn [b_st b_hw loopCounter cmd complete serialIn
                            set_serialIn].
  rewrite Hin, Hcmd, Hcomplete. cbn [app].
  rewrite (loop_read_command (bytes_of_string AG_CMD_CFG_SAVE) rest [])
    by (vm_compute; repeat constructor; discriminate).
  cbn [app].
  change (String_equals (bytes_of_string AG_CMD_CFG_SAVE) AG_CMD_VERSION_POLL)
    with false.
  change (String_equals (bytes_of_string AG_CMD_CFG_SAVE) AG_CMD_CFG_POLL)
    with false.
  change (String_equals (bytes_of_string AG_CMD_CFG_SAVE) AG_CMD_CFG_DEFAULT)
    with false.
  change (String_equals (bytes_of_string AG_CMD_CFG_SAVE) AG_CMD_CFG_SAVE)
    with true.
  cbv iota.
  match goal with
  | |- context [receiveCfg rounds pinb arrivals ?s] =>
      change s with (set_serialIn rest (b_st b))
  end.
  destruct (receiveCfg rounds pinb arrivals (set_serialIn rest (b_st b)));
    reflexivity.
Qed.

(** The poll command from an idle board. *)
Lemma loop_poll rounds pinb arrivals b rest :
  idle b ->
  Z.land pinb 0x04 = Z.land (sLastPINB (b_st b)) 0x04 ->
  loop rounds pinb arrivals
    (arrive (bytes_of_string AG_CMD_CFG_POLL ++ AG_CMD_TERMINATOR :: rest) b)
  = LoopReturned
      (mkBoard (sendCfg (set_serialIn rest (b_st b))) (b_hw b)
               (u32 (loopCounter b + 1)) [] false).
Proof.
  intros (Hin & Hcmd & Hcomplete) Hpinb.
  unfold loop, arrive. cbn [b_st b_hw loopCounter cmd complete serialIn
                            set_serialIn].
  rewrite Hin, Hcmd, Hcomplete. cbn [app].
  rewrite (loop_read_command (bytes_of_string AG_CMD_CFG_POLL) rest [])
    by (vm_compute; repeat constructor; discriminate).
  cbn [app].
  change (String_equals (bytes_of_string AG_CMD_CFG_POLL) AG_CMD_VERSION_POLL)
    with false.
  change (String_equals (bytes_of_string AG_CMD_CFG_POLL) AG_CMD_CFG_POLL)
    with true.
  cbv iota.
  rewrite loop_timing_same by exact Hpinb. reflexivity.
Qed.

(** X26.  Upload, then poll.  From an idle board the save command followed
    by 132 bytes and their checksum is acknowledged and leaves the board
    idle with that record active; the poll command in a later call of
    [loop] then sends exactly the 136 bytes of the record, and nothing
    else. *)
Theorem X26_upload_then_poll
    (rounds rounds' : nat) (pinb : Z) (arrivals arrivals' : list (list Z))
    (b : Board) (body : list Z) :
  idle b ->
  Z.land pinb 0x04 = Z.land (sLastPINB (b_st b)) 0x04 ->
  length body = 132%nat -> bytes body ->
  let record := body ++ le32 (calculateCRC32 body 132) in
  concat arrivals = record ->
  (length arrivals + 5 <= rounds)%nat ->
  exists b1 b2,
    loop rounds pinb arrivals
      (arrive (bytes_of_string AG_CMD_CFG_SAVE ++ [AG_CMD_TERMINATOR]) b)
    = LoopReturned b1 /\
    idle b1 /\ sCfg (b_st b1) = record /\
    List.last (serialOut (b_st b1)) EmptyString = AG_CMD_ACK /\
    loop rounds' pinb arrivals'
      (arrive (bytes_of_string AG_CMD_CFG_POLL ++ [AG_CMD_TERMINATOR]) b1)
    = LoopReturned b2 /\
    serialOut (b_st b2) = serialOut (b_st b1) ++ [string_of_bytes record] /\
    bytes_of_string (string_of_bytes record) = record /\
    idle b2 /\ same_config (b_st b1) (b_st b2).
Proof.
  intros Hidle Hpinb Hbody Hbytes record Harr Hrounds.
  destruct (sealed_record body Hbody) as (Hlen & Hcrc).
  fold record in Hlen, Hcrc.
  pose proof (loop_save rounds pinb arrivals b [] Hidle) as Hloop1.
  set (st0 := set_serialIn [] (b_st b)) in *.
  assert (Hstream : rxStream arrivals st0 = record).
  { unfold rxStream, st0. cbn [serialIn set_serialIn app]. exact Harr. }
  destruct (receiveCfg_returns rounds pinb arrivals st0)
    as (st1 & Hserial & (rest & Hrest) & Hret);
    [rewrite Hstream, Hlen; lia | exact Hrounds |].
  rewrite Hstream in Hrest, Hret.
  rewrite take_ge in Hrest, Hret by lia.
  apply Z.eqb_eq in Hcrc. rewrite Hcrc in Hret.
  assert (Hin1 : serialIn st1 = []).
  { rewrite <- (app_nil_r record) in Hrest at 2.
    apply app_inv_head in Hrest. apply app_eq_nil in Hrest. apply Hrest. }
  assert (Hpinb1 : sLastPINB st1 = sLastPINB (b_st b)).
  { rewrite (only_serial_lastPINB _ _ Hserial). reflexivity. }
  rewrite Hret in Hloop1.
  remember (Serial_print AG_CMD_ACK
              (saveCfgToEEPROM (applyCfg pinb (set_cfg record st1))))
    as st2 eqn:Hst2.
  assert (Hin2 : serialIn st2 = []) by (rewrite Hst2; exact Hin1).
  assert (Hpinb2 : sLastPINB st2 = sLastPINB (b_st b))
    by (rewrite Hst2; exact Hpinb1).
  assert (Hrec : sCfg st2 = record) by (rewrite Hst2; reflexivity).
  assert (Hack : List.last (serialOut st2) EmptyString = AG_CMD_ACK).
  { rewrite Hst2. cbn [serialOut Serial_print]. apply last_last. }
  rewrite loop_timing_same in Hloop1 by (rewrite Hpinb2; exact Hpinb).
  remember (mkBoard st2 (start (stop (b_hw b))) (u32 (loopCounter b + 1))
                    [] false) as b1 eqn:Hb1.
  assert (Hst1 : b_st b1 = st2) by (rewrite Hb1; reflexivity).
  assert (Hidle1 : idle b1).
  { unfold idle. rewrite Hst1, Hb1. cbn [cmd complete]. auto. }
  assert (Hpoll := loop_poll rounds' pinb arrivals' b1 [] Hidle1).
  rewrite Hst1 in Hpoll. specialize (Hpoll ltac:(rewrite Hpinb2; exact Hpinb)).
  eexists b1, _.
  refine (conj Hloop1 (conj Hidle1 (conj _ (conj _ (conj Hpoll _))))).
  - rewrite Hst1. exact Hrec.
  - rewrite Hst1. exact Hack.
  - cbn [b_st]. rewrite Hst1. unfold sendCfg.
    change (sCfg (set_serialIn [] st2)) with (sCfg st2).
    rewrite Hrec, (record_image record Hlen).
    split; [reflexivity |].
    split.
    { apply bytes_of_string_of_bytes, bytes_app;
        [exact Hbytes | apply bytes_le32]. }
    split; repeat split.
Qed.

Lemma X26_upload_then_poll_witness :
  let body := take 132 defaultCfgBytes in
  let record := body ++ le32 (calculateCRC32 body 132) in
  let b := mkBoard (boot (replicate 1024 0xff)) (mkHw 0 9 8000 2 (Some 0) 0)
                   0 [] false in
  exists b1 b2,
    loop 6 0x00 [record]
      (arrive (bytes_of_string AG_CMD_CFG_SAVE ++ [AG_CMD_TERMINATOR]) b)
    = LoopReturned b1 /\
    loop 0 0x00 []
      (arrive (bytes_of_string AG_CMD_CFG_POLL ++ [AG_CMD_TERMINATOR]) b1)
    = LoopReturned b2 /\
    serialOut (b_st b2) = serialOut (b_st b1) ++ [string_of_bytes record].
Proof.
  intros body record b.
  destruct (X26_upload_then_poll 6 0 0x00 [record] [] b body
              ltac:(repeat split) ltac:(reflexivity)
              ltac:(vm_compute; reflexivity)
              ltac:(vm_compute; repeat constructor; discriminate)
              ltac:(vm_compute; reflexivity) ltac:(simpl; lia))
    as (b1 & b2 & H1 & _ & _ & _ & H2 & H3 & _).
  exists b1, b2. split; [exact H1 |]. split; [exact H2 | exact H3].
Defined.

Lemma testbit_lor_bit x k : 0 <= k -> Z.testbit (Z.lor x (Z.shiftl 1 k)) k = true.
Proof.
  intros Hk. rewrite Z.lor_spec, Z.shiftl_spec, Z.sub_diag by exact Hk.
  apply orb_true_r.
Qed.

Lemma loop_timing_hw pinb st hw :
  watchdog (snd (loop_timing pinb st hw)) = watchdog hw /\
  PORTC (snd (loop_timing pinb st hw)) = PORTC hw /\
  (Z.testbit (TIMSK1 hw) OCIE1A = true ->
   Z.testbit (TIMSK1 (snd (loop_timing pinb st hw))) OCIE1A = true).
Proof.
  unfold loop_timing.
  destruct (negb (Z.land pinb 4 =? Z.land (sLastPINB st) 4)); cbn [snd].
  - split; [reflexivity |]. split; [reflexivity |]. intros _.
    unfold timerSetup. cbn [TIMSK1]. apply testbit_lor_bit. unfold OCIE1A. lia.
  - auto.
Qed.

(** X27.  A change of the timing jumper at run time.  When bit 2 of the
    jumper port differs from the remembered one, [loop] programs the timer
    for the new tick period (so that the sub cycles of one window still
    take the original 2 ms), restarts the tick counter at 0 and remembers
    the port; a further call with the same port changes nothing more.
    The tables are not recomputed: each lamp keeps the maximum sub cycle
    computed for the old mode.  A lamp with nonzero counter [V] is
    therefore on in [min(V / (65536/N), M') + 1] sub cycles, [N] the
    number of sub cycles of the new mode and [M'] the limit of the old
    one; at full counter and brightness code 7 that is 4 sub cycles in
    either direction, out of 8 after a change to the fast mode. *)
Theorem X27_timing_change
    (rounds : nat) (pinb : Z) (arrivals : list (list Z)) (b : Board) :
  serialIn (b_st b) = [] -> complete b = false ->
  Z.land pinb 0x04 <> Z.land (sLastPINB (b_st b)) 0x04 ->
  exists b1,
    loop rounds pinb arrivals b = LoopReturned b1 /\
    sTtag (b_st b1) = 0 /\ sLastPINB (b_st b1) = pinb /\
    OCR1A (b_hw b1) * ORIG_CYCLES pinb = ORIG_INT * 16 /\
    Z.testbit (TIMSK1 (b_hw b1)) OCIE1A = true /\
    sMatrixState (b_st b1) = sMatrixState (b_st b) /\
    same_config (b_st b) (b_st b1) /\
    (forall rounds' arrivals',
       loop rounds' pinb arrivals' b1
       = LoopReturned (mkBoard (b_st b1) (b_hw b1) (u32 (loopCounter b1 + 1))
                               (cmd b1) (complete b1))) /\
    (forall col row w,
       0 <= col < 8 -> 0 <= row < 8 ->
       0 < rd (sMatrixState (b_st b)) (lamp col row) <= 65535 ->
       0 <= cfg_lampBrightness (sCfg (b_st b)) (lamp col row) <= 7 ->
       sMaxSubcycle (b_st b)
       = sMaxSubcycle (applyCfg (sLastPINB (b_st b)) (b_st b)) ->
       let V := rd (sMatrixState (b_st b)) (lamp col row) in
       let code := cfg_lampBrightness (sCfg (b_st b)) (lamp col row) in
       onCount pinb (b_st b1) col row w
       = Z.min (V / (65536 / ORIG_CYCLES pinb))
               (maxSubcycleOf (sLastPINB (b_st b)) code) + 1 /\
       (V = 65535 -> code = 7 -> onCount pinb (b_st b1) col row w = 4)).
Proof.
  intros Hin Hcomplete Hpinb.
  assert (Htiming : forall st hw,
            sLastPINB st = sLastPINB (b_st b) ->
            loop_timing pinb st hw
            = (set_lastPINB pinb (set_ttag 0 st), timerSetup pinb hw)).
  { intros st hw Hst. unfold loop_timing. rewrite Hst.
    apply Z.eqb_neq in Hpinb. rewrite Hpinb. reflexivity. }
  set (st1 := set_lastPINB pinb (set_ttag 0 (set_serialIn [] (b_st b)))).
  set (b1 := mkBoard st1 (timerSetup pinb (b_hw b)) (u32 (loopCounter b + 1))
                     (cmd b) false).
  exists b1.
  assert (Hloop : loop rounds pinb arrivals b = LoopReturned b1).
  { unfold loop. rewrite Hin, Hcomplete. cbn [loop_read].
    rewrite Htiming by reflexivity. reflexivity. }
  split; [exact Hloop |]. split; [reflexivity |]. split; [reflexivity |].
  split.
  { cbn [b_hw b1 OCR1A timerSetup]. unfold ORIG_CYCLES.
    destruct (nonzero (Z.land pinb 4)); reflexivity. }
  split.
  { cbn [b_hw b1 TIMSK1 timerSetup]. apply testbit_lor_bit.
    unfold OCIE1A. lia. }
  split; [reflexivity |]. split; [repeat split |]. split.
  - intros rounds' arrivals'. unfold loop, b1.
    cbn [b_st b_hw loopCounter cmd complete st1 serialIn set_lastPINB
         set_ttag set_serialIn loop_read].
    rewrite loop_timing_same by reflexivity. reflexivity.
  - intros col row w Hcol Hrow HV Hcode Htables V code.
    assert (Hp : 0 <= lamp col row < 64) by (unfold lamp, NUM_ROW; lia).
    assert (HM : rd (sMaxSubcycle (b_st b1)) (lamp col row)
                 = maxSubcycleOf (sLastPINB (b_st b)) code).
    { change (sMaxSubcycle (b_st b1)) with (sMaxSubcycle (b_st b)).
      rewrite Htables. apply applyCfg_maxSubcycle. exact Hp. }
    assert (HM0 : 0 <= maxSubcycleOf (sLastPINB (b_st b)) code).
    { unfold maxSubcycleOf.
      destruct (nonzero (Z.land (sLastPINB (b_st b)) 4));
        apply Z.shiftr_nonneg; fold code in Hcode; lia. }
    assert (Hcount :
      onCount pinb (b_st b1) col row w
      = Z.min (V / (65536 / ORIG_CYCLES pinb))
              (maxSubcycleOf (sLastPINB (b_st b)) code) + 1).
    { rewrite onCount_value; try assumption.
      - change (sMatrixState (b_st b1)) with (sMatrixState (b_st b)).
        rewrite HM. fold V.
        destruct (Z.eqb_spec V 0); [unfold V in *; lia | reflexivity].
      - change (sMatrixState (b_st b1)) with (sMatrixState (b_st b)). lia.
      - rewrite HM. exact HM0. }
    split; [exact Hcount |].
    intros HV' Hcode'. rewrite Hcount, HV', Hcode'.
    unfold ORIG_CYCLES, maxSubcycleOf.
    assert (Hflip : nonzero (Z.land pinb 4)
                    = negb (nonzero (Z.land (sLastPINB (b_st b)) 4))).
    { pose proof (land_pow2 pinb 2 ltac:(lia)) as H1.
      pose proof (land_pow2 (sLastPINB (b_st b)) 2 ltac:(lia)) as H2.
      change (2 ^ 2) with 4 in H1, H2. unfold nonzero.
      rewrite H1, H2 in Hpinb |- *.
      destruct (Z.testbit pinb 2), (Z.testbit (sLastPINB (b_st b)) 2);
        cbn in Hpinb |- *; (reflexivity || lia). }
    rewrite Hflip.
    destruct (nonzero (Z.land (sLastPINB (b_st b)) 4)); reflexivity.
Qed.

Lemma X27_timing_change_witness :
  exists b1,
    loop 0 0x04 [] (mkBoard (boot []) (mkHw 0 9 8000 2 (Some 0) 0) 0 [] false)
    = LoopReturned b1 /\ sTtag (b_st b1) = 0 /\ sLastPINB (b_st b1) = 0x04.
Proof.
  destruct (X27_timing_change 0 0x04 []
              (mkBoard (boot []) (mkHw 0 9 8000 2 (Some 0) 0) 0 [] false)
              ltac:(reflexivity) ltac:(reflexivity)
              ltac:(vm_compute; discriminate))
    as (b1 & H1 & H2 & H3 & _).
  exists b1. split; [exact H1 |]. split; [exact H2 | exact H3].
Defined.

(** X28.  The lamps during an upload.  For the save command [loop] stops
    the timer interrupt, disables the watchdog and switches the outputs
    off before it calls [receiveCfg].  While fewer than 136 bytes are in
    sight this is how the board stays, after any number of rounds.  Once
    [receiveCfg] returns, acknowledged or not, the timer interrupt and the
    15 ms watchdog are on again; the output enable is still off when
    [loop] returns, and is switched on by the first [dataOutput] of the
    next tick. *)
Theorem X28_lamps_during_upload
    (rounds : nat) (pinb : Z) (arrivals : list (list Z)) (b : Board)
    (rest : list Z) :
  idle b ->
  let b0 :=
    arrive (bytes_of_string AG_CMD_CFG_SAVE ++ AG_CMD_TERMINATOR :: rest) b in
  ((length (rest ++ concat arrivals) < 136)%nat ->
   exists b1,
     loop rounds pinb arrivals b0 = LoopWaiting b1 /\
     watchdog (b_hw b1) = None /\
     Z.testbit (TIMSK1 (b_hw b1)) OCIE1A = false /\
     Z.testbit (PORTC (b_hw b1)) 1 = true /\
     same_config (b_st b) (b_st b1)) /\
  ((136 <= length (rest ++ concat arrivals))%nat ->
   (length arrivals + 5 <= rounds)%nat ->
   exists b1,
     loop rounds pinb arrivals b0 = LoopReturned b1 /\
     watchdog (b_hw b1) = Some WDTO_15MS /\
     Z.testbit (TIMSK1 (b_hw b1)) OCIE1A = true /\
     Z.testbit (PORTC (b_hw b1)) 1 = true /\
     forall colData rowData portd,
       Z.testbit (snd (dataOutput colData rowData portd (PORTC (b_hw b1)))) 1
       = false).
Proof.
  intros Hidle b0.
  pose proof (loop_save rounds pinb arrivals b rest Hidle) as Hloop.
  fold b0 in Hloop.
  set (st0 := set_serialIn rest (b_st b)) in *.
  assert (Hstream : rxStream arrivals st0 = rest ++ concat arrivals)
    by reflexivity.
  assert (Hoff : Z.testbit (PORTC (stop (b_hw b))) 1 = true).
  { cbn [PORTC stop]. change 2 with (Z.shiftl 1 1).
    apply testbit_lor_bit. lia. }
  split.
  - intros Hshort.
    destruct (receiveCfg_loop_starved rounds arrivals [] st0)
      as (Hnone & _ & Hsame); [cbn [app]; rewrite Hstream; exact Hshort |].
    unfold receiveCfg in Hloop.
    destruct (receiveCfg_loop rounds arrivals [] st0) as [[cfg|] st1];
      cbn [fst snd] in Hnone, Hsame; [discriminate |].
    eexists. split; [exact Hloop |]. cbn [b_hw b_st].
    split; [reflexivity |]. split; [| split; [exact Hoff | exact Hsame]].
    cbn [TIMSK1 stop]. unfold u8. change 256 with (2 ^ 8).
    rewrite Z.mod_pow2_bits_low by (unfold OCIE1A; lia).
    rewrite Z.land_spec, Z.lnot_spec, Z.shiftl_spec by (unfold OCIE1A; lia).
    unfold OCIE1A. change (1 - 1) with 0. change (Z.testbit 1 0) with true.
    apply andb_false_r.
  - intros Hfull Hrounds.
    destruct (receiveCfg_returns rounds pinb arrivals st0)
      as (st1 & _ & _ & Hret); [rewrite Hstream; exact Hfull | exact Hrounds |].
    rewrite Hret in Hloop.
    match type of Hloop with
    | context [loop_timing pinb ?s ?h] =>
        destruct (loop_timing_hw pinb s h) as (Hw & Hp & Hi);
        destruct (loop_timing pinb s h) as [st2 hw2]
    end.
    cbn [snd] in Hw, Hp, Hi.
    eexists. split; [exact Hloop |]. cbn [b_hw].
    split; [rewrite Hw; reflexivity |].
    split.
    { apply Hi. cbn [TIMSK1 start]. apply testbit_lor_bit. unfold OCIE1A. lia. }
    split; [rewrite Hp; exact Hoff |].
    intros colData rowData portd. unfold dataOutput. cbn [snd].
    rewrite Z.land_spec. change (Z.testbit 253 1) with false.
    apply andb_false_r.
Qed.

Lemma X28_lamps_during_upload_witness :
  exists b1,
    loop 3 0x00 []
      (arrive (bytes_of_string AG_CMD_CFG_SAVE ++ AG_CMD_TERMINATOR :: [1; 2])
         (mkBoard (boot []) (mkHw 0 9 8000 2 (Some 0) 0) 0 [] false))
    = LoopWaiting b1 /\ watchdog (b_hw b1) = None.
Proof.
  destruct (proj1 (X28_lamps_during_upload 3 0x00 []
              (mkBoard (boot []) (mkHw 0 9 8000 2 (Some 0) 0) 0 [] false)
              [1; 2] ltac:(repeat split)) ltac:(simpl; lia))
    as (b1 & H1 & H2 & _).
  exists b1. split; [exact H1 | exact H2].
Defined.
